(** * sev-tool front end: repetition runner, statistics reducer, dispatch

    A shallow embedding of [src/main.cpp]: the template function
    [perform_repetitions_and_analysis] and the option loop of [main].

    - C++ [double] is IEEE 754 binary64: Rocq's primitive [float], whose
      operations are specified by [SpecFloat] at precision 53, emax 1024.
    - C++ [int] values are [Z]; where the source relies on the width of
      [int] or [size_t] the wrap-around or the overflow is written out.
    - Reads outside a vector, dereferencing [end()], signed overflow and
      a call of [std::sort] on values its comparator does not order are
      undefined behaviour: the embedding returns [None] there.
    - The collaborators declared in [commands.h], [tests.h] and
      [utilities.h], and libc's [getopt_long], are parameters. *)

From Stdlib Require Import ZArith List Bool Lia String Ascii.
From Stdlib Require Import Permutation Sorted.
From Stdlib Require Import Floats DecimalString DecimalPos.
Import ListNotations.

Local Open Scope string_scope.
Local Open Scope list_scope.
Local Open Scope Z_scope.

(** ** Doubles *)

Module Double.

Definition double := float.

(** [static_cast<double>(measurements.size())]; sizes stay far below 2^63. *)
Definition of_size (n : nat) : double :=
of_uint63 (Uint63.of_Z (Z.of_nat n)).

(** The literal [2] of [(a + b) / 2], promoted to double. *)
Definition two : double := 2%float.

(** [x] is a number, finite or infinite. *)
Definition is_num (x : double) : bool := negb (is_nan x).

(** [x <= y] as C++ evaluates it. *)
Definition le (x y : double) : Prop := (x <=? y)%float = true.

End Double.

Import Double.

(** ** Statistics reducer (main.cpp, lines 149-194) *)

(** [std::accumulate(first, last, 0.0)]: a left fold with [+]. *)
Definition accumulate (v : list double) (init : double) : double :=
  fold_left (fun acc x => (acc + x)%float) v init.

(** The range-for loop of lines 155-158. *)
Definition sum_sq_dev (v : list double) (mean : double) : double :=
  fold_left (fun variance val =>
               (variance + (val - mean) * (val - mean))%float) v 0%float.

(** [std::sort] with the default comparator [operator<].

    The standard requires of the comparator that it be a strict weak
    ordering on the values sorted: irreflexive, transitive, and with a
    transitive equivalence [!(a < b) && !(b < a)].  On doubles [<] is
    always irreflexive and transitive; the equivalence is not transitive
    as soon as a NaN stands beside two values that differ, and the
    behaviour of the call is then undefined. *)
Definition equivalent (a b : double) : bool :=
  negb (a <? b)%float && negb (b <? a)%float.

Definition strict_weak_order (v : list double) : bool :=
  forallb
    (fun a =>
       negb (a <? a)%float &&
       forallb
         (fun b =>
            forallb
              (fun c =>
                 implb ((a <? b)%float && (b <? c)%float) (a <? c)%float &&
                 implb (equivalent a b && equivalent b c) (equivalent a c))
              v)
         v)
    v.

(** Where the requirement holds, the standard fixes the result up to the
    order of equivalent elements (without NaN these are the two zeros
    only).  [arrange] is the arrangement that keeps equivalent elements
    in the order of the sample, built by insertion with [<]. *)
Fixpoint insert (x : double) (l : list double) : list double :=
  match l with
  | [] => [x]
  | y :: l' => if (y <? x)%float then y :: insert x l' else x :: l
  end.

Definition arrange (v : list double) : list double :=
  fold_right insert [] v.

Definition sort (v : list double) : option (list double) :=
  if strict_weak_order v then Some (arrange v) else None.

(** [std::minmax_element]: the first smallest and the last largest
    element; on an empty range both iterators are [end()]. *)
Definition min_element (v : list double) : option double :=
  match v with
  | [] => None
  | x :: l => Some (fold_left (fun m y => if (y <? m)%float then y else m) l x)
  end.

Definition max_element (v : list double) : option double :=
  match v with
  | [] => None
  | x :: l => Some (fold_left (fun m y => if (y <? m)%float then m else y) l x)
  end.

(** [v[i]] for a [std::vector]: defined for [0 <= i < v.size()] only. *)
Definition at_index (v : list double) (i : Z) : option double :=
  if (0 <=? i) && (i <? Z.of_nat (List.length v)) then nth_error v (Z.to_nat i)
  else None.

Definition INT_MAX : Z := 2147483647.
Definition SIZE_MOD : Z := 2 ^ 64.

(** Conversion of a [size_t] to [int] keeps the low 32 bits. *)
Definition to_int (z : Z) : Z := (z + 2 ^ 31) mod 2 ^ 32 - 2 ^ 31.

(** An [int] result: overflow of signed arithmetic is undefined. *)
Definition int_result (z : Z) : option Z :=
  if (- INT_MAX - 1 <=? z) && (z <=? INT_MAX) then Some z else None.

(** Arithmetic on [size_t] wraps modulo 2^64. *)
Definition size_sub (a b : Z) : Z := (a - b) mod SIZE_MOD.

Record statistics := mkStatistics {
  st_min : double;
  st_q1 : double;
  st_median : double;
  st_q3 : double;
  st_max : double;
  st_count : nat;
  st_mean : double;
  st_stdev : double;
  st_variance : double
}.

Definition bind {A B : Type} (o : option A) (f : A -> option B) : option B :=
  match o with
  | Some a => f a
  | None => None
  end.

Notation "x <- e ;; k" := (bind e (fun x => k))
  (at level 61, e at next level, right associativity).

(** Lines 166-180. *)
Definition quartiles (sorted : list double) (n : Z) : option (double * double) :=
  if Z.rem n 2 =? 0 then
    a <- at_index sorted (Z.quot n 4 - 1) ;;
    b <- at_index sorted (Z.quot n 4) ;;
    n3 <- int_result (3 * n) ;;
    c <- at_index sorted (Z.quot n3 4 - 1) ;;
    d <- at_index sorted (Z.quot n3 4) ;;
    Some (((a + b) / two)%float, ((c + d) / two)%float)
  else
    a <- at_index sorted (Z.quot n 4) ;;
    n3 <- int_result (3 * n) ;;
    c <- at_index sorted (Z.quot n3 4) ;;
    Some (a, c).

(** Lines 181-185, in [size_t] arithmetic. *)
Definition median_of (sorted : list double) : option double :=
  let size := Z.of_nat (List.length sorted) in
  if size mod 2 =? 0 then
    a <- at_index sorted (size_sub (size / 2) 1) ;;
    b <- at_index sorted (size / 2) ;;
    Some ((a + b) / two)%float
  else at_index sorted (size / 2).

(** The whole reduction, in the order of the source: sum, mean, variance
    and standard deviation over the sample as collected, then the sort,
    then the order statistics over the sorted vector. *)
Definition summarize (measurements : list double) : option statistics :=
  let sum := accumulate measurements 0%float in
  let mean := (sum / of_size (List.length measurements))%float in
  let variance :=
    (sum_sq_dev measurements mean / of_size (List.length measurements))%float in
  let stdev := PrimFloat.sqrt variance in
  sorted <- sort measurements ;;
  let n := to_int (Z.of_nat (List.length sorted)) in
  q <- quartiles sorted n ;;
  med <- median_of sorted ;;
  lo <- min_element sorted ;;
  hi <- max_element sorted ;;
  Some (mkStatistics lo (fst q) med (snd q) hi (List.length sorted)
          mean stdev variance).

(** ** Output *)

(** What the process writes: [printf] text, a line of [std::cout] with a
    double or a size (their rendering is iostream's), and [stderr] text. *)
Inductive out_item :=
| Text (s : string)
| Num (label : string) (v : double)
| Cnt (label : string) (n : nat)
| Err (s : string).

Definition nl : string := String (ascii_of_nat 10) EmptyString.
Definition dq : string := String (ascii_of_nat 34) EmptyString.

Definition hex_digit (d : Z) : string :=
  String.substring (Z.to_nat d) 1 "0123456789abcdef".

Fixpoint hex_of (fuel : nat) (u : Z) : string :=
  match fuel with
  | O => EmptyString
  | S fuel' =>
      if u <? 16 then hex_digit u
      else (hex_of fuel' (u / 16) ++ hex_digit (u mod 16))%string
  end.

(** [printf("%02x", v)] for an [int] [v]: the value as [unsigned int], in
    lower-case hexadecimal, padded with a zero to two digits at least. *)
Definition printf_02x (v : Z) : string :=
  let s := hex_of 8 (v mod 2 ^ 32) in
  if (String.length s <? 2)%nat then ("0" ++ s)%string else s.

Definition msg_successful : string :=
  (nl ++ "Command Successful" ++ nl)%string.
Definition msg_not_supported : string :=
  (nl ++ "Command not supported/recognized. Possibly bad formatting" ++ nl)%string.
Definition msg_unsuccessful (cmd_ret : Z) : string :=
  (nl ++ "Command Unsuccessful: 0x" ++ printf_02x cmd_ret ++ nl)%string.

(** Lines 186-194. *)
Definition print_statistics (s : statistics) : list out_item :=
  [ Num "Min: " (st_min s);
    Num "First Quartile (Q1): " (st_q1 s);
    Num "Median: " (st_median s);
    Num "Third Quartile (Q3): " (st_q3 s);
    Num "Max: " (st_max s);
    Cnt "Number of measurements: " (st_count s);
    Num "Average: " (st_mean s);
    Num "Standard Deviation: " (st_stdev s);
    Num "Variance: " (st_variance s) ].

(** ** Repetition runner (main.cpp, lines 124-147) *)

Section Runner.

(** Everything a command can touch outside this file. *)
Context {W : Type}.

(** [func(measurements)]: the vector is passed by reference. *)
Definition repeatable : Type :=
  list double -> W -> Z * list double * W.

(** The [for] loop with [remaining] iterations to go. *)
Fixpoint repetition_loop (func : repeatable) (remaining : nat) (cmd_ret : Z)
    (measurements : list double) (w : W) (out : list out_item)
    : Z * list double * W * list out_item :=
  match remaining with
  | O => (cmd_ret, measurements, w, out)
  | S remaining' =>
      let '(ret, measurements', w') := func measurements w in
      if ret =? 0 then repetition_loop func remaining' ret measurements' w' out
      else
        (ret, measurements', w',
         out ++ [Text (if ret =? 65535 then msg_not_supported
                       else msg_unsuccessful ret)])
  end.

(** One repetition cycle: the vector starts empty, [cmd_ret] at 0. *)
Definition repetition_cycle (func : repeatable) (repetitions : Z) (w : W)
    : Z * list double * W * list out_item :=
  repetition_loop func (Z.to_nat repetitions) 0 [] w [].

(** [perform_repetitions_and_analysis]: the cycle, then the statistics
    of whatever was collected, then [return cmd_ret].  [None] for the
    status when the function does not return: [reserve] of a negative
    count throws [std::length_error], and the reduction may be undefined. *)
Definition perform_repetitions_and_analysis (func : repeatable)
    (repetitions : Z) (w : W) : option Z * W * list out_item :=
  if repetitions <? 0 then (None, w, [])
  else
    let '(cmd_ret, measurements, w', out) :=
      repetition_cycle func repetitions w in
    match summarize measurements with
    | Some s => (Some cmd_ret, w', out ++ print_statistics s)
    | None => (None, w', out)
    end.

(** The world, the vector and the status after [k] runs in sequence,
    whatever their statuses. *)
Fixpoint after_runs (func : repeatable) (k : nat) (w : W)
    : Z * list double * W :=
  match k with
  | O => (0, [], w)
  | S k' =>
      let '(_, measurements, w') := after_runs func k' w in
      func measurements w'
  end.

Definition status_of_run (func : repeatable) (k : nat) (w : W) : Z :=
  fst (fst (after_runs func k w)).

End Runner.

(** ** libc pieces used by [main] *)

Definition chr (a : ascii) : Z := Z.of_nat (nat_of_ascii a).

(** A [bool] returned from [int main]. *)
Definition int_of_bool (b : bool) : Z := if b then 1 else 0.

Definition isspace (c : ascii) : bool :=
  let n := chr c in (n =? 32) || ((9 <=? n) && (n <=? 13)).

Definition digit_value (c : ascii) : option Z :=
  let n := chr c in
  if (48 <=? n) && (n <=? 57) then Some (n - 48) else None.

Fixpoint skip_spaces (s : string) : string :=
  match s with
  | String c s' => if isspace c then skip_spaces s' else s
  | EmptyString => s
  end.

Fixpoint parse_digits (s : string) (acc : Z) : Z :=
  match s with
  | String c s' =>
      match digit_value c with
      | Some d => parse_digits s' (10 * acc + d)
      | None => acc
      end
  | EmptyString => acc
  end.

Definition LONG_MAX : Z := 2 ^ 63 - 1.
Definition LONG_MIN : Z := - 2 ^ 63.

(** [strtol(s, NULL, 10)]: white space, an optional sign, the longest run
    of digits; 0 when there is none; saturating at the bounds of [long]. *)
Definition strtol10 (s : string) : Z :=
  let v :=
    match skip_spaces s with
    | String "-" r => - parse_digits r 0
    | String "+" r => parse_digits r 0
    | r => parse_digits r 0
    end in
  Z.max LONG_MIN (Z.min LONG_MAX v).

(** [atoi(s)] is [(int) strtol(s, NULL, 10)] (the C standard leaves values
    outside [int] undefined; glibc truncates). *)
Definition atoi (s : string) : Z := to_int (strtol10 s).

(** [printf("%d", v)]. *)
Definition printf_d (v : Z) : string := NilZero.string_of_int (Z.to_int v).

(** [printf("%c", v)]. *)
Definition printf_c (v : Z) : string :=
  String (ascii_of_nat (Z.to_nat (v mod 256))) EmptyString.

(** [strncmp(a, b, n) == 0]; the end of a Rocq string is the NUL. *)
Fixpoint strncmp_eq (a b : string) (n : nat) : bool :=
  match n with
  | O => true
  | S n' =>
      match a, b with
      | EmptyString, EmptyString => true
      | String x a', String y b' => Ascii.eqb x y && strncmp_eq a' b' n'
      | _, _ => false
      end
  end.

Definition help_array : string :=
  String.concat nl
    [ "The following commands are supported:";
      " sevtool -[global opts] --[command] [command opts]";
      "(Please see the readme file for more detailed information)";
      "Platform Owner commands:";
      "  factory_reset";
      "  platform_status";
      "  pek_gen";
      "  pek_csr";
      "  pdh_gen";
      "  pdh_cert_export";
      "  pek_cert_import";
      "      Input params:";
      "          pek_csr.signed.cert file";
      "          oca.cert file";
      "  get_id";
      "  sign_pek_csr";
      "      Input params:";
      "          pek_csr.cert file";
      "          [oca private key].pem file";
      "  set_self_owned";
      "  set_externally_owned";
      "      Input params:";
      "          [oca private key].pem file";
      "  generate_cek_ask";
      "  get_ask_ark";
      "  export_cert_chain";
      "Guest Owner commands:";
      "  calc_measurement";
      "      Input params (all in ascii-encoded hex bytes):";
      "          uint8_t  meas_ctx";
      "          uint8_t  api_major";
      "          uint8_t  api_minor";
      "          uint8_t  build_id";
      "          uint32_t policy";
      "          uint32_t digest";
      "          uint8_t  m_nonce[128/8]";
      "          uint8_t  gctx_tik[128/8]";
      "  validate_cert_chain";
      "  generate_launch_blob";
      "      Input params:";
      "          uint32_t policy";
      "  package_secret";
      "  validate_attestation";
      "  validate_guest_report";
      "  validate_cert_chain_vcek";
      "  export_cert_chain_vcek";
      "" ].

(** ** Collaborators *)

Record measurement_t := mkMeasurement {
  meas_ctx : Z;
  api_major : Z;
  api_minor : Z;
  build_id : Z;
  policy : Z;
  digest : list Z;
  mnonce : list Z;
  tik : list Z
}.

(** What [main] calls through: the methods of [Command] and [Tests]
    (constructed from the output folder and the verbose flag for each
    call), [sev::execute_system_command], [sev::str_to_array] and libc's
    [strtol] in base 16.  [W] is the state they share.  A repeatable
    method takes the measurement vector by reference. *)
Record collaborators (W : Type) := mkCollaborators {
  sys_info : string -> Z -> W -> Z * W;
  factory_reset : string -> Z -> @repeatable W;
  platform_status : string -> Z -> @repeatable W;
  pek_gen : string -> Z -> @repeatable W;
  pek_csr : string -> Z -> @repeatable W;
  pdh_gen : string -> Z -> @repeatable W;
  pdh_cert_export : string -> Z -> @repeatable W;
  pek_cert_import : string -> Z -> string -> string -> W -> Z * W;
  get_id : string -> Z -> @repeatable W;
  set_self_owned : string -> Z -> W -> Z * W;
  set_externally_owned : string -> Z -> string -> W -> Z * W;
  generate_cek_ask : string -> Z -> W -> Z * W;
  get_ask_ark : string -> Z -> W -> Z * W;
  export_cert_chain : string -> Z -> W -> Z * W;
  export_cert_chain_vcek : string -> Z -> W -> Z * W;
  sign_pek_csr : string -> Z -> string -> string -> W -> Z * W;
  calc_measurement : string -> Z -> measurement_t -> W -> Z * W;
  validate_cert_chain : string -> Z -> W -> Z * W;
  generate_launch_blob : string -> Z -> Z -> W -> Z * W;
  package_secret : string -> Z -> W -> Z * W;
  validate_attestation : string -> Z -> W -> Z * W;
  validate_guest_report : string -> Z -> W -> Z * W;
  validate_cert_chain_vcek : string -> Z -> W -> Z * W;
  test_all : string -> Z -> W -> Z * W;
  execute_system_command : string -> W -> bool * string * W;
  str_to_array : string -> Z -> list Z;
  strtol16 : string -> Z;
  sizeof_digest : Z;
  sizeof_mnonce : Z;
  sizeof_tik : Z
}.

Arguments sys_info {W}.
Arguments factory_reset {W}.
Arguments platform_status {W}.
Arguments pek_gen {W}.
Arguments pek_csr {W}.
Arguments pdh_gen {W}.
Arguments pdh_cert_export {W}.
Arguments pek_cert_import {W}.
Arguments get_id {W}.
Arguments set_self_owned {W}.
Arguments set_externally_owned {W}.
Arguments generate_cek_ask {W}.
Arguments get_ask_ark {W}.
Arguments export_cert_chain {W}.
Arguments export_cert_chain_vcek {W}.
Arguments sign_pek_csr {W}.
Arguments calc_measurement {W}.
Arguments validate_cert_chain {W}.
Arguments generate_launch_blob {W}.
Arguments package_secret {W}.
Arguments validate_attestation {W}.
Arguments validate_guest_report {W}.
Arguments validate_cert_chain_vcek {W}.
Arguments test_all {W}.
Arguments execute_system_command {W}.
Arguments str_to_array {W}.
Arguments strtol16 {W}.
Arguments sizeof_digest {W}.
Arguments sizeof_mnonce {W}.
Arguments sizeof_tik {W}.

(** ** [main] (main.cpp, lines 197-491) *)

(** The variables [getopt_long] reads and writes: its globals, the
    argument vector (which GNU's implementation may reorder), the flag
    the [verbose] and [brief] entries of [long_options] point at, and
    whatever the parser keeps between calls. *)
Record getopt_vars (P : Type) := mkGetopt {
  optind : Z;
  optarg : string;
  optopt : Z;
  argv : list string;
  verbose_flag : Z;
  parser : P
}.

Arguments mkGetopt {P}.
Arguments optind {P}.
Arguments optarg {P}.
Arguments optopt {P}.
Arguments argv {P}.
Arguments verbose_flag {P}.
Arguments parser {P}.

Definition set_optind {P} (g : getopt_vars P) (i : Z) : getopt_vars P :=
  mkGetopt i (optarg g) (optopt g) (argv g) (verbose_flag g) (parser g).

Definition argc {P} (g : getopt_vars P) : Z := Z.of_nat (List.length (argv g)).

(** [argv[i]]. *)
Definition arg_at (args : list string) (i : Z) : option string :=
  if (0 <=? i) && (i <? Z.of_nat (List.length args))
  then nth_error args (Z.to_nat i) else None.

Record main_state (W P : Type) := mkState {
  gv : getopt_vars P;
  repetitions : Z;
  output_folder : string;
  cmd_ret : Z;
  world : W;
  out : list out_item
}.

Arguments mkState {W P}.
Arguments gv {W P}.
Arguments repetitions {W P}.
Arguments output_folder {W P}.
Arguments cmd_ret {W P}.
Arguments world {W P}.
Arguments out {W P}.

(** How one pass through the [switch] ends: [break], [return], or
    behaviour the language leaves undefined. *)
Inductive step (W P : Type) :=
| Continue (st : main_state W P)
| Return (code : Z) (st : main_state W P)
| Undefined (st : main_state W P).

Arguments Continue {W P}.
Arguments Return {W P}.
Arguments Undefined {W P}.

(** Lines 477-488. *)
Definition classify (cmd_ret : Z) : string :=
  if cmd_ret =? 0 then msg_successful
  else if cmd_ret =? 65535 then msg_not_supported
  else msg_unsuccessful cmd_ret.

Section Main.

Context {W P : Type}.
Variable sev : collaborators W.

Definition print (st : main_state W P) (o : out_item) : main_state W P :=
  mkState (gv st) (repetitions st) (output_folder st) (cmd_ret st)
    (world st) (out st ++ [o]).

Definition with_optind (st : main_state W P) (i : Z) : main_state W P :=
  mkState (set_optind (gv st) i) (repetitions st) (output_folder st)
    (cmd_ret st) (world st) (out st).

(** [cmd_ret = cmd.method(...)] for a single-shot method. *)
Definition single_shot (st : main_state W P)
    (method : string -> Z -> W -> Z * W) : step W P :=
  let '(ret, w') :=
    method (output_folder st) (verbose_flag (gv st)) (world st) in
  Continue (mkState (gv st) (repetitions st) (output_folder st) ret w' (out st)).

(** [cmd_ret = perform_repetitions_and_analysis(lambda, repetitions)]. *)
Definition repeated (st : main_state W P) (func : @repeatable W) : step W P :=
  match perform_repetitions_and_analysis func (repetitions st) (world st) with
  | (Some ret, w', o) =>
      Continue (mkState (gv st) (repetitions st) (output_folder st) ret w'
                  (out st ++ o))
  | (None, w', o) =>
      Undefined (mkState (gv st) (repetitions st) (output_folder st)
                   (cmd_ret st) w' (out st ++ o))
  end.

(** [optind--], the arity test against [argc - optind], and on success
    the [k] reads [argv[optind++]]. *)
Definition positional (st : main_state W P) (k : nat) (wrong_arity : string)
    (body : main_state W P -> list string -> step W P) : step W P :=
  let st1 := with_optind st (optind (gv st) - 1) in
  if negb (argc (gv st1) - optind (gv st1) =? Z.of_nat k) then
    Return (int_of_bool false) (print st1 (Text wrong_arity))
  else
    let fix read (n : nat) (i : Z) : option (list string) :=
      match n with
      | O => Some []
      | S n' =>
          a <- arg_at (argv (gv st1)) i ;;
          r <- read n' (i + 1) ;;
          Some (a :: r)
      end in
    match read k (optind (gv st1)) with
    | Some args => body (with_optind st1 (optind (gv st1) + Z.of_nat k)) args
    | None => Undefined st1
    end.

Definition code_is (c : Z) (a : ascii) : bool := c =? chr a.

(** The body of the [switch (c)]. *)
Definition handle_option (c : Z) (st : main_state W P) : step W P :=
  let folder := output_folder st in
  let verbose := verbose_flag (gv st) in
  if code_is c "h" || code_is c "H" then
    Continue (mkState (gv st) (repetitions st) folder 0 (world st)
                (out st ++ [Text (help_array ++ nl)]))
  else if code_is c "i" || code_is c "I" then single_shot st (sys_info sev)
  else if code_is c "o" || code_is c "O" then
    let folder' := (optarg (gv st) ++ "/")%string in
    let cmd := ("if test -d " ++ folder' ++ " ; then echo " ++ dq ++ "exist"
                ++ dq ++ "; else echo " ++ dq ++ "no" ++ dq ++ "; fi")%string in
    let '(ok, output, w') := execute_system_command sev cmd (world st) in
    let st' := mkState (gv st) (repetitions st) folder' (cmd_ret st) w' (out st) in
    if negb ok then
      Return (int_of_bool false)
        (print st' (Text ("Error. Output directory " ++ folder'
                          ++ " existance check failed." ++ nl)))
    else if negb (strncmp_eq output "exists" 2) then
      Return (int_of_bool false)
        (print st' (Text ("Error. Output directory " ++ folder'
                          ++ " does not exist. "
                          ++ "Please manually create it and try again" ++ nl)))
    else Continue st'
  else if code_is c "a" then repeated st (factory_reset sev folder verbose)
  else if code_is c "b" then repeated st (platform_status sev folder verbose)
  else if code_is c "c" then repeated st (pek_gen sev folder verbose)
  else if code_is c "d" then repeated st (pek_csr sev folder verbose)
  else if code_is c "e" then repeated st (pdh_gen sev folder verbose)
  else if code_is c "f" then repeated st (pdh_cert_export sev folder verbose)
  else if code_is c "g" then
    positional st 2
      ("Error: Expecting exactly 2 args for pek_cert_import" ++ nl)
      (fun st' args =>
         let signed_pek_csr_file := nth 0 args EmptyString in
         let oca_cert_file := nth 1 args EmptyString in
         repeated st'
           (fun measurements w =>
              let '(ret, w') :=
                pek_cert_import sev folder verbose
                  signed_pek_csr_file oca_cert_file w in
              (ret, measurements, w')))
  else if code_is c "j" then repeated st (get_id sev folder verbose)
  else if code_is c "k" then single_shot st (set_self_owned sev)
  else if code_is c "l" then
    positional st 1
      ("Error: Expecting exactly 1 arg for set_externally_owned" ++ nl)
      (fun st' args =>
         let oca_priv_key_file := nth 0 args EmptyString in
         single_shot st'
           (fun f v => set_externally_owned sev f v oca_priv_key_file))
  else if code_is c "m" then single_shot st (generate_cek_ask sev)
  else if code_is c "n" then single_shot st (get_ask_ark sev)
  else if code_is c "p" then single_shot st (export_cert_chain sev)
  else if code_is c "q" then single_shot st (export_cert_chain_vcek sev)
  else if code_is c "r" then
    let repetitions' := atoi (optarg (gv st)) in
    if repetitions' <=? 0 then
      Continue (mkState (gv st) 1 folder (cmd_ret st) (world st)
                  (out st ++ [Text ("Error: Invalid repetitions value "
                                    ++ printf_d repetitions'
                                    ++ ". Using default." ++ nl)]))
    else
      Continue (mkState (gv st) repetitions' folder (cmd_ret st) (world st)
                  (out st))
  else if code_is c "s" then
    positional st 2
      ("Error: Expecting exactly 2 args for pek_cert_import" ++ nl)
      (fun st' args =>
         let pek_csr_file := nth 0 args EmptyString in
         let oca_priv_key_file := nth 1 args EmptyString in
         single_shot st'
           (fun f v => sign_pek_csr sev f v pek_csr_file oca_priv_key_file))
  else if code_is c "t" then
    positional st 8
      ("Error: Expecting exactly 8 args for calc_measurement" ++ nl)
      (fun st' args =>
         let arg i := nth i args EmptyString in
         let user_data :=
           mkMeasurement
             (strtol16 sev (arg 0%nat) mod 2 ^ 8)
             (strtol16 sev (arg 1%nat) mod 2 ^ 8)
             (strtol16 sev (arg 2%nat) mod 2 ^ 8)
             (strtol16 sev (arg 3%nat) mod 2 ^ 8)
             (strtol16 sev (arg 4%nat) mod 2 ^ 32)
             (str_to_array sev (arg 5%nat) (sizeof_digest sev))
             (str_to_array sev (arg 6%nat) (sizeof_mnonce sev))
             (str_to_array sev (arg 7%nat) (sizeof_tik sev)) in
         single_shot st' (fun f v => calc_measurement sev f v user_data))
  else if code_is c "u" then single_shot st (validate_cert_chain sev)
  else if code_is c "v" then
    positional st 1
      ("Error: Expecting exactly 1 arg for generate_launch_blob" ++ nl)
      (fun st' args =>
         let guest_policy := strtol16 sev (nth 0 args EmptyString) mod 2 ^ 8 in
         single_shot st' (fun f v => generate_launch_blob sev f v guest_policy))
  else if code_is c "w" then single_shot st (package_secret sev)
  else if code_is c "x" then single_shot st (validate_attestation sev)
  else if code_is c "y" then single_shot st (validate_guest_report sev)
  else if code_is c "z" then single_shot st (validate_cert_chain_vcek sev)
  else if code_is c "T" then
    let '(r, w') := test_all sev folder verbose (world st) in
    Continue (mkState (gv st) (repetitions st) folder
                (int_of_bool (r =? 0)) w' (out st))
  else if (c =? 0) || (c =? 1) then Continue st
  else
    Return (int_of_bool false)
      (print st (Err ("Unrecognised option: -" ++ printf_c (optopt (gv st))
                      ++ nl))).

(** One call of libc's [getopt_long(argc, argv, "hio:r:", long_options,
    &option_index)]: the value returned and the variables as it leaves
    them. *)
Variable getopt_long : getopt_vars P -> Z * getopt_vars P.

Inductive loop_end :=
| Done
| Returned (code : Z)
| Undefined_behaviour
| Out_of_fuel.

(** The [while] loop of line 205; [fuel] bounds the number of calls of
    [getopt_long]. *)
Fixpoint option_loop (fuel : nat) (st : main_state W P) : loop_end * main_state W P :=
  match fuel with
  | O => (Out_of_fuel, st)
  | S fuel' =>
      let '(c, g') := getopt_long (gv st) in
      let st1 := mkState g' (repetitions st) (output_folder st) (cmd_ret st)
                   (world st) (out st) in
      if c =? -1 then (Done, st1)
      else
        match handle_option c st1 with
        | Continue st2 => option_loop fuel' st2
        | Return code st2 => (Returned code, st2)
        | Undefined st2 => (Undefined_behaviour, st2)
        end
  end.

(** The state when [main] starts: [optind] is 1, the statics
    [verbose_flag] and [repetitions] are 0 and 1, the output folder is
    the current directory and [cmd_ret] is 0xFFFF. *)
Definition initial_state (args : list string) (p0 : P) (w : W) : main_state W P :=
  mkState (mkGetopt 1 EmptyString 63 args 0 p0) 1 "./" 65535 w [].

(** [main]: the exit status when it returns, and the final state. *)
Definition main (fuel : nat) (args : list string) (p0 : P) (w : W)
    : loop_end * main_state W P :=
  match option_loop fuel (initial_state args p0 w) with
  | (Done, st) => (Returned 0, print st (Text (classify (cmd_ret st))))
  | r => r
  end.

End Main.

(** ** A model of [getopt_long] *)

(** GNU [getopt_long] for the table and the option string of this
    program, after the C library's [_getopt_internal_r]: long options
    written [--name], [--name=value] or [--name value], by their exact name
    or an abbreviation of it; short options, alone or grouped in a token;
    [--] as the end of the options; and the default ordering, in which a
    token that is neither an option nor the argument of one is skipped
    during the scan and moved behind the options scanned so far (the
    environment variable [POSIXLY_CORRECT] is taken to be unset).  Each
    call resets [optarg] to the null pointer, which is the empty string
    here.  Diagnostics [getopt_long] itself writes on [stderr] are left
    out. *)
Module Getopt.

Inductive has_arg_t := no_argument | required_argument.

Record long_option := mkOption {
  name : string;
  has_arg : has_arg_t;
  flag : bool;  (* [&verbose_flag], or the null pointer *)
  val : Z
}.

(** Lines 83-122. *)
Definition long_options : list long_option :=
  [ mkOption "verbose" no_argument true 1;
    mkOption "brief" no_argument true 0;
    mkOption "factory_reset" no_argument false (chr "a");
    mkOption "platform_status" no_argument false (chr "b");
    mkOption "pek_gen" no_argument false (chr "c");
    mkOption "pek_csr" no_argument false (chr "d");
    mkOption "pdh_gen" no_argument false (chr "e");
    mkOption "pdh_cert_export" no_argument false (chr "f");
    mkOption "pek_cert_import" required_argument false (chr "g");
    mkOption "get_id" no_argument false (chr "j");
    mkOption "set_self_owned" no_argument false (chr "k");
    mkOption "set_externally_owned" required_argument false (chr "l");
    mkOption "generate_cek_ask" no_argument false (chr "m");
    mkOption "export_cert_chain" no_argument false (chr "p");
    mkOption "export_cert_chain_vcek" no_argument false (chr "q");
    mkOption "repetitions" required_argument false (chr "r");
    mkOption "sign_pek_csr" required_argument false (chr "s");
    mkOption "get_ask_ark" no_argument false (chr "n");
    mkOption "calc_measurement" required_argument false (chr "t");
    mkOption "validate_cert_chain" no_argument false (chr "u");
    mkOption "generate_launch_blob" required_argument false (chr "v");
    mkOption "package_secret" no_argument false (chr "w");
    mkOption "validate_attestation" no_argument false (chr "x");
    mkOption "validate_guest_report" no_argument false (chr "y");
    mkOption "validate_cert_chain_vcek" no_argument false (chr "z");
    mkOption "test_all" no_argument false (chr "T");
    mkOption "help" no_argument false (chr "H");
    mkOption "sys_info" no_argument false (chr "I");
    mkOption "ofolder" required_argument false (chr "O") ].

Definition optstring : string := "hio:r:".

(** What the parser keeps between calls ([struct _getopt_data]): whether
    it has been initialised, what is left of a token of short options (the
    null pointer and the end of a token are both the empty string), the
    range of indices of the non-options skipped, and its copy of
    [optopt]. *)
Record data := mkData {
  initialized : bool;
  nextchar : string;
  first_nonopt : Z;
  last_nonopt : Z;
  kept_optopt : Z
}.

(** Static storage starts zeroed. *)
Definition start : data := mkData false EmptyString 0 0 0.

Definition vars : Type := getopt_vars data.

Definition with_nextchar (d : data) (s : string) : data :=
  mkData true s (first_nonopt d) (last_nonopt d) (kept_optopt d).

Definition with_optopt (d : data) (c : Z) : data :=
  mkData true (nextchar d) (first_nonopt d) (last_nonopt d) c.

(** Whether [c] is a short option, and then whether it takes an argument. *)
Fixpoint short_lookup (c : ascii) (s : string) : option bool :=
  match s with
  | EmptyString => None
  | String x s' =>
      if Ascii.eqb x c && negb (Ascii.eqb c ":") then
        Some match s' with
             | String ":" _ => true
             | _ => false
             end
      else short_lookup c s'
  end.

(** [name] or [name=value]. *)
Fixpoint split_eq (s : string) : string * option string :=
  match s with
  | EmptyString => (EmptyString, None)
  | String c s' =>
      if Ascii.eqb c "=" then (EmptyString, Some s')
      else let '(n, v) := split_eq s' in (String c n, v)
  end.

(** Two entries that an abbreviation cannot tell apart do no harm when
    they have the same [has_arg], [flag] and [val]. *)
Definition same_action (p q : long_option) : bool :=
  match has_arg p, has_arg q with
  | no_argument, no_argument | required_argument, required_argument => true
  | _, _ => false
  end && Bool.eqb (flag p) (flag q) && (val p =? val q).

(** An exact match, else the first entry the name abbreviates, unless it
    also abbreviates an entry that acts differently. *)
Definition find_long (nm : string) : option long_option :=
  match find (fun o => String.eqb (name o) nm) long_options with
  | Some o => Some o
  | None =>
      match filter (fun o => String.prefix nm (name o)) long_options with
      | o :: others => if forallb (same_action o) others then Some o else None
      | [] => None
      end
  end.

Definition unknown : Z := chr "?".

(** A call returns: [optind], [optarg] and [optopt] are copied out of the
    parser's data.  [deliver] is the return for an option found, [reject]
    the one for an option in error, [stop] the one at the end of the
    scan, where [optind] goes back to the first non-option skipped. *)
Definition deliver (g : vars) (o : long_option) (next : Z) (arg : string)
    : Z * vars :=
  let d := with_nextchar (parser g) EmptyString in
  if flag o then
    (0, mkGetopt next arg (kept_optopt d) (argv g) (val o) d)
  else
    (val o, mkGetopt next arg (kept_optopt d) (argv g) (verbose_flag g) d).

Definition reject (g : vars) (next : Z) (opt : Z) : Z * vars :=
  (unknown,
   mkGetopt next EmptyString opt (argv g) (verbose_flag g)
     (with_optopt (with_nextchar (parser g) EmptyString) opt)).

Definition stop (g : vars) : Z * vars :=
  let d := parser g in
  let i := if first_nonopt d =? last_nonopt d then optind g
           else first_nonopt d in
  (-1, mkGetopt i EmptyString (kept_optopt d) (argv g) (verbose_flag g) d).

(** [process_long_option], on the text after [--]. *)
Definition long_scan (g : vars) (body : string) : Z * vars :=
  let '(nm, value) := split_eq body in
  let i := optind g in
  match find_long nm with
  | None => reject g (i + 1) 0
  | Some o =>
      match has_arg o, value with
      | required_argument, Some v => deliver g o (i + 1) v
      | required_argument, None =>
          match arg_at (argv g) (i + 1) with
          | Some a => deliver g o (i + 2) a
          | None => reject g (i + 1) (val o)
          end
      | no_argument, Some _ => reject g (i + 1) (val o)
      | no_argument, None => deliver g o (i + 1) EmptyString
      end
  end.

(** The next short option character [c], with [rest] after it in its
    token: [optind] moves on when the token is finished. *)
Definition short_scan (g : vars) (c : ascii) (rest : string) : Z * vars :=
  let i := optind g in
  let after := if String.eqb rest EmptyString then i + 1 else i in
  let d := with_nextchar (parser g) rest in
  match short_lookup c optstring with
  | None =>
      (unknown,
       mkGetopt after EmptyString (chr c) (argv g) (verbose_flag g)
         (with_optopt d (chr c)))
  | Some false =>
      (chr c,
       mkGetopt after EmptyString (kept_optopt d) (argv g) (verbose_flag g) d)
  | Some true =>
      if negb (String.eqb rest EmptyString) then
        (chr c,
         mkGetopt (i + 1) rest (kept_optopt d) (argv g) (verbose_flag g)
           (with_nextchar d EmptyString))
      else
        match arg_at (argv g) (i + 1) with
        | Some a =>
            (chr c,
             mkGetopt (i + 2) a (kept_optopt d) (argv g) (verbose_flag g)
               (with_nextchar d EmptyString))
        | None => reject g (i + 1) (chr c)
        end
  end.

(** [argv[optind][0] != '-' || argv[optind][1] == '\0']. *)
Definition nonoption (tok : string) : bool :=
  match tok with
  | String c (String _ _) => negb (Ascii.eqb c "-")
  | _ => true
  end.

(** The number of non-options a list of tokens starts with. *)
Fixpoint skipped (rest : list string) : nat :=
  match rest with
  | tok :: rest' => if nonoption tok then S (skipped rest') else O
  | [] => O
  end.

(** The tokens at the indices from [a] up to [b]. *)
Definition segment (args : list string) (a b : Z) : list string :=
  firstn (Z.to_nat (b - a)) (skipn (Z.to_nat a) args).

(** [exchange]: the tokens from [bottom] up to [middle] (non-options) and
    those from [middle] up to [top] (options scanned since) change places,
    each group keeping its order.  Nothing moves when a group is empty;
    the indices lie within [argv]. *)
Definition exchange (args : list string) (bottom middle top : Z)
    : list string :=
  if (0 <=? bottom) && (bottom <? middle) && (middle <? top)
     && (top <=? Z.of_nat (List.length args))
  then
    firstn (Z.to_nat bottom) args ++ segment args middle top
      ++ segment args bottom middle ++ skipn (Z.to_nat top) args
  else args.

(** The first call, or a call with [optind] at 0, initialises the data. *)
Definition enter (g : vars) : vars :=
  if (optind g =? 0) || negb (initialized (parser g)) then
    let i := if optind g =? 0 then 1 else optind g in
    mkGetopt i (optarg g) (optopt g) (argv g) (verbose_flag g)
      (mkData true EmptyString i i (kept_optopt (parser g)))
  else g.

(** Going on to the next token: the range of non-options is brought back
    to [optind] if the caller moved it, the options scanned since the last
    non-options are moved in front of them, and the non-options that come
    next are skipped. *)
Definition advance (g : vars) : vars :=
  let d := parser g in
  let i := optind g in
  let last := Z.min (last_nonopt d) i in
  let first := Z.min (first_nonopt d) i in
  let moved := negb (first =? last) && negb (last =? i) in
  let args := if moved then exchange (argv g) first last i else argv g in
  let first' :=
    if moved then first + (i - last)
    else if last =? i then first else i in
  let i' := i + Z.of_nat (skipped (skipn (Z.to_nat i) args)) in
  mkGetopt i' (optarg g) (optopt g) args (verbose_flag g)
    (mkData true EmptyString first' i' (kept_optopt d)).

(** The token [--]: it is passed like an option, and everything after it
    is a non-option. *)
Definition end_of_options (g : vars) : vars :=
  let d := parser g in
  let i := optind g + 1 in
  let first := first_nonopt d in
  let last := last_nonopt d in
  let moved := negb (first =? last) && negb (last =? i) in
  let args := if moved then exchange (argv g) first last i else argv g in
  let first' :=
    if moved then first + (i - last)
    else if first =? last then i else first in
  mkGetopt (argc g) (optarg g) (optopt g) args (verbose_flag g)
    (mkData true EmptyString first' (argc g) (kept_optopt d)).

Definition getopt_long (g : vars) : Z * vars :=
  let g0 := enter g in
  match nextchar (parser g0) with
  | String c rest => short_scan g0 c rest
  | EmptyString =>
      let g1 := advance g0 in
      match arg_at (argv g1) (optind g1) with
      | None => stop g1
      | Some tok =>
          if String.eqb tok "--" then stop (end_of_options g1)
          else
            match tok with
            | String _ (String b body) =>
                if Ascii.eqb b "-" then long_scan g1 body
                else short_scan g1 b body
            | _ => stop g1
            end
      end
  end.

(** The characters of the tokens, and one for each token. *)
Definition weight (args : list string) : nat :=
  fold_right (fun a n => (S (String.length a) + n)%nat) O args.

(** What is left of the command line for [getopt_long] to scan. *)
Definition remaining (g : vars) : nat :=
  match nextchar (parser g) with
  | EmptyString => weight (skipn (Z.to_nat (optind g)) (argv g))
  | String _ rest =>
      (S (String.length rest)
       + weight (skipn (Z.to_nat (optind g + 1)) (argv g)))%nat
  end.

(** Every call but the last consumes a character of the command line. *)
Definition fuel_for (args : list string) : nat := S (weight args).

End Getopt.

(** The program on the modelled [getopt_long]. *)
Definition sevtool {W : Type} (sev : collaborators W) (args : list string)
    (w : W) : loop_end * main_state W Getopt.data :=
  main sev Getopt.getopt_long (Getopt.fuel_for args) args Getopt.start w.

(** ** A collaborator for examples *)

(** The world is the log of the calls made; every method returns the
    status [status_of] gives for its name, and a repeatable one reports as
    its measurement the number of calls made so far. *)
Module Mock.

Definition world : Type := list string.

Definition single (status_of : string -> Z) (nm : string)
    : string -> Z -> world -> Z * world :=
  fun _ _ w => (status_of nm, w ++ [nm]).

Definition repeat (status_of : string -> Z) (nm : string)
    : string -> Z -> @repeatable world :=
  fun _ _ measurements w =>
    (status_of nm, measurements ++ [of_size (S (List.length w))], w ++ [nm]).

Definition sev (status_of : string -> Z) : collaborators world :=
  mkCollaborators world
    (single status_of "sys_info")
    (repeat status_of "factory_reset")
    (repeat status_of "platform_status")
    (repeat status_of "pek_gen")
    (repeat status_of "pek_csr")
    (repeat status_of "pdh_gen")
    (repeat status_of "pdh_cert_export")
    (fun _ _ _ _ w => (status_of "pek_cert_import", w ++ ["pek_cert_import"]))
    (repeat status_of "get_id")
    (single status_of "set_self_owned")
    (fun _ _ _ w => (status_of "set_externally_owned", w ++ ["set_externally_owned"]))
    (single status_of "generate_cek_ask")
    (single status_of "get_ask_ark")
    (single status_of "export_cert_chain")
    (single status_of "export_cert_chain_vcek")
    (fun _ _ _ _ w => (status_of "sign_pek_csr", w ++ ["sign_pek_csr"]))
    (fun _ _ _ w => (status_of "calc_measurement", w ++ ["calc_measurement"]))
    (single status_of "validate_cert_chain")
    (fun _ _ _ w => (status_of "generate_launch_blob", w ++ ["generate_launch_blob"]))
    (single status_of "package_secret")
    (single status_of "validate_attestation")
    (single status_of "validate_guest_report")
    (single status_of "validate_cert_chain_vcek")
    (single status_of "test_all")
    (fun _ w => (true, "exist", w))
    (fun _ _ => [])
    (fun _ => 0)
    32 16 16.

Definition all_succeed : string -> Z := fun _ => 0.

End Mock.

(** * Vocabulary of the properties *)

(** ** Doubles as [SpecFloat] has them *)

(** The comparison of two numbers, read off [SpecFloat.SFcompare]: a
    lexicographic comparison of (class, exponent, mantissa) keys. *)
Module FloatOrder.

Definition key (x : spec_float) : Z * Z * Z :=
  match x with
  | S754_nan => (0, 0, 0)
  | S754_zero _ => (0, 0, 0)
  | S754_infinity true => (-2, 0, 0)
  | S754_infinity false => (2, 0, 0)
  | S754_finite true m e => (-1, - e, Zneg m)
  | S754_finite false m e => (1, e, Zpos m)
  end.

Definition lex3 (a b : Z * Z * Z) : comparison :=
  match fst (fst a) ?= fst (fst b) with
  | Eq =>
      match snd (fst a) ?= snd (fst b) with
      | Eq => snd a ?= snd b
      | c => c
      end
  | c => c
  end.

Definition number (x : spec_float) : Prop := x <> S754_nan.

End FloatOrder.

(** The sign and the class of a double. *)
Module FloatSign.

(** A zero, a finite number or an infinity of sign [s]. *)
Definition signed (s : bool) (x : spec_float) : Prop :=
  match x with
  | S754_zero s' | S754_infinity s' | S754_finite s' _ _ => s' = s
  | S754_nan => False
  end.

(** A number that is not negative; both zeros count. *)
Definition nonneg (x : spec_float) : Prop :=
  match x with
  | S754_zero _ => True
  | S754_infinity s | S754_finite s _ _ => s = false
  | S754_nan => False
  end.

(** A zero or a finite number. *)
Definition finite (x : spec_float) : Prop :=
  match x with
  | S754_zero _ | S754_finite _ _ _ => True
  | _ => False
  end.

End FloatSign.

(** ** Integers in units of the least subnormal *)

Module Grid.

(** The number of binary digits of a positive integer. *)
Definition digits (n : Z) : Z := Z.succ (Z.log2 n).

(** The exponent of the unit in the last place, for a significand of 53
    bits. *)
Definition ulp_exp (n : Z) : Z := Z.max (digits n - 53) 0.

(** [n] has at most 53 significant bits. *)
Definition representable (n : Z) : Prop := n mod 2 ^ ulp_exp n = 0.

End Grid.

(** ** Values of finite doubles *)

Module Value.

(** The value of a finite double, in units of the least subnormal
    [2^-1074]. *)
Definition V (x : spec_float) : Z :=
  match x with
  | S754_finite s m e => cond_Zopp s (Zpos m * 2 ^ (e + 1074))
  | _ => 0
  end.

(** A zero or a finite number, in canonical form. *)
Definition finite_valid (x : spec_float) : Prop :=
  valid_binary x = true /\ FloatSign.finite x.

(** The double [2.0]. *)
Definition sf_two : spec_float := S754_finite false 4503599627370496 (-51).

End Value.

(** ** Shifting and rounding *)

Module Rounding.

(** The second half of [binary_round_aux]: renormalise the rounded mantissa
    and test for overflow. *)
Definition finish (s : bool) (m : Z) (e : Z) : spec_float :=
  let '(mrs, e') := shr_fexp prec emax m e loc_Exact in
  match shr_m mrs with
  | Z0 => S754_zero s
  | Zpos p => if e' <=? emax - prec then S754_finite s p e' else S754_infinity s
  | Zneg _ => S754_nan
  end.

(** [r] is a rounding of the magnitude [N] (in units of [2^-1074]) with sign
    [s]: an infinity, or one of the two neighbours of [N] on the grid of
    doubles, and [N] itself when it is representable; an infinity only
    for a magnitude of at least [2^1023]. *)
Definition rounded (s : bool) (N : Z) (r : spec_float) : Prop :=
  match r with
  | S754_infinity s' => s' = s /\ 2 ^ 2097 <= N
  | S754_finite s' m e =>
      s' = s /\ -1074 <= e /\
      N / 2 ^ Grid.ulp_exp N * 2 ^ Grid.ulp_exp N <= Zpos m * 2 ^ (e + 1074)
        <= N / 2 ^ Grid.ulp_exp N * 2 ^ Grid.ulp_exp N + 2 ^ Grid.ulp_exp N /\
      (N mod 2 ^ Grid.ulp_exp N = 0 -> Zpos m * 2 ^ (e + 1074) = N)
  | _ => False
  end.

End Rounding.

(** ** Sums of finite doubles *)

Module Sum.

(** [r] is a rounding of the signed quantity [N]. *)
Definition rounds (N : Z) (r : spec_float) : Prop :=
  match r with
  | S754_zero _ => N = 0
  | _ => (0 < N /\ Rounding.rounded false N r) \/
         (N < 0 /\ Rounding.rounded true (- N) r)
  end.

End Sum.

(** ** Samples and their statistics *)

(** A number other than the negative zero. *)
Definition ordinary (x : double) : Prop :=
  is_nan x = false /\ x <> neg_zero.

(** No element is a NaN. *)
Definition numbers (l : list double) : Prop :=
  Forall (fun x => is_nan x = false) l.

(** No element is a NaN or an infinity. *)
Definition finite_sample (v : list double) : Prop :=
  Forall (fun x => is_finite x = true) v.

(** The element at a 0-based index of the sorted copy, if there is one. *)
Definition element (sorted : list double) (i : Z) : option double :=
  if i <? 0 then None else nth_error sorted (Z.to_nat i).

(** The average of two doubles, as the source computes it. *)
Definition average (a b : double) : double := ((a + b) / 2)%float.

(** The element at index [i] for an odd size, else the average of the
    elements at [i - 1] and [i]. *)
Definition quantile (sorted : list double) (n i : Z) : option double :=
  if Z.even n then
    a <- element sorted (i - 1) ;;
    b <- element sorted i ;;
    Some (average a b)
  else element sorted i.

(** [sorted] is the sorted-ascending copy of [sample]: the same values,
    each as often, in ascending order. *)
Definition ascending_copy (sample sorted : list double) : Prop :=
  Permutation sample sorted /\ StronglySorted le sorted.

(** The reduction in the words of the specification, over unbounded
    integers, for a sample as [collected] and its sorted-[ascending] copy:
    mean and population variance (divisor [n]) of the [n] values, summed
    from left to right in the order of collection, the standard deviation
    as the square root of the variance, and over the sorted copy the order
    statistics at the indices [n/4], [n/2] and [3n/4], the minimum at
    index 0 and the maximum at index [n - 1]. *)
Definition summarize_spec (collected ascending : list double)
    : option statistics :=
  let n := Z.of_nat (List.length collected) in
  let mean := (accumulate collected 0 / of_size (List.length collected))%float in
  let variance :=
    (accumulate (map (fun x => (x - mean) * (x - mean))%float collected) 0
     / of_size (List.length collected))%float in
  q1 <- quantile ascending n (n / 4) ;;
  q3 <- quantile ascending n (3 * n / 4) ;;
  med <- quantile ascending n (n / 2) ;;
  lo <- element ascending 0 ;;
  hi <- element ascending (n - 1) ;;
  Some (mkStatistics lo q1 med q3 hi (List.length collected)
          mean (PrimFloat.sqrt variance) variance).

(** The mean the specification words: the sum of the values of the
    sorted-ascending copy, divided by their number. *)
Definition mean_of (v : list double) : double :=
  (accumulate v 0 / of_size (List.length v))%float.

(** The statistics that are read off the sorted vector. *)
Definition order_statistics (s : statistics)
    : double * double * double * double * double * nat :=
  (st_min s, st_q1 s, st_median s, st_q3 s, st_max s, st_count s).

(** The statistics that are accumulated over the sample as collected. *)
Definition moments (s : statistics) : double * double * double :=
  (st_mean s, st_variance s, st_stdev s).

(** [q] lies between [a] and [b]. *)
Definition between (a q b : double) : Prop := le a q /\ le q b.

(** min <= Q1 <= median <= Q3 <= max. *)
Definition five_number_chain (s : statistics) : Prop :=
  le (st_min s) (st_q1 s) /\ le (st_q1 s) (st_median s) /\
  le (st_median s) (st_q3 s) /\ le (st_q3 s) (st_max s).

(** ** Example commands and samples *)

(** A command that counts its calls in the world, reports one measurement
    per call and fails with status 5 on its third call. *)
Definition third_run_fails : @repeatable nat :=
  fun measurements calls =>
    (if (calls =? 2)%nat then 5 else 0,
     measurements ++ [of_size (S calls)], S calls).

Section Wrapped.

Context {W : Type}.
Variable method : W -> Z * W.

(** A command wrapped as the [pek_cert_import] lambda is: it never
    touches the vector. *)
Definition ignoring_measurements : @repeatable W :=
  fun measurements w => let '(ret, w') := method w in (ret, measurements, w').

End Wrapped.

(** The statistics of the sample {40, 10, 30, 20}. *)
Definition s4_statistics : statistics :=
  mkStatistics 10%float 15%float 25%float 35%float 40%float 4%nat
    25%float (PrimFloat.sqrt 125) 125%float.

(** ** The command line *)

(** The operations that read positional arguments: the value
    [getopt_long] returns for them, the number of arguments, and the
    diagnostic of a wrong number, as lines 297-432 have them. *)
Definition positional_operations : list (Z * nat * string) :=
  [ (chr "g", 2%nat, "Error: Expecting exactly 2 args for pek_cert_import" ++ nl);
    (chr "l", 1%nat, "Error: Expecting exactly 1 arg for set_externally_owned" ++ nl);
    (chr "s", 2%nat, "Error: Expecting exactly 2 args for pek_cert_import" ++ nl);
    (chr "t", 8%nat, "Error: Expecting exactly 8 args for calc_measurement" ++ nl);
    (chr "v", 1%nat, "Error: Expecting exactly 1 arg for generate_launch_blob" ++ nl)
  ]%string.

(** The value belongs to an operation that reads positional arguments. *)
Definition positional_code (c : Z) : bool :=
  existsb (fun e => c =? fst (fst e)) positional_operations.

(** After white space and an optional sign, the text starts with a digit. *)
Definition has_number (s : string) : bool :=
  let is_digit c := match digit_value c with Some _ => true | None => false end in
  match skip_spaces s with
  | EmptyString => false
  | String c r =>
      if Ascii.eqb c "-" || Ascii.eqb c "+" then
        match r with
        | String c' _ => is_digit c'
        | EmptyString => false
        end
      else is_digit c
  end.

(** The values [getopt_long] returns for the process-wide modifiers:
    0 for [--verbose] and [--brief] (and the [case 1] beside it), and the
    codes of the repetition count and of the output folder. *)
Definition modifier_code (c : Z) : bool :=
  (c =? 0) || (c =? 1) || (c =? chr "r") || (c =? chr "o") || (c =? chr "O").

Section Codes.

Context {W P : Type}.
Variable sev : collaborators W.
Variable getopt_long : getopt_vars P -> Z * getopt_vars P.

(** The values [getopt_long] returned, in order, until the loop ended. *)
Fixpoint codes_seen (fuel : nat) (st : main_state W P) : list Z :=
  match fuel with
  | O => []
  | S fuel' =>
      let '(c, g') := getopt_long (gv st) in
      let st1 := mkState g' (repetitions st) (output_folder st) (cmd_ret st)
                   (world st) (out st) in
      if c =? -1 then []
      else
        c :: match handle_option sev c st1 with
             | Continue st2 => codes_seen fuel' st2
             | _ => []
             end
  end.

End Codes.

(** One option of the command line: a long option without argument, or a
    long option followed by its argument as the next token. *)
Inductive item :=
| Flag (o : Getopt.long_option)
| Setting (o : Getopt.long_option) (value : string).

(** The tokens of an item on the command line. *)
Definition tokens (it : item) : list string :=
  match it with
  | Flag o => [("--" ++ Getopt.name o)%string]
  | Setting o value => [("--" ++ Getopt.name o)%string; value]
  end.

(** The option is in the table with that shape, and is not one of those
    that read the rest of the command line as positional arguments. *)
Definition well_formed (it : item) : Prop :=
  match it with
  | Flag o =>
      In o Getopt.long_options /\ Getopt.has_arg o = Getopt.no_argument
  | Setting o _ =>
      In o Getopt.long_options /\
      Getopt.has_arg o = Getopt.required_argument /\
      positional_code (Getopt.val o) = false
  end.

(** What every call of [getopt_long] in a run of the program finds:
    [optind] is not negative and, in the middle of a token of short
    options, the parser has been initialised and [optind] is not 0. *)
Definition sound (g : Getopt.vars) : Prop :=
  0 <= optind g /\
  (Getopt.nextchar (parser g) <> EmptyString ->
   Getopt.initialized (parser g) = true /\ optind g <> 0).

(** The option is in the table with that shape. *)
Definition listed (it : item) : Prop :=
  match it with
  | Flag o =>
      In o Getopt.long_options /\ Getopt.has_arg o = Getopt.no_argument
  | Setting o _ =>
      In o Getopt.long_options /\
      Getopt.has_arg o = Getopt.required_argument
  end.

(** No non-option is waiting to be moved and no token of short options
    is being scanned: the state of the parser on a command line made of
    options and their arguments only. *)
Definition settled (g : Getopt.vars) : Prop :=
  Getopt.nextchar (parser g) = EmptyString /\
  (Getopt.initialized (parser g) = false \/
   Getopt.first_nonopt (parser g) = Getopt.last_nonopt (parser g)).

(** The data of the parser after a call that met an option at index [i],
    or the end of the command line there, with no non-option skipped. *)
Definition settled_at (i : Z) : Getopt.data :=
  Getopt.mkData true EmptyString i i 0.

(** The variables as [getopt_long] has them when, settled, it has reached
    an option at [optind]: the range of non-options is empty, at
    [optind]. *)
Definition on_option (g : Getopt.vars) : Getopt.vars :=
  mkGetopt (optind g) (optarg g) (optopt g) (argv g) (verbose_flag g)
    (Getopt.mkData true EmptyString (optind g) (optind g)
       (Getopt.kept_optopt (parser g))).

(** What [getopt_long] does when it meets the item. *)
Definition scan (it : item) (g : Getopt.vars) : Z * Getopt.vars :=
  match it with
  | Flag o => Getopt.deliver (on_option g) o (optind g + 1) EmptyString
  | Setting o value => Getopt.deliver (on_option g) o (optind g + 2) value
  end.

(** The variables after the call that finds the command line at its end:
    [optarg] is null again. *)
Definition at_end (g : Getopt.vars) : Getopt.vars :=
  snd (Getopt.stop (on_option g)).

(** The state of [main] with other variables of [getopt_long]. *)
Definition with_gv {W P : Type} (st : main_state W P) (g : getopt_vars P)
    : main_state W P :=
  mkState g (repetitions st) (output_folder st) (cmd_ret st) (world st)
    (out st).

(** The items handled one after the other, from left to right, each by
    the [switch], on the state the previous one left. *)
Fixpoint run_items {W : Type} (sev : collaborators W) (items : list item)
    (st : main_state W Getopt.data) : loop_end * main_state W Getopt.data :=
  match items with
  | [] => (Done, st)
  | it :: rest =>
      let '(c, g') := scan it (gv st) in
      match handle_option sev c (with_gv st g') with
      | Continue st2 => run_items sev rest st2
      | Return code st2 => (Returned code, st2)
      | Undefined st2 => (Undefined_behaviour, st2)
      end
  end.

(** The end of [main] once the options are exhausted: the call of
    [getopt_long] that finds the end of the command line, and the line of
    the classification. *)
Definition finish {W : Type} (st : main_state W Getopt.data)
    : loop_end * main_state W Getopt.data :=
  (Returned 0,
   mkState (at_end (gv st)) (repetitions st) (output_folder st) (cmd_ret st)
     (world st) (out st ++ [Text (classify (cmd_ret st))])).


Definition repetitions_option : Getopt.long_option :=
  Getopt.mkOption "repetitions" Getopt.required_argument false (chr "r").
Definition get_ask_ark_option : Getopt.long_option :=
  Getopt.mkOption "get_ask_ark" Getopt.no_argument false (chr "n").

(** The count in force after [--repetitions value], and the warning. *)
Definition effective_count (value : string) : Z :=
  if atoi value <=? 0 then 1 else atoi value.

Definition count_warning (value : string) : list out_item :=
  if atoi value <=? 0 then
    [Text ("Error: Invalid repetitions value " ++ printf_d (atoi value)
           ++ ". Using default." ++ nl)]
  else [].

(** ** Operations, options and the status line *)

(** What the runner prints for the status a cycle ends with: nothing for
    0, else the line of lines 135-146. *)
Definition failure_line (ret : Z) : list out_item :=
  if ret =? 0 then [] else [Text (classify ret)].

(** The repeatable operations: the rows of the table whose case calls
    [perform_repetitions_and_analysis] on a method that takes the vector
    (cases 'a' to 'f' and 'j'). *)
Definition repeatable_operations {W : Type} (sev : collaborators W)
    : list (Getopt.long_option * (string -> Z -> @repeatable W)) :=
  [ (Getopt.mkOption "factory_reset" Getopt.no_argument false (chr "a"),
     factory_reset sev);
    (Getopt.mkOption "platform_status" Getopt.no_argument false (chr "b"),
     platform_status sev);
    (Getopt.mkOption "pek_gen" Getopt.no_argument false (chr "c"), pek_gen sev);
    (Getopt.mkOption "pek_csr" Getopt.no_argument false (chr "d"), pek_csr sev);
    (Getopt.mkOption "pdh_gen" Getopt.no_argument false (chr "e"), pdh_gen sev);
    (Getopt.mkOption "pdh_cert_export" Getopt.no_argument false (chr "f"),
     pdh_cert_export sev);
    (Getopt.mkOption "get_id" Getopt.no_argument false (chr "j"), get_id sev) ].

(** The double [1.0]. *)
Definition sf_one : spec_float := S754_finite false 4503599627370496 (-52).

(** The shell command of line 231 for the folder name [folder] (the
    option's argument with "/" appended). *)
Definition folder_test (folder : string) : string :=
  ("if test -d " ++ folder ++ " ; then echo " ++ dq ++ "exist" ++ dq
   ++ "; else echo " ++ dq ++ "no" ++ dq ++ "; fi")%string.

(** The two diagnostics of case 'o'. *)
Definition folder_check_failed (folder : string) : string :=
  ("Error. Output directory " ++ folder ++ " existance check failed." ++ nl)%string.

Definition folder_missing (folder : string) : string :=
  ("Error. Output directory " ++ folder ++ " does not exist. "
   ++ "Please manually create it and try again" ++ nl)%string.

(** The lines [main] ends on when it returns from inside the [switch]:
    the diagnostic of a wrong number of arguments, one of the two of the
    output folder, or that of an option that is not recognised. *)
Definition abort_line (o : out_item) : Prop :=
  (exists (c : Z) (k : nat) (msg : string),
      In (c, k, msg) positional_operations /\ o = Text msg)
  \/ (exists folder : string,
         o = Text (folder_check_failed folder) \/
         o = Text (folder_missing folder))
  \/ (exists c : Z, o = Err ("Unrecognised option: -" ++ printf_c c ++ nl)).

(** The row of [--ofolder] in the table. *)
Definition ofolder_option : Getopt.long_option :=
  Getopt.mkOption "ofolder" Getopt.required_argument false (chr "O").

(** Rows of the table of long options. *)
Definition test_all_option : Getopt.long_option :=
  Getopt.mkOption "test_all" Getopt.no_argument false (chr "T").

Definition help_option : Getopt.long_option :=
  Getopt.mkOption "help" Getopt.no_argument false (chr "H").

(** The operations without arguments that run once: the rows of the
    table whose case calls the method directly (cases 'I', 'k', 'm', 'n',
    'p', 'q', 'u', 'w', 'x', 'y' and 'z'). *)
Definition single_shot_operations {W : Type} (sev : collaborators W)
    : list (Getopt.long_option * (string -> Z -> W -> Z * W)) :=
  [ (Getopt.mkOption "sys_info" Getopt.no_argument false (chr "I"), sys_info sev);
    (Getopt.mkOption "set_self_owned" Getopt.no_argument false (chr "k"),
     set_self_owned sev);
    (Getopt.mkOption "generate_cek_ask" Getopt.no_argument false (chr "m"),
     generate_cek_ask sev);
    (Getopt.mkOption "get_ask_ark" Getopt.no_argument false (chr "n"),
     get_ask_ark sev);
    (Getopt.mkOption "export_cert_chain" Getopt.no_argument false (chr "p"),
     export_cert_chain sev);
    (Getopt.mkOption "export_cert_chain_vcek" Getopt.no_argument false (chr "q"),
     export_cert_chain_vcek sev);
    (Getopt.mkOption "validate_cert_chain" Getopt.no_argument false (chr "u"),
     validate_cert_chain sev);
    (Getopt.mkOption "package_secret" Getopt.no_argument false (chr "w"),
     package_secret sev);
    (Getopt.mkOption "validate_attestation" Getopt.no_argument false (chr "x"),
     validate_attestation sev);
    (Getopt.mkOption "validate_guest_report" Getopt.no_argument false (chr "y"),
     validate_guest_report sev);
    (Getopt.mkOption "validate_cert_chain_vcek" Getopt.no_argument false (chr "z"),
     validate_cert_chain_vcek sev) ].

(** Reading a status back from the text [%02x] printed: the value of a
    lower-case hexadecimal digit, and of the longest run of such digits a
    text starts with. *)
Definition hex_digit_value (c : ascii) : option Z :=
  let n := chr c in
  if (48 <=? n) && (n <=? 57) then Some (n - 48)
  else if (97 <=? n) && (n <=? 102) then Some (n - 87)
  else None.

Fixpoint hex_value_from (s : string) (acc : Z) : Z :=
  match s with
  | String c s' =>
      match hex_digit_value c with
      | Some d => hex_value_from s' (16 * acc + d)
      | None => acc
      end
  | EmptyString => acc
  end.

Definition hex_value (s : string) : Z := hex_value_from s 0.

(** The state a pass through the [switch] leaves. *)
Definition state_of {W P : Type} (r : step W P) : main_state W P :=
  match r with
  | Continue st | Return _ st | Undefined st => st
  end.

(** The values [getopt_long] returns for [--verbose] and [--brief], for
    the repetition count and for the help. *)
Definition silent_code (c : Z) : bool :=
  (c =? 0) || (c =? 1) || (c =? chr "r") || (c =? chr "h") || (c =? chr "H").

(** The text starts with a decimal digit. *)
Definition starts_with_digit (s : string) : bool :=
  match s with
  | String c _ => match digit_value c with Some _ => true | None => false end
  | EmptyString => false
  end.

(** * Properties *)

(** ** The repetition cycle *)

Section RunnerFacts.

Context {W : Type}.
Variable func : @repeatable W.
Variable w0 : W.

Lemma status_of_run_S (k : nat) :
  status_of_run func (S k) w0 =
  fst (fst (func (snd (fst (after_runs func k w0)))
                 (snd (after_runs func k w0)))).
Proof.
  unfold status_of_run. simpl.
  destruct (after_runs func k w0) as [[r ms] w]. reflexivity.
Qed.

(** As long as every run succeeds the loop state is [after_runs]. *)
Lemma repetition_loop_all_ok (remaining : nat) :
  forall (i : nat) (out : list out_item),
    (forall j, (i < j <= i + remaining)%nat -> status_of_run func j w0 = 0) ->
    repetition_loop func remaining
      (fst (fst (after_runs func i w0))) (snd (fst (after_runs func i w0)))
      (snd (after_runs func i w0)) out
    = (after_runs func (i + remaining) w0, out).
Proof.
  induction remaining as [|rem IH]; intros i out Hok.
  - rewrite Nat.add_0_r. simpl.
    destruct (after_runs func i w0) as [[r ms] w]. reflexivity.
  - assert (Hnext : status_of_run func (S i) w0 = 0) by (apply Hok; lia).
    simpl repetition_loop.
    specialize (IH (S i) out).
    unfold status_of_run in Hnext. simpl after_runs in IH, Hnext.
    destruct (after_runs func i w0) as [[r ms] w]. simpl fst in *. simpl snd in *.
    destruct (func ms w) as [[r' ms'] w'] eqn:Hf. simpl in Hnext. subst r'.
    simpl. replace (i + S rem)%nat with (S i + rem)%nat by lia.
    apply IH. intros j Hj. apply Hok. lia.
Qed.

(** The first failing run ends the loop in the state that run left. *)
Lemma repetition_loop_first_failure (remaining : nat) :
  forall (i k : nat) (out : list out_item),
    (i < k <= i + remaining)%nat ->
    (forall j, (i < j < k)%nat -> status_of_run func j w0 = 0) ->
    status_of_run func k w0 <> 0 ->
    repetition_loop func remaining
      (fst (fst (after_runs func i w0))) (snd (fst (after_runs func i w0)))
      (snd (after_runs func i w0)) out
    = (after_runs func k w0,
       out ++ [Text (if status_of_run func k w0 =? 65535
                     then msg_not_supported
                     else msg_unsuccessful (status_of_run func k w0))]).
Proof.
  induction remaining as [|rem IH]; intros i k out Hk Hok Hfail; [lia|].
  simpl repetition_loop.
  destruct (Nat.eq_dec k (S i)) as [->|Hne].
  - unfold status_of_run in *. simpl after_runs in *.
    destruct (after_runs func i w0) as [[r ms] w]. simpl fst in *. simpl snd in *.
    destruct (func ms w) as [[r' ms'] w'] eqn:Hf. simpl in *.
    destruct (r' =? 0) eqn:E; [apply Z.eqb_eq in E; contradiction|].
    reflexivity.
  - assert (Hnext : status_of_run func (S i) w0 = 0) by (apply Hok; lia).
    specialize (IH (S i) k out).
    unfold status_of_run in Hnext. simpl after_runs in IH, Hnext.
    destruct (after_runs func i w0) as [[r ms] w]. simpl fst in *. simpl snd in *.
    destruct (func ms w) as [[r' ms'] w'] eqn:Hf. simpl in Hnext. subst r'.
    simpl. apply IH; [lia| |assumption].
    intros j Hj. apply Hok. lia.
Qed.

End RunnerFacts.

(** C1. Runs execute one after the other, each from the world and the
    vector the previous one left.  When run [k] of [N] is the first with a
    non-zero status, the cycle ends in exactly the state that run left:
    the world after [k] runs (so runs [k+1..N] never execute), the vector
    as run [k] left it (nothing collected is dropped), and run [k]'s
    status as terminal status.  When all [N] runs return 0 the terminal
    status is 0 and all [N] runs were performed. *)
Theorem C1_repetition_cycle :
  forall (W : Type) (func : @repeatable W) (N : nat) (w : W),
    (forall k : nat,
        (1 <= k <= N)%nat ->
        (forall j, (1 <= j < k)%nat -> status_of_run func j w = 0) ->
        status_of_run func k w <> 0 ->
        fst (repetition_cycle func (Z.of_nat N) w) = after_runs func k w /\
        fst (fst (fst (repetition_cycle func (Z.of_nat N) w)))
          = status_of_run func k w)
    /\
    ((forall j, (1 <= j <= N)%nat -> status_of_run func j w = 0) ->
     fst (repetition_cycle func (Z.of_nat N) w) = after_runs func N w /\
     fst (fst (fst (repetition_cycle func (Z.of_nat N) w))) = 0).
Proof.
  intros W func N w. unfold repetition_cycle. rewrite Nat2Z.id. split.
  - intros k Hk Hok Hfail.
    pose proof (repetition_loop_first_failure func w N 0 k [] ltac:(lia)
                  ltac:(intros; apply Hok; lia) Hfail) as H.
    simpl in H. rewrite H. simpl. split; reflexivity.
  - intros Hok.
    pose proof (repetition_loop_all_ok func w N 0 [] ltac:(intros; apply Hok; lia)) as H.
    simpl in H. rewrite H. simpl. split; [reflexivity|].
    destruct N as [|N]; [reflexivity|].
    apply (Hok (S N)). lia.
Qed.

Lemma C1_repetition_cycle_witness :
  fst (repetition_cycle third_run_fails (Z.of_nat 5) O)
    = (5, [1; 2; 3]%float, 3%nat).
Proof.
  destruct (C1_repetition_cycle nat third_run_fails 5 O) as [Hfail _].
  destruct (Hfail 3%nat) as [H _].
  - lia.
  - intros j Hj. assert (j = 1 \/ j = 2)%nat as [-> | ->] by lia; reflexivity.
  - vm_compute. discriminate.
  - rewrite H. reflexivity.
Defined.

(** ** Order on doubles *)

Section FloatOrderFacts.

Import FloatOrder.

Lemma SFcompare_key (x y : spec_float) :
  number x -> number y -> SFcompare x y = Some (lex3 (key x) (key y)).
Proof.
  unfold number, lex3.
  destruct x as [sx|sx| |sx mx ex], y as [sy|sy| |sy my ey];
    try congruence; intros _ _;
    try destruct sx; try destruct sy; try reflexivity.
  - cbn [SFcompare key fst snd]. rewrite Z.compare_opp.
    change (-1 ?= -1) with Eq. cbv iota.
    rewrite (Z.compare_antisym ex ey).
    destruct (ex ?= ey); reflexivity.
Qed.

Lemma SFcompare_nan_l (y : spec_float) : SFcompare S754_nan y = None.
Proof. reflexivity. Qed.

Lemma SFcompare_nan_r (x : spec_float) : SFcompare x S754_nan = None.
Proof. destruct x as [s|s| |s m e]; reflexivity. Qed.

Lemma lex3_refl (a : Z * Z * Z) : lex3 a a = Eq.
Proof. unfold lex3. now rewrite !Z.compare_refl. Qed.

Lemma lex3_antisym (a b : Z * Z * Z) : lex3 b a = CompOpp (lex3 a b).
Proof.
  unfold lex3.
  rewrite (Z.compare_antisym (fst (fst a))), (Z.compare_antisym (snd (fst a))),
    (Z.compare_antisym (snd a)).
  destruct (fst (fst a) ?= fst (fst b)), (snd (fst a) ?= snd (fst b)),
    (snd a ?= snd b); reflexivity.
Qed.

Lemma lex3_eq (a b : Z * Z * Z) : lex3 a b = Eq -> a = b.
Proof.
  destruct a as [[a1 a2] a3], b as [[b1 b2] b3]. unfold lex3. simpl.
  destruct (Z.compare_spec a1 b1); try discriminate.
  destruct (Z.compare_spec a2 b2); try discriminate.
  destruct (Z.compare_spec a3 b3); try discriminate.
  intros _. congruence.
Qed.

(** [a <= b] and [b <= c] give [a <= c], strictly if one of them is. *)
Lemma lex3_trans (a b c : Z * Z * Z) :
  lex3 a b <> Gt -> lex3 b c <> Gt ->
  lex3 a c <> Gt /\ (lex3 a b = Lt \/ lex3 b c = Lt -> lex3 a c = Lt).
Proof.
  destruct a as [[a1 a2] a3], b as [[b1 b2] b3], c as [[c1 c2] c3].
  unfold lex3. simpl.
  destruct (Z.compare_spec a1 b1), (Z.compare_spec b1 c1),
    (Z.compare_spec a1 c1); try lia; try (intros; split; [congruence|tauto]);
    try congruence.
  destruct (Z.compare_spec a2 b2), (Z.compare_spec b2 c2),
    (Z.compare_spec a2 c2); try lia; try (intros; split; [congruence|tauto]);
    try congruence.
  destruct (Z.compare_spec a3 b3), (Z.compare_spec b3 c3),
    (Z.compare_spec a3 c3); try lia; intros; split; try congruence; try tauto;
    intros [?|?]; congruence.
Qed.

Lemma key_inj (x y : spec_float) :
  number x -> number y -> key x = key y ->
  x = y \/ (exists s t, x = S754_zero s /\ y = S754_zero t).
Proof.
  unfold number.
  destruct x as [sx|sx| |sx mx ex], y as [sy|sy| |sy my ey];
    try congruence; intros _ _;
    try destruct sx; try destruct sy; simpl; try discriminate;
    intros H; try (left; reflexivity); try (right; eauto; fail).
  - injection H as He Hm. left. f_equal; lia.
  - injection H as He Hm. left. f_equal; lia.
Qed.

End FloatOrderFacts.

Section DoubleOrder.

Import FloatOrder.

Lemma is_nan_false (x : double) :
  is_nan x = false <-> number (Prim2SF x).
Proof.
  unfold is_nan, number. rewrite eqb_spec. unfold SFeqb. split.
  - intros H E. rewrite E in H. discriminate.
  - intros H. rewrite (SFcompare_key _ _ H H), lex3_refl. reflexivity.
Qed.

Lemma leb_iff (x y : double) :
  (x <=? y)%float = true <->
  number (Prim2SF x) /\ number (Prim2SF y) /\
  lex3 (key (Prim2SF x)) (key (Prim2SF y)) <> Gt.
Proof.
  rewrite leb_spec. unfold SFleb. split.
  - intros H.
    assert (Hx : number (Prim2SF x)).
    { intros E. rewrite E, SFcompare_nan_l in H. discriminate. }
    assert (Hy : number (Prim2SF y)).
    { intros E. rewrite E, SFcompare_nan_r in H. discriminate. }
    rewrite (SFcompare_key _ _ Hx Hy) in H.
    repeat split; try assumption.
    intros E. rewrite E in H. discriminate.
  - intros (Hx & Hy & H). rewrite (SFcompare_key _ _ Hx Hy).
    destruct (lex3 _ _); congruence.
Qed.

Lemma ltb_iff (x y : double) :
  (x <? y)%float = true <->
  number (Prim2SF x) /\ number (Prim2SF y) /\
  lex3 (key (Prim2SF x)) (key (Prim2SF y)) = Lt.
Proof.
  rewrite ltb_spec. unfold SFltb. split.
  - intros H.
    assert (Hx : number (Prim2SF x)).
    { intros E. rewrite E, SFcompare_nan_l in H. discriminate. }
    assert (Hy : number (Prim2SF y)).
    { intros E. rewrite E, SFcompare_nan_r in H. discriminate. }
    rewrite (SFcompare_key _ _ Hx Hy) in H.
    repeat split; try assumption.
    destruct (lex3 _ _); congruence.
  - intros (Hx & Hy & H). rewrite (SFcompare_key _ _ Hx Hy), H. reflexivity.
Qed.

Lemma le_num_l (x y : double) : le x y -> is_nan x = false.
Proof. intros H. apply leb_iff in H. apply is_nan_false. tauto. Qed.

Lemma le_num_r (x y : double) : le x y -> is_nan y = false.
Proof. intros H. apply leb_iff in H. apply is_nan_false. tauto. Qed.

Lemma le_refl (x : double) : is_nan x = false -> le x x.
Proof.
  intros H. apply is_nan_false in H. apply leb_iff.
  rewrite lex3_refl. repeat split; congruence.
Qed.

Lemma le_trans (x y z : double) : le x y -> le y z -> le x z.
Proof.
  unfold le. rewrite !leb_iff. intros (Hx & Hy & H1) (_ & Hz & H2).
  repeat split; try assumption. now apply (lex3_trans _ _ _ H1 H2).
Qed.

(** On numbers, [!(x < y)] is [y <= x]. *)
Lemma not_lt_le (x y : double) :
  is_nan x = false -> is_nan y = false -> (x <? y)%float = false -> le y x.
Proof.
  intros Hx Hy H. apply is_nan_false in Hx, Hy. apply leb_iff.
  repeat split; try assumption. intros E.
  assert (Hlt : (x <? y)%float = true).
  { apply ltb_iff. repeat split; try assumption.
    rewrite lex3_antisym, E. reflexivity. }
  congruence.
Qed.

Lemma lt_le (x y : double) : (x <? y)%float = true -> le x y.
Proof.
  intros H. apply ltb_iff in H. apply leb_iff.
  destruct H as (Hx & Hy & H). repeat split; try assumption. congruence.
Qed.

Lemma le_not_lt (x y : double) : le x y -> (y <? x)%float = false.
Proof.
  intros H. apply leb_iff in H. destruct H as (Hx & Hy & H).
  destruct (y <? x)%float eqn:E; [|reflexivity].
  apply ltb_iff in E. destruct E as (_ & _ & E).
  rewrite lex3_antisym, E in H. simpl in H. congruence.
Qed.

Lemma ordinary_num (x : double) : ordinary x -> is_nan x = false.
Proof. now intros [H _]. Qed.

Lemma le_antisym (x y : double) :
  ordinary x -> ordinary y -> le x y -> le y x -> x = y.
Proof.
  intros [_ Hx] [_ Hy] H1 H2.
  apply leb_iff in H1, H2.
  destruct H1 as (Nx & Ny & H1), H2 as (_ & _ & H2).
  assert (E : lex3 (key (Prim2SF x)) (key (Prim2SF y)) = Eq).
  { rewrite lex3_antisym in H2.
    destruct (lex3 (key (Prim2SF x)) (key (Prim2SF y))); simpl in *; congruence. }
  apply lex3_eq in E.
  destruct (key_inj _ _ Nx Ny E) as [H | (s & t & Hs & Ht)].
  - now apply Prim2SF_inj.
  - assert (Z : forall z u, Prim2SF z = S754_zero u -> z <> neg_zero ->
                            Prim2SF z = S754_zero false).
    { intros z [|] Hz Hn; [|assumption]. exfalso. apply Hn.
      apply Prim2SF_inj. rewrite Hz. reflexivity. }
    apply Prim2SF_inj.
    rewrite (Z _ _ Hs Hx), (Z _ _ Ht Hy). reflexivity.
Qed.

End DoubleOrder.

(** ** The sort *)

Section SortFacts.

Import FloatOrder.

Lemma ltb_key (x y : double) :
  is_nan x = false -> is_nan y = false ->
  (x <? y)%float =
  match lex3 (key (Prim2SF x)) (key (Prim2SF y)) with
  | Lt => true
  | _ => false
  end.
Proof.
  intros Hx Hy. apply is_nan_false in Hx, Hy.
  rewrite ltb_spec. unfold SFltb. now rewrite (SFcompare_key _ _ Hx Hy).
Qed.

Lemma ltb_irrefl (x : double) : (x <? x)%float = false.
Proof.
  destruct (x <? x)%float eqn:E; [|reflexivity].
  apply ltb_iff in E. destruct E as (_ & _ & E).
  rewrite lex3_refl in E. discriminate.
Qed.

(** Without NaN, [<] is a strict weak ordering. *)
Lemma strict_weak_numbers (v : list double) :
  numbers v -> strict_weak_order v = true.
Proof.
  intros Hn. unfold numbers in Hn. rewrite Forall_forall in Hn.
  unfold strict_weak_order.
  apply forallb_forall. intros a Ha. rewrite ltb_irrefl. cbn [negb andb].
  apply forallb_forall. intros b Hb.
  apply forallb_forall. intros c Hc.
  pose proof (Hn a Ha) as Na. pose proof (Hn b Hb) as Nb.
  pose proof (Hn c Hc) as Nc.
  unfold equivalent.
  rewrite (ltb_key a b), (ltb_key b c), (ltb_key a c), (ltb_key b a),
    (ltb_key c b), (ltb_key c a) by assumption.
  set (ka := key (Prim2SF a)). set (kb := key (Prim2SF b)).
  set (kc := key (Prim2SF c)).
  rewrite (lex3_antisym ka kb), (lex3_antisym kb kc), (lex3_antisym ka kc).
  pose proof (lex3_trans ka kb kc) as T.
  pose proof (lex3_eq ka kb) as E1. pose proof (lex3_eq kb kc) as E2.
  destruct (lex3 ka kb) eqn:C1, (lex3 kb kc) eqn:C2;
    try (destruct (lex3 ka kc); reflexivity).
  - rewrite <- (E2 eq_refl), <- (E1 eq_refl), lex3_refl. reflexivity.
  - destruct T as [_ T]; [discriminate|discriminate|].
    rewrite T by now left. reflexivity.
Qed.

Lemma strict_weak_one (x : double) : strict_weak_order [x] = true.
Proof.
  unfold strict_weak_order, equivalent. cbn [forallb].
  rewrite ltb_irrefl. reflexivity.
Qed.

Lemma sort_numbers (v : list double) :
  numbers v -> sort v = Some (arrange v).
Proof. intros H. unfold sort. now rewrite strict_weak_numbers. Qed.

Lemma sort_arranged (v sorted : list double) :
  sort v = Some sorted -> sorted = arrange v.
Proof. unfold sort. destruct (strict_weak_order v); congruence. Qed.

Lemma insert_perm (x : double) (l : list double) :
  Permutation (insert x l) (x :: l).
Proof.
  induction l as [|y l IH]; simpl; [reflexivity|].
  destruct (y <? x)%float; [|reflexivity].
  rewrite IH. apply perm_swap.
Qed.

Lemma arrange_perm (l : list double) : Permutation (arrange l) l.
Proof.
  induction l as [|x l IH]; simpl; [reflexivity|].
  rewrite insert_perm. now constructor.
Qed.

Lemma arrange_length (l : list double) :
  List.length (arrange l) = List.length l.
Proof. apply Permutation_length, arrange_perm. Qed.

Lemma insert_sorted (x : double) (l : list double) :
  is_nan x = false -> numbers l ->
  StronglySorted le l -> StronglySorted le (insert x l).
Proof.
  intros Hx Hl Hs. induction Hs as [|y l Hs IH Hy]; simpl.
  - repeat constructor.
  - inversion Hl as [|? ? Ny Nl]; subst.
    destruct (y <? x)%float eqn:E.
    + constructor; [now apply IH|].
      eapply Permutation_Forall; [symmetry; apply insert_perm|].
      constructor; [|assumption]. now apply lt_le.
    + assert (Hxy : le x y) by now apply not_lt_le.
      constructor; [now constructor|].
      constructor; [assumption|].
      eapply Forall_impl; [|exact Hy]. intros z Hz. eapply le_trans; eassumption.
Qed.

Lemma arrange_sorted (l : list double) :
  numbers l -> StronglySorted le (arrange l).
Proof.
  induction 1 as [|x l Hx Hl IH]; simpl; [constructor|].
  apply insert_sorted; try assumption.
  eapply Permutation_Forall; [symmetry; apply arrange_perm|assumption].
Qed.

(** Two sorted arrangements of the same ordinary numbers are equal. *)
Lemma sorted_perm_eq (l1 : list double) :
  forall l2,
    Forall ordinary l1 -> StronglySorted le l1 -> StronglySorted le l2 ->
    Permutation l1 l2 -> l1 = l2.
Proof.
  induction l1 as [|x l1 IH]; intros l2 Ho S1 S2 HP.
  - apply Permutation_nil in HP. now subst.
  - destruct l2 as [|y l2].
    { symmetry in HP. apply Permutation_nil in HP. discriminate. }
    inversion S1 as [|? ? S1' F1]; subst.
    inversion S2 as [|? ? S2' F2]; subst.
    inversion Ho as [|? ? Ox Ol]; subst.
    assert (Oy : ordinary y).
    { eapply Forall_forall in Ho; [exact Ho|].
      eapply Permutation_in; [symmetry; exact HP|now left]. }
    assert (Exy : x = y).
    { assert (Hx : In x (y :: l2)) by (eapply Permutation_in; [exact HP|now left]).
      assert (Hy : In y (x :: l1))
        by (eapply Permutation_in; [symmetry; exact HP|now left]).
      destruct Hx as [->|Hx]; [reflexivity|].
      destruct Hy as [->|Hy]; [reflexivity|].
      apply le_antisym; try assumption.
      - eapply Forall_forall in F1; eassumption.
      - eapply Forall_forall in F2; eassumption. }
    subst y. f_equal.
    apply IH; try assumption. eapply Permutation_cons_inv; exact HP.
Qed.

Lemma ordinary_numbers (l : list double) : Forall ordinary l -> numbers l.
Proof. intros H. eapply Forall_impl; [|exact H]. apply ordinary_num. Qed.

(** The sorted-ascending copy of ordinary numbers is the arrangement. *)
Lemma ascending_copy_arrange (sample sorted : list double) :
  Forall ordinary sample -> ascending_copy sample sorted ->
  arrange sample = sorted.
Proof.
  intros Ho [HP HS]. apply sorted_perm_eq.
  - eapply Permutation_Forall; [symmetry; apply arrange_perm|assumption].
  - now apply arrange_sorted, ordinary_numbers.
  - assumption.
  - now rewrite arrange_perm.
Qed.

Lemma arrange_permutation_invariant (l1 l2 : list double) :
  Forall ordinary l1 -> Permutation l1 l2 -> arrange l1 = arrange l2.
Proof.
  intros Ho HP. apply ascending_copy_arrange; [assumption|]. split.
  - rewrite HP. symmetry. apply arrange_perm.
  - apply arrange_sorted, ordinary_numbers.
    eapply Permutation_Forall; eassumption.
Qed.

Lemma sort_permutation_invariant (l1 l2 : list double) :
  Forall ordinary l1 -> Permutation l1 l2 -> sort l1 = sort l2.
Proof.
  intros Ho HP.
  assert (Ho2 : Forall ordinary l2) by (eapply Permutation_Forall; eassumption).
  rewrite !sort_numbers by now apply ordinary_numbers.
  f_equal. now apply arrange_permutation_invariant.
Qed.

End SortFacts.

(** ** Order statistics of a sorted vector *)

Section SortedFacts.

Lemma sorted_nth_le (l : list double) :
  StronglySorted le l -> numbers l ->
  forall (i j : nat) (a b : double),
    (i <= j)%nat -> nth_error l i = Some a -> nth_error l j = Some b -> le a b.
Proof.
  induction 1 as [|x l Hs IH Hx]; intros Hn i j a b Hij Ha Hb.
  - destruct i; discriminate.
  - inversion Hn as [|? ? Nx Nl]; subst.
    destruct i as [|i], j as [|j]; simpl in *; try lia.
    + injection Ha as <-. injection Hb as <-. now apply le_refl.
    + injection Ha as <-. apply nth_error_In in Hb.
      eapply Forall_forall in Hx; eassumption.
    + apply (IH Nl i j a b); [lia|assumption|assumption].
Qed.

Lemma element_nth (l : list double) (i : Z) (a : double) :
  element l i = Some a -> 0 <= i /\ nth_error l (Z.to_nat i) = Some a.
Proof.
  unfold element. destruct (Z.ltb_spec i 0); [discriminate|]. now split.
Qed.

Lemma sorted_element_le (l : list double) (i j : Z) (a b : double) :
  StronglySorted le l -> numbers l -> i <= j ->
  element l i = Some a -> element l j = Some b -> le a b.
Proof.
  intros Hs Hn Hij Ha Hb.
  apply element_nth in Ha, Hb. destruct Ha as [Hi Ha], Hb as [Hj Hb].
  eapply (sorted_nth_le l Hs Hn (Z.to_nat i) (Z.to_nat j)); try eassumption. lia.
Qed.

(** In a sorted vector the first smallest element is the first one. *)
Lemma min_element_sorted (l : list double) (lo : double) :
  StronglySorted le l -> min_element l = Some lo -> element l 0 = Some lo.
Proof.
  intros Hs. destruct l as [|x l]; [discriminate|].
  inversion Hs as [|? ? _ Hx]; subst. simpl. intros H. rewrite <- H. f_equal.
  clear H Hs. induction Hx as [|y l Hy Hl IH]; [reflexivity|].
  simpl. rewrite (le_not_lt _ _ Hy). exact IH.
Qed.

(** And the last largest element is the last one. *)
Lemma max_element_sorted (l : list double) (hi : double) :
  StronglySorted le l -> max_element l = Some hi ->
  element l (Z.of_nat (List.length l) - 1) = Some hi.
Proof.
  intros Hs. destruct l as [|x l]; [discriminate|].
  simpl max_element. intros H. injection H as <-.
  unfold element.
  replace (Z.of_nat (List.length (x :: l)) - 1 <? 0) with false
    by (symmetry; apply Z.ltb_ge; simpl List.length; lia).
  replace (Z.to_nat (Z.of_nat (List.length (x :: l)) - 1))
    with (List.length l) by (simpl List.length; lia).
  revert x Hs. induction l as [|y l IH]; intros x Hs; [reflexivity|].
  inversion Hs as [|? ? Hs' Hx]; subst.
  inversion Hx as [|? ? Hy _]; subst.
  simpl. rewrite (le_not_lt _ _ Hy). apply (IH y Hs').
Qed.

Lemma min_element_first (l : list double) :
  StronglySorted le l -> min_element l = element l 0.
Proof.
  intros Hs. destruct (min_element l) as [lo|] eqn:E.
  - symmetry. now apply min_element_sorted.
  - destruct l; [reflexivity|discriminate].
Qed.

Lemma max_element_last (l : list double) :
  StronglySorted le l ->
  max_element l = element l (Z.of_nat (List.length l) - 1).
Proof.
  intros Hs. destruct (max_element l) as [hi|] eqn:E.
  - symmetry. now apply max_element_sorted.
  - destruct l; [reflexivity|discriminate].
Qed.

(** For an even size a quantile is the average of two elements. *)
Lemma quantile_even (v : list double) (n i : Z) (q : double) :
  Z.even n = true -> quantile v n i = Some q ->
  exists a b, element v (i - 1) = Some a /\ element v i = Some b /\
              q = average a b.
Proof.
  unfold quantile, bind. intros ->.
  destruct (element v (i - 1)) as [a|]; [|discriminate].
  destruct (element v i) as [b|]; [|discriminate].
  intros [= <-]. now exists a, b.
Qed.

End SortedFacts.

(** ** The reduction against its specification *)

Section ReductionFacts.

Lemma at_index_element (v : list double) (i : Z) :
  at_index v i = element v i.
Proof.
  unfold at_index, element.
  destruct (Z.ltb_spec i 0) as [Hi|Hi].
  - replace (0 <=? i) with false by (symmetry; apply Z.leb_gt; lia).
    reflexivity.
  - replace (0 <=? i) with true by (symmetry; apply Z.leb_le; lia).
    simpl. destruct (Z.ltb_spec i (Z.of_nat (List.length v))); [reflexivity|].
    symmetry. apply nth_error_None. lia.
Qed.

Lemma sum_sq_dev_accumulate (v : list double) (mean : double) :
  sum_sq_dev v mean =
  accumulate (map (fun x => (x - mean) * (x - mean))%float v) 0%float.
Proof.
  unfold sum_sq_dev, accumulate. generalize 0%float.
  induction v as [|x v IH]; intros acc; simpl; [reflexivity|]. apply IH.
Qed.

Lemma to_int_small (n : Z) : 0 <= n <= INT_MAX -> to_int n = n.
Proof.
  unfold to_int, INT_MAX. intros H.
  rewrite Z.mod_small; lia.
Qed.

Lemma even_rem (n : Z) : 0 <= n -> (Z.rem n 2 =? 0) = Z.even n.
Proof.
  intros H. rewrite Z.rem_mod_nonneg by lia.
  rewrite Zeven_mod. reflexivity.
Qed.

Lemma quartiles_quantile (sorted : list double) (n : Z) :
  0 <= n -> 3 * n <= INT_MAX ->
  quartiles sorted n =
  (q1 <- quantile sorted n (n / 4) ;;
   q3 <- quantile sorted n (3 * n / 4) ;;
   Some (q1, q3)).
Proof.
  intros Hn H3. unfold quartiles, quantile.
  rewrite even_rem by assumption.
  assert (Hr : int_result (3 * n) = Some (3 * n)).
  { unfold int_result.
    replace (- INT_MAX - 1 <=? 3 * n) with true
      by (symmetry; apply Z.leb_le; unfold INT_MAX; lia).
    replace (3 * n <=? INT_MAX) with true by (symmetry; apply Z.leb_le; lia).
    reflexivity. }
  unfold bind. rewrite Hr. cbv beta iota.
  rewrite !Z.quot_div_nonneg by lia.
  rewrite !at_index_element.
  destruct (Z.even n);
    destruct (element sorted (n / 4 - 1)), (element sorted (n / 4)),
      (element sorted (3 * n / 4 - 1)), (element sorted (3 * n / 4));
    reflexivity.
Qed.

Lemma median_quantile (sorted : list double) :
  let n := Z.of_nat (List.length sorted) in
  1 <= n <= INT_MAX -> median_of sorted = quantile sorted n (n / 2).
Proof.
  intros n Hn. unfold median_of, quantile. fold n.
  rewrite <- Zeven_mod. rewrite !at_index_element.
  destruct (Z.even n) eqn:E; [|reflexivity].
  assert (2 <= n).
  { destruct (Z.eq_dec n 1) as [H1|H1]; [rewrite H1 in E; discriminate|lia]. }
  unfold size_sub, SIZE_MOD. rewrite Z.mod_small.
  - reflexivity.
  - assert (n / 2 < 2 ^ 64); [|assert (1 <= n / 2); [|lia]].
    + apply Z.div_lt_upper_bound; unfold INT_MAX in Hn; lia.
    + apply Z.div_le_lower_bound; lia.
Qed.

(** Within the range of [int], on a sample without NaN, the code computes
    the specified reduction over the arrangement. *)
Lemma summarize_refines (sample : list double) :
  let n := Z.of_nat (List.length sample) in
  1 <= n -> 3 * n <= INT_MAX -> numbers sample ->
  summarize sample = summarize_spec sample (arrange sample).
Proof.
  intros n H1 H3 Hn. unfold summarize, summarize_spec.
  rewrite (sort_numbers _ Hn). cbn [bind].
  pose proof (arrange_sorted _ Hn) as Hs.
  rewrite (min_element_first _ Hs), (max_element_last _ Hs).
  rewrite arrange_length. fold n.
  rewrite to_int_small by (unfold INT_MAX in *; lia).
  rewrite quartiles_quantile by lia.
  pose proof (median_quantile (arrange sample)) as Hm. simpl in Hm.
  rewrite arrange_length in Hm. fold n in Hm.
  rewrite Hm by (unfold INT_MAX in *; lia).
  rewrite sum_sq_dev_accumulate. unfold bind.
  destruct (quantile (arrange sample) n (n / 4)) as [q1|]; [|reflexivity].
  destruct (quantile (arrange sample) n (3 * n / 4)) as [q3|]; reflexivity.
Qed.

End ReductionFacts.

Section ReductionDefined.

Lemma element_some (v : list double) (i : Z) :
  0 <= i < Z.of_nat (List.length v) -> exists a, element v i = Some a.
Proof.
  intros H. unfold element.
  replace (i <? 0) with false by (symmetry; apply Z.ltb_ge; lia).
  destruct (nth_error v (Z.to_nat i)) eqn:E; [eauto|].
  apply nth_error_None in E. lia.
Qed.

Lemma quantile_some (v : list double) (i : Z) :
  let n := Z.of_nat (List.length v) in
  (if Z.even n then 1 <= i else 0 <= i) -> i < n ->
  exists q, quantile v n i = Some q.
Proof.
  intros n Hlo Hhi. unfold quantile. destruct (Z.even n).
  - destruct (element_some v (i - 1)) as [a Ha]; [fold n; lia|].
    destruct (element_some v i) as [b Hb]; [fold n; lia|].
    rewrite Ha, Hb. simpl. eauto.
  - apply element_some. fold n. lia.
Qed.

(** Sizes on which every index of the reduction is inside the vector:
    the odd ones and the even ones from 4 on. *)
Lemma summarize_spec_defined (sample sorted : list double) :
  let n := Z.of_nat (List.length sample) in
  List.length sorted = List.length sample ->
  1 <= n -> n <> 2 -> exists s, summarize_spec sample sorted = Some s.
Proof.
  intros n Hl H1 H2. unfold summarize_spec. fold n.
  assert (Hlen : Z.of_nat (List.length sorted) = n)
    by (rewrite Hl; reflexivity).
  assert (Hev : Z.even n = true -> 4 <= n).
  { intros E. destruct (Z.eq_dec n 1) as [H|H]; [rewrite H in E; discriminate|].
    destruct (Z.eq_dec n 3) as [H'|H']; [rewrite H' in E; discriminate|]. lia. }
  pose proof (quantile_some sorted (n / 4)) as Q1.
  pose proof (quantile_some sorted (3 * n / 4)) as Q3.
  pose proof (quantile_some sorted (n / 2)) as Q2.
  cbv zeta in Q1, Q2, Q3. rewrite Hlen in Q1, Q2, Q3.
  assert (B1 : n / 4 < n) by (apply Z.div_lt_upper_bound; lia).
  assert (B2 : n / 2 < n) by (apply Z.div_lt_upper_bound; lia).
  assert (B3 : 3 * n / 4 < n) by (apply Z.div_lt_upper_bound; lia).
  assert (L : if Z.even n then 1 <= n / 4 /\ 1 <= n / 2 /\ 1 <= 3 * n / 4
              else 0 <= n / 4 /\ 0 <= n / 2 /\ 0 <= 3 * n / 4).
  { destruct (Z.even n).
    - specialize (Hev eq_refl).
      repeat split; apply Z.div_le_lower_bound; lia.
    - repeat split; apply Z.div_pos; lia. }
  destruct Q1 as [q1 ->]; [destruct (Z.even n); tauto|assumption|].
  destruct Q3 as [q3 ->]; [destruct (Z.even n); tauto|assumption|].
  destruct Q2 as [q2 ->]; [destruct (Z.even n); tauto|assumption|].
  destruct (element_some sorted 0) as [lo ->]; [lia|].
  destruct (element_some sorted (n - 1)) as [hi ->]; [lia|].
  simpl. eauto.
Qed.

(** For a size of two the specified indices leave the sample. *)
Lemma summarize_spec_pair (sample sorted : list double) :
  List.length sample = 2%nat -> summarize_spec sample sorted = None.
Proof. intros H. unfold summarize_spec. rewrite H. reflexivity. Qed.

End ReductionDefined.

(** C2, as stated, fails for the mean (and with it for the variance and
    the standard deviation): the code sums the values in the order of
    collection, before it sorts, and not over the sorted-ascending copy.
    For the sample {2^53, 1, 1} the program's mean is
    3002399751580330.5, whereas the sum over the sorted copy {1, 1, 2^53}
    divided by 3 is 3002399751580331.5. *)
Lemma C2_counterexample :
  ascending_copy [9007199254740992; 1; 1]%float [1; 1; 9007199254740992]%float
  /\ option_map st_mean (summarize [9007199254740992; 1; 1]%float)
     = Some 3002399751580330.5%float
  /\ mean_of [1; 1; 9007199254740992]%float = 3002399751580331.5%float
  /\ (3002399751580330.5 =? 3002399751580331.5)%float = false.
Proof.
  split; [|repeat split; reflexivity].
  split.
  - apply (Permutation_app_comm [9007199254740992]%float [1; 1]%float).
  - repeat constructor; reflexivity.
Qed.

(** C2, amended.  For a sample of [n >= 1] numbers other than the negative
    zero, with [3n] within the range of [int], and its sorted-ascending
    copy: the mean is the left-to-right double sum of the values in the
    order of collection divided by [n]; the variance is the sum of the
    squared deviations, in that order, divided by [n] (not [n - 1]), and
    the standard deviation its square root; over the sorted copy, median,
    Q1 and Q3 are the averages of the elements at indices [i - 1] and [i]
    for even [n], and the element at [i] for odd [n], with [i = n/2],
    [n/4] and [3n/4], the minimum is the element at index 0 and the
    maximum the one at [n - 1].  Where such an index is outside the sample
    neither side has a value, which happens for [n = 2] only.  A sample
    of numbers that holds both zeros has several sorted-ascending copies,
    which differ in the order of the zeros: the same holds for one of
    them.  For {10,20,30,40}: Q1 = 15, Q3 = 35, median = 25, mean = 25;
    for {1,2,3,4,5}: Q1 = 2, Q3 = 4, median = 3. *)
Theorem C2_statistics_formulas :
  (forall sample sorted : list double,
      1 <= Z.of_nat (List.length sample) ->
      3 * Z.of_nat (List.length sample) <= INT_MAX ->
      Forall ordinary sample ->
      ascending_copy sample sorted ->
      summarize sample = summarize_spec sample sorted
      /\ (Z.of_nat (List.length sample) <> 2 ->
          exists s, summarize sample = Some s)
      /\ (Z.of_nat (List.length sample) = 2 -> summarize sample = None))
  /\ (forall sample : list double,
         1 <= Z.of_nat (List.length sample) ->
         3 * Z.of_nat (List.length sample) <= INT_MAX ->
         numbers sample ->
         exists sorted : list double,
           ascending_copy sample sorted
           /\ summarize sample = summarize_spec sample sorted)
  /\ option_map (fun s => (st_q1 s, st_q3 s, st_median s, st_mean s))
       (summarize [10; 20; 30; 40]%float)
     = Some (15, 35, 25, 25)%float
  /\ option_map (fun s => (st_q1 s, st_q3 s, st_median s))
       (summarize [1; 2; 3; 4; 5]%float)
     = Some (2, 4, 3)%float.
Proof.
  split; [|split; [|split; reflexivity]].
  - intros sample sorted H1 H3 Ho Hc.
    pose proof (ascending_copy_arrange sample sorted Ho Hc) as Ha.
    pose proof (summarize_refines sample H1 H3 (ordinary_numbers _ Ho)) as Hr.
    rewrite Ha in Hr.
    assert (Hl : List.length sorted = List.length sample)
      by (rewrite <- Ha; apply arrange_length).
    split; [exact Hr|].
    split.
    + intros H2. rewrite Hr. now apply summarize_spec_defined.
    + intros H2. rewrite Hr. apply summarize_spec_pair. lia.
  - intros sample H1 H3 Hn. exists (arrange sample). split.
    + split; [symmetry; apply arrange_perm|now apply arrange_sorted].
    + now apply summarize_refines.
Qed.

Lemma C2_statistics_formulas_witness :
  summarize [40; 10; 30; 20]%float
  = summarize_spec [40; 10; 30; 20]%float [10; 20; 30; 40]%float.
Proof.
  destruct C2_statistics_formulas as [H _].
  apply (H [40; 10; 30; 20]%float [10; 20; 30; 40]%float).
  - vm_compute. discriminate.
  - vm_compute. discriminate.
  - repeat constructor; vm_compute; discriminate.
  - split.
    + symmetry. apply (arrange_perm [40; 10; 30; 20]%float).
    + repeat constructor; reflexivity.
Defined.

(** ** Degenerate samples *)

Section Degenerate.

Lemma at_index_nil (i : Z) : at_index [] i = None.
Proof.
  unfold at_index. simpl.
  destruct (0 <=? i) eqn:E1, (i <? 0) eqn:E2; try reflexivity.
  apply Z.leb_le in E1. apply Z.ltb_lt in E2. lia.
Qed.

(** Index -1 is outside every vector. *)
Lemma at_index_before (v : list double) : at_index v (Z.quot 2 4 - 1) = None.
Proof. reflexivity. Qed.

Lemma summarize_pair (a b : double) : summarize [a; b] = None.
Proof.
  unfold summarize, sort.
  destruct (strict_weak_order [a; b]); [|reflexivity].
  cbn [bind]. rewrite arrange_length. reflexivity.
Qed.

(** The statistics are computed from whatever the cycle collected. *)
Lemma perform_summarizes {W : Type} (func : @repeatable W) (N : Z) (w : W) :
  0 <= N ->
  fst (fst (perform_repetitions_and_analysis func N w)) =
  match summarize (snd (fst (fst (repetition_cycle func N w)))) with
  | Some _ => Some (fst (fst (fst (repetition_cycle func N w))))
  | None => None
  end.
Proof.
  intros H. unfold perform_repetitions_and_analysis.
  replace (N <? 0) with false by (symmetry; apply Z.ltb_ge; lia).
  destruct (repetition_cycle func N w) as [[[ret ms] w'] o]. simpl.
  destruct (summarize ms); reflexivity.
Qed.

End Degenerate.

(** ** Steps of [main] *)

Section MainFacts.

Context {W P : Type}.
Variable sev : collaborators W.

Lemma option_loop_step (getopt_long : getopt_vars P -> Z * getopt_vars P)
    (fuel : nat) (st : main_state W P) :
  option_loop sev getopt_long (S fuel) st =
  (let '(c, g') := getopt_long (gv st) in
   let st1 := mkState g' (repetitions st) (output_folder st) (cmd_ret st)
                (world st) (out st) in
   if c =? -1 then (Done, st1)
   else
     match handle_option sev c st1 with
     | Continue st2 => option_loop sev getopt_long fuel st2
     | Return code st2 => (Returned code, st2)
     | Undefined st2 => (Undefined_behaviour, st2)
     end).
Proof. reflexivity. Qed.

(** A wrong number of remaining tokens: the diagnostic and [return
    false], with nothing read and nothing run. *)
Lemma positional_mismatch (st : main_state W P) (k : nat) (msg : string)
    (body : main_state W P -> list string -> step W P) :
  argc (gv st) - (optind (gv st) - 1) <> Z.of_nat k ->
  positional st k msg body =
  Return 0 (mkState (set_optind (gv st) (optind (gv st) - 1))
              (repetitions st) (output_folder st) (cmd_ret st) (world st)
              (out st ++ [Text msg])).
Proof.
  intros H. unfold positional.
  change (argc (gv (with_optind st (optind (gv st) - 1))))
    with (argc (gv st)).
  change (optind (gv (with_optind st (optind (gv st) - 1))))
    with (optind (gv st) - 1).
  destruct (Z.eqb_spec (argc (gv st) - (optind (gv st) - 1)) (Z.of_nat k));
    [contradiction|reflexivity].
Qed.

Lemma read_args (args : list string) (k : nat) :
  forall i : Z,
    0 <= i -> i + Z.of_nat k <= Z.of_nat (List.length args) ->
    (fix read (n : nat) (i : Z) : option (list string) :=
       match n with
       | O => Some []
       | S n' =>
           a <- arg_at args i ;;
           r <- read n' (i + 1) ;;
           Some (a :: r)
       end) k i
    = Some (firstn k (skipn (Z.to_nat i) args)).
Proof.
  induction k as [|k IH]; intros i H0 Hk; [reflexivity|].
  rewrite IH by lia.
  unfold arg_at.
  replace (0 <=? i) with true by (symmetry; apply Z.leb_le; lia).
  replace (i <? Z.of_nat (List.length args)) with true
    by (symmetry; apply Z.ltb_lt; lia).
  simpl andb. cbv iota.
  destruct (nth_error args (Z.to_nat i)) as [a|] eqn:E.
  - simpl. f_equal.
    replace (Z.to_nat (i + 1)) with (S (Z.to_nat i)) by lia.
    clear - E. revert E. generalize (Z.to_nat i) as n.
    induction args as [|x args IH]; intros [|n] E; simpl in *; try discriminate.
    + injection E as ->. reflexivity.
    + now apply IH.
  - apply nth_error_None in E. lia.
Qed.

(** The right number: the tokens are read and the body runs. *)
Lemma positional_match (st : main_state W P) (k : nat) (msg : string)
    (body : main_state W P -> list string -> step W P) :
  argc (gv st) - (optind (gv st) - 1) = Z.of_nat k ->
  1 <= optind (gv st) ->
  positional st k msg body =
  body (with_optind (with_optind st (optind (gv st) - 1))
          (optind (gv st) - 1 + Z.of_nat k))
    (firstn k (skipn (Z.to_nat (optind (gv st) - 1)) (argv (gv st)))).
Proof.
  intros H H1. unfold positional.
  change (argc (gv (with_optind st (optind (gv st) - 1))))
    with (argc (gv st)).
  change (optind (gv (with_optind st (optind (gv st) - 1))))
    with (optind (gv st) - 1).
  change (argv (gv (with_optind st (optind (gv st) - 1))))
    with (argv (gv st)).
  rewrite H, Z.eqb_refl. simpl negb. cbv iota.
  rewrite read_args; [reflexivity|lia|].
  unfold argc in H. lia.
Qed.

End MainFacts.

Section NoMeasurement.

Context {W : Type}.
Variable method : W -> Z * W.

Lemma loop_keeps_vector (remaining : nat) :
  forall (ret : Z) (ms : list double) (w : W) (o : list out_item),
    snd (fst (fst (repetition_loop (ignoring_measurements method) remaining ret ms w o)))
    = ms.
Proof.
  induction remaining as [|rem IH]; intros ret ms w o; [reflexivity|].
  simpl. unfold ignoring_measurements at 1.
  destruct (method w) as [r w']. destruct (r =? 0); [apply IH|reflexivity].
Qed.

Lemma perform_without_measurements (N : Z) (w : W) :
  fst (fst (perform_repetitions_and_analysis (ignoring_measurements method) N w)) = None.
Proof.
  destruct (Z.ltb_spec N 0) as [H|H].
  - unfold perform_repetitions_and_analysis.
    replace (N <? 0) with true by (symmetry; apply Z.ltb_lt; lia). reflexivity.
  - rewrite perform_summarizes by assumption.
    unfold repetition_cycle. rewrite loop_keeps_vector. reflexivity.
Qed.

End NoMeasurement.

Section PekCertImport.

Context {W : Type}.
Variable sev : collaborators W.

Lemma handle_pek_cert_import {P : Type} (st : main_state W P) :
  handle_option sev (chr "g") st =
  positional st 2 ("Error: Expecting exactly 2 args for pek_cert_import" ++ nl)
    (fun st' args =>
       repeated st'
         (ignoring_measurements
            (pek_cert_import sev (output_folder st) (verbose_flag (gv st))
               (nth 0 args EmptyString) (nth 1 args EmptyString)))).
Proof. reflexivity. Qed.

(** With its two file names given, [--pek_cert_import] always ends in
    the reduction of an empty sample. *)
Lemma pek_cert_import_reduces_nothing {P : Type} (st : main_state W P) :
  argc (gv st) - (optind (gv st) - 1) = 2 ->
  1 <= optind (gv st) ->
  exists st', handle_option sev (chr "g") st = Undefined st'.
Proof.
  intros H H1. rewrite handle_pek_cert_import.
  rewrite (positional_match st 2) by assumption.
  unfold repeated.
  match goal with
  | |- context [perform_repetitions_and_analysis ?f ?n ?w] =>
      pose proof (perform_without_measurements
                    (pek_cert_import sev (output_folder st)
                       (verbose_flag (gv st))
                       (nth 0 (firstn 2 (skipn (Z.to_nat (optind (gv st) - 1))
                                           (argv (gv st)))) EmptyString)
                       (nth 1 (firstn 2 (skipn (Z.to_nat (optind (gv st) - 1))
                                           (argv (gv st)))) EmptyString))
                    n w) as E;
      destruct (perform_repetitions_and_analysis f n w) as [[r w'] o]
  end.
  simpl in E. subst r. eauto.
Qed.

Lemma pek_cert_import_undefined (a b : string) (w : W) :
  fst (sevtool sev ["sevtool"; "--pek_cert_import"; a; b] w)
  = Undefined_behaviour.
Proof.
  unfold sevtool, main, Getopt.fuel_for. rewrite option_loop_step.
  assert (G : Getopt.getopt_long
                (gv (initial_state ["sevtool"; "--pek_cert_import"; a; b]
                       Getopt.start w))
              = (chr "g",
                 mkGetopt 3 a 0 ["sevtool"; "--pek_cert_import"; a; b] 0
                   (settled_at 1))) by reflexivity.
  rewrite G. cbv beta iota zeta.
  change (chr "g" =? -1) with false. cbv iota.
  match goal with
  | |- context [handle_option sev (chr "g") ?st] =>
      destruct (pek_cert_import_reduces_nothing st) as [st' E];
      [reflexivity|simpl; lia|rewrite E]
  end.
  reflexivity.
Qed.

End PekCertImport.

(** C3. The statistics are computed from whatever the cycle collected,
    with no test of the sample size: when nothing was collected the
    divisor of the mean and of the variance is the size 0 (the quotient
    0/0 is not a number) and every index is outside the vector, so the
    reduction is undefined; for a sample of two values the even branch
    reads index [2/4 - 1 = -1].  The empty case is reached: the
    [pek_cert_import] lambda never touches the vector. *)
Theorem C3_reduction_is_unguarded :
  (forall (W : Type) (func : @repeatable W) (N : Z) (w : W),
      0 <= N ->
      fst (fst (perform_repetitions_and_analysis func N w)) =
      match summarize (snd (fst (fst (repetition_cycle func N w)))) with
      | Some _ => Some (fst (fst (fst (repetition_cycle func N w))))
      | None => None
      end)
  /\ of_size (List.length (@nil double)) = 0%float
  /\ is_nan (accumulate [] 0 / of_size (List.length (@nil double)))%float = true
  /\ is_nan (sum_sq_dev [] (accumulate [] 0 / of_size (List.length (@nil double)))
             / of_size (List.length (@nil double)))%float = true
  /\ (forall i : Z, at_index [] i = None)
  /\ summarize [] = None
  /\ (forall v : list double, at_index v (Z.quot 2 4 - 1) = None)
  /\ (forall a b : double, summarize [a; b] = None)
  /\ (forall (W : Type) (sev : collaborators W) (a b : string) (w : W),
         fst (sevtool sev ["sevtool"; "--pek_cert_import"; a; b] w)
         = Undefined_behaviour).
Proof.
  split. { intros. now apply perform_summarizes. }
  split. { reflexivity. }
  split. { reflexivity. }
  split. { reflexivity. }
  split. { apply at_index_nil. }
  split. { reflexivity. }
  split. { apply at_index_before. }
  split. { apply summarize_pair. }
  intros. apply pek_cert_import_undefined.
Qed.

Lemma C3_reduction_is_unguarded_witness :
  fst (fst (perform_repetitions_and_analysis
              (ignoring_measurements (fun calls : nat => (0, S calls))) 3 O))
  = None.
Proof.
  destruct C3_reduction_is_unguarded as [H _].
  rewrite (H nat _ 3 O); [reflexivity|lia].
Defined.

(** ** Order of the sample *)

(** C5, as stated, fails: the sum is accumulated in double arithmetic over
    the sample in the order of collection, before the sort.  The sample
    {2^53, 1, 1} and its rearrangement {1, 1, 2^53} have different means:
    2^53 + 1 rounds back to 2^53, whereas 1 + 1 + 2^53 is exact. *)
Lemma C5_counterexample :
  Permutation [9007199254740992; 1; 1]%float [1; 1; 9007199254740992]%float
  /\ option_map st_mean (summarize [9007199254740992; 1; 1]%float)
     = Some 3002399751580330.5%float
  /\ option_map st_mean (summarize [1; 1; 9007199254740992]%float)
     = Some 3002399751580331.5%float
  /\ (3002399751580330.5 =? 3002399751580331.5)%float = false.
Proof.
  split; [|repeat split; reflexivity].
  change [9007199254740992; 1; 1]%float
    with ([9007199254740992] ++ [1; 1])%float.
  change [1; 1; 9007199254740992]%float
    with ([1; 1] ++ [9007199254740992])%float.
  apply Permutation_app_comm.
Qed.

(** C5, amended.  For a sample of numbers other than the negative zero and
    any rearrangement of it, the reduction is defined on both or on
    neither, and min, Q1, median, Q3, max and the count are identical;
    applied again to the same sample, in the same order, every statistic
    is identical.  (Mean, variance and standard deviation depend on the
    order of collection.) *)
Theorem C5_order_statistics_permutation_invariant :
  forall xs ys : list double,
    Forall ordinary xs -> Permutation xs ys ->
    option_map order_statistics (summarize xs)
    = option_map order_statistics (summarize ys)
    /\ (xs = ys ->
        option_map moments (summarize xs) = option_map moments (summarize ys)).
Proof.
  intros xs ys Ho HP. split; [|intros ->; reflexivity].
  unfold summarize.
  rewrite (sort_permutation_invariant xs ys Ho HP).
  destruct (sort ys) as [sorted|]; [|reflexivity]. cbn [bind].
  destruct (quartiles sorted _) as [q|]; [|reflexivity].
  destruct (median_of sorted) as [m|]; [|reflexivity].
  destruct (min_element sorted) as [lo|]; [|reflexivity].
  destruct (max_element sorted) as [hi|]; reflexivity.
Qed.

Lemma C5_order_statistics_permutation_invariant_witness :
  option_map order_statistics (summarize [9007199254740992; 1; 1]%float)
  = option_map order_statistics (summarize [1; 1; 9007199254740992]%float).
Proof.
  apply C5_order_statistics_permutation_invariant.
  - repeat constructor; vm_compute; discriminate.
  - apply (Permutation_app_comm [9007199254740992]%float [1; 1]%float).
Defined.

(** ** Signs of double results *)

(** What [SpecFloat] gives for the sign and the class of a sum, a
    difference, a product and a quotient, whatever the rounding does. *)
Section FloatSignFacts.

Import FloatOrder FloatSign.

Variables prec emax : Z.

Lemma signed_number (s : bool) (x : spec_float) : signed s x -> number x.
Proof. destruct x; simpl; unfold number; congruence || tauto. Qed.

Lemma signed_nonneg (x : spec_float) : signed false x -> nonneg x.
Proof. destruct x; simpl; tauto. Qed.

Lemma nonneg_number (x : spec_float) : nonneg x -> number x.
Proof. destruct x; simpl; unfold number; congruence || tauto. Qed.

Lemma finite_number (x : spec_float) : finite x -> number x.
Proof. destruct x; simpl; unfold number; congruence || tauto. Qed.

Lemma shr_1_nonneg (r : shr_record) : 0 <= shr_m r -> 0 <= shr_m (shr_1 r).
Proof.
  destruct r as [m r s]. destruct m as [|p|p]; simpl; intros H; try lia;
    destruct p; simpl; lia.
Qed.

Lemma iter_shr_1_nonneg (p : positive) :
  forall r, 0 <= shr_m r -> 0 <= shr_m (iter_pos shr_1 p r).
Proof.
  induction p as [p IH|p IH|]; simpl; intros r H.
  - apply IH, IH, shr_1_nonneg, H.
  - apply IH, IH, H.
  - apply shr_1_nonneg, H.
Qed.

Lemma shr_fexp_nonneg (m e : Z) (l : location) :
  0 <= m -> 0 <= shr_m (fst (shr_fexp prec emax m e l)).
Proof.
  intros H. unfold shr_fexp, shr.
  assert (H0 : 0 <= shr_m (shr_record_of_loc m l))
    by (destruct l as [|[]]; exact H).
  destruct (fexp prec emax (Zdigits2 m + e) - e); simpl; try assumption.
  now apply iter_shr_1_nonneg.
Qed.

Lemma round_nearest_even_nonneg (m : Z) (l : location) :
  0 <= m -> 0 <= round_nearest_even m l.
Proof.
  intros H. destruct l as [|[]]; simpl; try lia.
  destruct (Z.even m); lia.
Qed.

(** Rounding keeps the sign and never invents a NaN. *)
Lemma binary_round_aux_signed (s : bool) (m e : Z) (l : location) :
  0 <= m -> signed s (binary_round_aux prec emax s m e l).
Proof.
  intros H. unfold binary_round_aux.
  pose proof (shr_fexp_nonneg m e l H) as H1.
  destruct (shr_fexp prec emax m e l) as [mrs' e']. simpl in H1.
  pose proof (shr_fexp_nonneg _ e' loc_Exact
                (round_nearest_even_nonneg _ (loc_of_shr_record mrs') H1)) as H2.
  destruct (shr_fexp prec emax _ e' loc_Exact) as [mrs'' e'']. simpl in H2.
  destruct (shr_m mrs'') as [|p|p]; simpl; try reflexivity; try lia.
  destruct (e'' <=? emax - prec); reflexivity.
Qed.

Lemma binary_round_signed (s : bool) (m : positive) (e : Z) :
  signed s (binary_round prec emax s m e).
Proof.
  unfold binary_round. destruct (shl_align m e _) as [mz ez].
  apply binary_round_aux_signed. lia.
Qed.

Lemma binary_normalize_number (m e : Z) (sz : bool) :
  number (binary_normalize prec emax m e sz).
Proof.
  destruct m as [|p|p]; simpl.
  - discriminate.
  - eapply signed_number, binary_round_signed.
  - eapply signed_number, binary_round_signed.
Qed.

Lemma SFadd_number (x y : spec_float) :
  number x -> finite y -> number (SFadd prec emax x y).
Proof.
  unfold number.
  destruct x as [sx|sx| |sx mx ex], y as [sy|sy| |sy my ey]; simpl;
    try tauto; try congruence; intros _ _.
  - destruct sx, sy; discriminate.
  - apply binary_normalize_number.
Qed.

Lemma SFsub_number (x y : spec_float) :
  finite x -> number y -> number (SFsub prec emax x y).
Proof.
  unfold number.
  destruct x as [sx|sx| |sx mx ex], y as [sy|sy| |sy my ey]; simpl;
    try tauto; try congruence; intros _ _.
  - destruct sx, sy; discriminate.
  - apply binary_normalize_number.
Qed.

Lemma SFmul_square (x : spec_float) :
  number x -> nonneg (SFmul prec emax x x).
Proof.
  unfold number. destruct x as [s|s| |s m e]; simpl; try tauto; intros _.
  - destruct s; reflexivity.
  - apply signed_nonneg.
    replace (xorb s s) with false by (destruct s; reflexivity).
    apply binary_round_aux_signed. lia.
Qed.

Lemma SFadd_nonneg (x y : spec_float) :
  nonneg x -> nonneg y -> nonneg (SFadd prec emax x y).
Proof.
  destruct x as [sx|sx| |sx mx ex], y as [sy|sy| |sy my ey]; simpl;
    try tauto; try congruence.
  - destruct sx, sy; tauto.
  - intros -> ->. reflexivity.
  - intros -> ->. simpl.
    destruct (shl_align mx ex (Z.min ex ey)) as [ax ?].
    destruct (shl_align my ey (Z.min ex ey)) as [ay ?]. simpl.
    apply signed_nonneg, binary_round_signed.
Qed.

Lemma div_eucl_nonneg (a : Z) (b : positive) :
  0 <= a -> 0 <= fst (Z.div_eucl a (Zpos b)).
Proof.
  intros H. pose proof (Z.div_pos a (Zpos b) H ltac:(lia)) as Hq.
  unfold Z.div in Hq. exact Hq.
Qed.

Lemma SFdiv_core_nonneg (m1 : positive) (e1 : Z) (m2 : positive) (e2 : Z) :
  0 <= fst (fst (SFdiv_core_binary prec emax (Zpos m1) e1 (Zpos m2) e2)).
Proof.
  unfold SFdiv_core_binary.
  match goal with
  | |- context [Z.div_eucl ?a (Zpos m2)] =>
      assert (Ha : 0 <= a);
      [|pose proof (div_eucl_nonneg a m2 Ha) as Hq;
        destruct (Z.div_eucl a (Zpos m2)) as [q r]; exact Hq]
  end.
  destruct (e1 - e2 - _) as [|p|p]; try lia.
  rewrite Z.shiftl_mul_pow2 by lia.
  apply Z.mul_nonneg_nonneg; [lia|]. apply Z.pow_nonneg. lia.
Qed.

(** Division by a positive finite number. *)
Lemma SFdiv_number (x : spec_float) (md : positive) (ed : Z) :
  number x -> number (SFdiv prec emax x (S754_finite false md ed)).
Proof.
  unfold number. destruct x as [s|s| |s m e]; simpl; try congruence; intros _.
  pose proof (SFdiv_core_nonneg m e md ed) as H.
  destruct (SFdiv_core_binary prec emax (Zpos m) e (Zpos md) ed) as [[q e'] l].
  eapply signed_number, binary_round_aux_signed, H.
Qed.

Lemma SFdiv_nonneg (x : spec_float) (md : positive) (ed : Z) :
  nonneg x -> nonneg (SFdiv prec emax x (S754_finite false md ed)).
Proof.
  destruct x as [s|s| |s m e]; simpl; try tauto.
  - intros ->. reflexivity.
  - intros ->. simpl.
    pose proof (SFdiv_core_nonneg m e md ed) as H.
    destruct (SFdiv_core_binary prec emax (Zpos m) e (Zpos md) ed) as [[q e'] l].
    apply signed_nonneg, binary_round_aux_signed, H.
Qed.

End FloatSignFacts.

(** ** The size as a double *)

Section OfSize.

Import FloatSign.

Lemma digits2_pos_iter_xO (p k : positive) :
  digits2_pos (Pos.iter xO p k) = (digits2_pos p + k)%positive.
Proof.
  induction k as [|k IH] using Pos.peano_ind.
  - simpl. lia.
  - rewrite Pos.iter_succ. simpl. rewrite IH. lia.
Qed.

Lemma digits2_pos_lower (p : positive) :
  2 ^ (Zpos (digits2_pos p) - 1) <= Zpos p.
Proof.
  induction p as [p IH|p IH|]; simpl digits2_pos.
  - rewrite Pos2Z.inj_succ.
    replace (Z.succ (Zpos (digits2_pos p)) - 1)
      with (Z.succ (Zpos (digits2_pos p) - 1)) by lia.
    rewrite Z.pow_succ_r by lia. lia.
  - rewrite Pos2Z.inj_succ.
    replace (Z.succ (Zpos (digits2_pos p)) - 1)
      with (Z.succ (Zpos (digits2_pos p) - 1)) by lia.
    rewrite Z.pow_succ_r by lia. lia.
  - simpl. lia.
Qed.

(** A mantissa already in canonical position is not rounded. *)
Lemma binary_round_aux_exact (s : bool) (m : positive) (e : Z) :
  fexp prec emax (Zpos (digits2_pos m) + e) = e ->
  e <= emax - prec ->
  binary_round_aux prec emax s (Zpos m) e loc_Exact = S754_finite s m e.
Proof.
  intros H He. unfold binary_round_aux, shr_fexp. cbn [Zdigits2].
  rewrite H, Z.sub_diag.
  cbn [shr shr_record_of_loc shr_m loc_of_shr_record round_nearest_even
       Zdigits2].
  rewrite H, Z.sub_diag.
  cbn [shr shr_record_of_loc shr_m].
  replace (e <=? emax - prec) with true by (symmetry; now apply Z.leb_le).
  reflexivity.
Qed.

Lemma binary_round_integer (p : positive) :
  Zpos p < 2 ^ 53 ->
  exists m e, binary_round prec emax false p 0 = S754_finite false m e.
Proof.
  intros Hp. unfold binary_round.
  assert (Hd : Zpos (digits2_pos p) <= 53).
  { pose proof (digits2_pos_lower p) as L.
    destruct (Z_le_gt_dec (Zpos (digits2_pos p)) 53) as [H|H]; [assumption|].
    assert (2 ^ 53 <= 2 ^ (Zpos (digits2_pos p) - 1))
      by (apply Z.pow_le_mono_r; lia).
    lia. }
  assert (Hf : fexp prec emax (Zpos (digits2_pos p) + 0)
               = Zpos (digits2_pos p) - 53).
  { unfold fexp, emin, prec, emax. lia. }
  rewrite Hf. unfold shl_align.
  destruct (Zpos (digits2_pos p) - 53 - 0) as [|k|k] eqn:E; try lia.
  - exists p, 0. apply binary_round_aux_exact.
    + rewrite Hf. lia.
    + unfold prec, emax. lia.
  - exists (Pos.iter xO p k), (Zpos (digits2_pos p) - 53).
    apply binary_round_aux_exact.
    + rewrite digits2_pos_iter_xO. unfold fexp, emin, prec, emax. lia.
    + unfold prec, emax. lia.
Qed.

(** The size of a non-empty vector below 2^53 converts to a positive
    finite double. *)
Lemma of_size_finite (n : nat) :
  (1 <= n)%nat -> Z.of_nat n < 2 ^ 53 ->
  exists m e, Prim2SF (of_size n) = S754_finite false m e.
Proof.
  intros H1 H2. unfold of_size.
  rewrite of_uint63_spec, Uint63.of_Z_spec.
  rewrite Z.mod_small
    by (split; [lia|]; apply Z.lt_trans with (2 ^ 53); [assumption|reflexivity]).
  destruct (Z.of_nat n) as [|p|p] eqn:E; try lia.
  simpl. now apply binary_round_integer.
Qed.

End OfSize.

(** ** The variance is not negative *)

Section Variance.

Import FloatOrder FloatSign.

Lemma is_finite_spec (x : double) :
  is_finite x = true -> finite (Prim2SF x).
Proof.
  unfold is_finite. intros H.
  apply negb_true_iff, orb_false_iff in H. destruct H as [Hn Hi].
  apply is_nan_false in Hn.
  unfold is_infinity in Hi. rewrite eqb_spec, abs_spec in Hi.
  destruct (Prim2SF x) as [s|s| |s m e]; simpl; try tauto.
  - discriminate.
  - now apply Hn.
Qed.

Lemma finite_sample_numbers (v : list double) :
  finite_sample v -> numbers v.
Proof.
  apply Forall_impl. intros x H.
  apply is_nan_false, finite_number, is_finite_spec, H.
Qed.

Lemma accumulate_number (v : list double) :
  finite_sample v ->
  forall acc, number (Prim2SF acc) -> number (Prim2SF (accumulate v acc)).
Proof.
  unfold accumulate. induction 1 as [|x v Hx Hv IH]; intros acc Ha; [exact Ha|].
  simpl. apply IH. rewrite add_spec.
  apply SFadd_number; [assumption|now apply is_finite_spec].
Qed.

Lemma sum_sq_dev_nonneg (v : list double) (mean : double) :
  finite_sample v -> number (Prim2SF mean) ->
  nonneg (Prim2SF (sum_sq_dev v mean)).
Proof.
  intros Hv Hm. unfold sum_sq_dev.
  assert (H0 : nonneg (Prim2SF 0%float)) by exact I.
  revert H0. generalize 0%float.
  induction Hv as [|x v Hx Hv IH]; intros acc Ha; [exact Ha|].
  simpl. apply IH. rewrite add_spec, mul_spec, sub_spec.
  apply SFadd_nonneg; [assumption|].
  apply SFmul_square, SFsub_number; [now apply is_finite_spec|assumption].
Qed.

Lemma nonneg_le_zero (x : double) : nonneg (Prim2SF x) -> le 0%float x.
Proof.
  intros H. unfold le. rewrite leb_spec.
  change (Prim2SF 0%float) with (S754_zero false).
  destruct (Prim2SF x) as [s|s| |s m e]; simpl in *; subst; tauto || reflexivity.
Qed.

(** The variance of a non-empty sample of finite values is a number and
    is not negative (it is infinite when the squares overflow). *)
Lemma variance_nonneg (v : list double) :
  finite_sample v -> (1 <= List.length v)%nat ->
  Z.of_nat (List.length v) < 2 ^ 53 ->
  le 0%float
    (sum_sq_dev v (accumulate v 0 / of_size (List.length v))
     / of_size (List.length v))%float.
Proof.
  intros Hv H1 H2.
  destruct (of_size_finite _ H1 H2) as (md & ed & Hd).
  apply nonneg_le_zero. rewrite div_spec, Hd.
  apply SFdiv_nonneg, sum_sq_dev_nonneg; [assumption|].
  rewrite div_spec, Hd. apply SFdiv_number.
  apply accumulate_number; [assumption|]. discriminate.
Qed.

End Variance.

Section GridFacts.

Import Grid.

Lemma digits_bounds (n : Z) : 0 < n -> 2 ^ (digits n - 1) <= n < 2 ^ digits n.
Proof.
  intros H. unfold digits.
  replace (Z.succ (Z.log2 n) - 1) with (Z.log2 n) by lia.
  apply Z.log2_spec, H.
Qed.

Lemma digits_unique (n d : Z) : 0 < d -> 2 ^ (d - 1) <= n < 2 ^ d -> digits n = d.
Proof.
  intros Hd H. unfold digits.
  rewrite (Z.log2_unique n (d - 1)); try lia.
  replace (Z.succ (d - 1)) with d by lia. exact H.
Qed.

Lemma digits_pos (n : Z) : 0 < n -> 0 < digits n.
Proof. intros H. unfold digits. pose proof (Z.log2_nonneg n). lia. Qed.

Lemma ulp_exp_nonneg (n : Z) : 0 <= ulp_exp n.
Proof. unfold ulp_exp. lia. Qed.

Lemma ulp_exp_lt_digits (n : Z) : 0 < n -> ulp_exp n <= digits n - 1.
Proof. intros H. pose proof (digits_pos n H). unfold ulp_exp. lia. Qed.

(** The multiples of the unit around [n]. *)
Lemma grid_around (n : Z) :
  0 < n ->
  let p := 2 ^ ulp_exp n in
  let g := n / p * p in
  0 < p /\ 2 ^ (digits n - 1) <= g <= n /\ n < g + p /\ g + p <= 2 ^ digits n.
Proof.
  intros Hn p g.
  assert (Hp : 0 < p) by (apply Z.pow_pos_nonneg; [lia|apply ulp_exp_nonneg]).
  pose proof (digits_bounds n Hn) as [Hlo Hhi].
  pose proof (ulp_exp_lt_digits n Hn) as Hk.
  pose proof (ulp_exp_nonneg n) as Hk0.
  pose proof (Z.div_mod n p ltac:(lia)) as Hdm.
  pose proof (Z.mod_pos_bound n p Hp) as Hm.
  assert (Hlow : exists c, 2 ^ (digits n - 1) = c * p).
  { exists (2 ^ (digits n - 1 - ulp_exp n)). unfold p.
    rewrite <- Z.pow_add_r by lia. f_equal. lia. }
  assert (Hhigh : exists c, 2 ^ digits n = c * p).
  { exists (2 ^ (digits n - ulp_exp n)). unfold p.
    rewrite <- Z.pow_add_r by lia. f_equal. lia. }
  destruct Hlow as [c1 Hc1], Hhigh as [c2 Hc2].
  assert (H1 : c1 <= n / p) by (apply Z.div_le_lower_bound; lia).
  assert (H2 : n / p < c2) by (apply Z.div_lt_upper_bound; lia).
  unfold g. repeat split; try assumption; nia.
Qed.

(** A representable number not above [n] is not above the multiple of
    the unit below [n]. *)
Lemma grid_floor (n t : Z) :
  0 < n -> representable t -> 0 <= t <= n ->
  t <= n / 2 ^ ulp_exp n * 2 ^ ulp_exp n.
Proof.
  intros Hn Ht Htn.
  destruct (grid_around n Hn) as (Hp & [Hg1 Hg2] & Hg3 & Hg4).
  set (p := 2 ^ ulp_exp n) in *. set (g := n / p * p) in *.
  destruct (Z_le_gt_dec t g) as [|Hgt]; [assumption|exfalso].
  assert (Hd : digits t = digits n).
  { apply digits_unique; [apply digits_pos, Hn|].
    pose proof (digits_bounds n Hn). lia. }
  unfold representable, ulp_exp in Ht. rewrite Hd in Ht.
  fold (ulp_exp n) in Ht. fold p in Ht.
  apply Z.mod_divide in Ht; [|lia]. destruct Ht as [j Hj].
  unfold g in *. set (q := n / p) in *.
  clearbody q p. clear Hd Hg4 Hg1.
  assert (j <= q \/ q + 1 <= j) as [H|H] by lia; nia.
Qed.

(** A representable number not below [n] is not below the multiple of
    the unit above [n], or [n] itself when it is a multiple. *)
Lemma grid_ceil (n t : Z) :
  0 < n -> representable t -> n <= t ->
  (n mod 2 ^ ulp_exp n = 0 -> n <= t) /\
  (n / 2 ^ ulp_exp n * 2 ^ ulp_exp n + 2 ^ ulp_exp n <= t \/
   n mod 2 ^ ulp_exp n = 0).
Proof.
  intros Hn Ht Htn. split; [intros _; exact Htn|].
  destruct (grid_around n Hn) as (Hp & [Hg1 Hg2] & Hg3 & Hg4).
  set (p := 2 ^ ulp_exp n) in *. set (g := n / p * p) in *.
  destruct (Z.eq_dec (n mod p) 0) as [|Hne]; [now right|left].
  destruct (Z_lt_ge_dec t (2 ^ digits n)) as [Hlt|]; [|lia].
  assert (Hd : digits t = digits n).
  { apply digits_unique; [apply digits_pos, Hn|].
    pose proof (digits_bounds n Hn). lia. }
  unfold representable, ulp_exp in Ht. rewrite Hd in Ht.
  fold (ulp_exp n) in Ht. fold p in Ht.
  apply Z.mod_divide in Ht; [|lia]. destruct Ht as [j Hj].
  assert (Hr : 0 < n mod p) by (pose proof (Z.mod_pos_bound n p Hp); lia).
  pose proof (Z.div_mod n p ltac:(lia)) as Hdm.
  unfold g in *. set (q := n / p) in *. set (r := n mod p) in *.
  clearbody q r p. clear Hd Hg4 Hg1 Hne.
  assert (j <= q \/ q + 1 <= j) as [H|H] by lia; nia.
Qed.

Lemma representable_double (t : Z) :
  0 < t -> representable t -> representable (2 * t).
Proof.
  intros Ht Hr. unfold representable in *.
  assert (Hd : digits (2 * t) = digits t + 1).
  { pose proof (digits_bounds t Ht) as [Hlo Hhi].
    pose proof (digits_pos t Ht).
    apply digits_unique; [lia|].
    replace (digits t + 1 - 1) with (Z.succ (digits t - 1)) by lia.
    rewrite Z.pow_succ_r by lia.
    replace (digits t + 1) with (Z.succ (digits t)) by lia.
    rewrite Z.pow_succ_r by lia. lia. }
  apply Z.mod_divide in Hr;
    [|apply Z.pow_nonzero; [lia|apply ulp_exp_nonneg]].
  destruct Hr as [j Hj].
  apply Z.mod_divide; [apply Z.pow_nonzero; [lia|apply ulp_exp_nonneg]|].
  unfold ulp_exp in *. rewrite Hd.
  destruct (Z_lt_ge_dec (digits t) 53) as [Hlt|Hge].
  - rewrite Z.max_r by lia. exists (2 * t). rewrite Z.pow_0_r. lia.
  - rewrite Z.max_l in Hj by lia. rewrite Z.max_l by lia.
    exists j. replace (digits t + 1 - 53) with (Z.succ (digits t - 53)) by lia.
    rewrite Z.pow_succ_r by lia. lia.
Qed.

End GridFacts.

Section ValueFacts.

Import FloatSign Grid Value.

Lemma digits2_pos_size (p : positive) : digits2_pos p = Pos.size p.
Proof. induction p as [p IH|p IH|]; simpl; congruence. Qed.

Lemma digits2_pos_digits (p : positive) :
  Zpos (digits2_pos p) = digits (Zpos p).
Proof.
  unfold digits. rewrite digits2_pos_size.
  destruct p as [p|p|]; simpl; try reflexivity; rewrite Pos2Z.inj_succ; reflexivity.
Qed.

Lemma digits_mul_pow2 (n j : Z) :
  0 < n -> 0 <= j -> digits (n * 2 ^ j) = digits n + j.
Proof.
  intros Hn Hj. unfold digits. rewrite Z.log2_mul_pow2 by lia. lia.
Qed.

(** What validity says of a finite double. *)
Lemma valid_finite (s : bool) (m : positive) (e : Z) :
  valid_binary (S754_finite s m e) = true ->
  -1074 <= e <= 971 /\ e = Z.max (digits (Zpos m) + e - 53) (-1074).
Proof.
  unfold valid_binary, bounded, canonical_mantissa, fexp, emin, prec, emax.
  rewrite digits2_pos_digits. intros H.
  apply andb_true_iff in H. destruct H as [H1 H2].
  apply Z.eqb_eq in H1. apply Z.leb_le in H2. lia.
Qed.

Lemma canonical_ulp_exp (m : positive) (e : Z) :
  -1074 <= e -> e = Z.max (digits (Zpos m) + e - 53) (-1074) ->
  ulp_exp (Zpos m * 2 ^ (e + 1074)) = e + 1074.
Proof.
  intros He Hc. unfold ulp_exp. rewrite digits_mul_pow2 by lia. lia.
Qed.

Lemma valid_representable (s : bool) (m : positive) (e : Z) :
  valid_binary (S754_finite s m e) = true ->
  representable (Zpos m * 2 ^ (e + 1074)).
Proof.
  intros H. apply valid_finite in H. destruct H as [He Hc].
  unfold representable. rewrite canonical_ulp_exp by lia.
  apply Z.mod_mul. apply Z.pow_nonzero; lia.
Qed.

Lemma pow2_pos (j : Z) : 0 <= j -> 0 < 2 ^ j.
Proof. intros H. apply Z.pow_pos_nonneg; lia. Qed.

(** Canonical mantissas and exponents compare as the values do. *)
Lemma canonical_compare (m1 m2 : positive) (e1 e2 : Z) :
  -1074 <= e1 -> -1074 <= e2 ->
  e1 = Z.max (digits (Zpos m1) + e1 - 53) (-1074) ->
  e2 = Z.max (digits (Zpos m2) + e2 - 53) (-1074) ->
  match e1 ?= e2 with
  | Lt => Lt
  | Gt => Gt
  | Eq => Pos.compare_cont Eq m1 m2
  end = (Zpos m1 * 2 ^ (e1 + 1074) ?= Zpos m2 * 2 ^ (e2 + 1074)).
Proof.
  intros H1 H2 C1 C2.
  assert (B : forall (ma mb : positive) (ea eb : Z),
             -1074 <= ea -> ea < eb ->
             ea = Z.max (digits (Zpos ma) + ea - 53) (-1074) ->
             eb = Z.max (digits (Zpos mb) + eb - 53) (-1074) ->
             Zpos ma * 2 ^ (ea + 1074) < Zpos mb * 2 ^ (eb + 1074)).
  { intros ma mb ea eb Ha Hab Ca Cb.
    pose proof (digits_bounds (Zpos ma) ltac:(lia)) as [_ Ua].
    pose proof (digits_bounds (Zpos mb) ltac:(lia)) as [Lb _].
    assert (Da : digits (Zpos ma) <= 53) by lia.
    assert (Db : digits (Zpos mb) = 53) by lia.
    rewrite Db in Lb. change (2 ^ (53 - 1)) with (2 ^ 52) in Lb.
    assert (Ua' : Zpos ma < 2 ^ 53).
    { eapply Z.lt_le_trans; [exact Ua|]. apply Z.pow_le_mono_r; lia. }
    replace (eb + 1074) with ((ea + 1074) + (eb - ea)) by lia.
    rewrite (Z.pow_add_r 2 (ea + 1074) (eb - ea)) by lia.
    pose proof (pow2_pos (ea + 1074) ltac:(lia)) as Pa.
    assert (Pb : 2 <= 2 ^ (eb - ea)).
    { change 2 with (2 ^ 1) at 1. apply Z.pow_le_mono_r; lia. }
    change (2 ^ 53) with (2 * 2 ^ 52) in Ua'.
    set (A := 2 ^ (ea + 1074)) in *. set (B := 2 ^ (eb - ea)) in *.
    set (X := 2 ^ 52) in *. clearbody A B X.
    assert (S1 : Zpos ma * A < 2 * X * A) by nia.
    assert (S2 : 2 * X <= Zpos mb * B) by nia.
    assert (S3 : 2 * X * A <= Zpos mb * B * A) by nia.
    lia. }
  destruct (Z.compare_spec e1 e2) as [->|Hlt|Hgt].
  - change (Pos.compare_cont Eq m1 m2) with (Zpos m1 ?= Zpos m2).
    pose proof (pow2_pos (e2 + 1074) ltac:(lia)) as Pp.
    symmetry. destruct (Z.compare_spec (Zpos m1) (Zpos m2)) as [E|L|G].
    + rewrite E. apply Z.compare_refl.
    + apply Z.compare_lt_iff. nia.
    + apply Z.compare_gt_iff. nia.
  - symmetry. apply Z.compare_lt_iff. now apply B.
  - symmetry. apply Z.compare_gt_iff. now apply B.
Qed.

(** On finite doubles the comparison is that of the values. *)
Lemma SFcompare_value (x y : spec_float) :
  finite_valid x -> finite_valid y ->
  SFcompare x y = Some (V x ?= V y).
Proof.
  intros [Vx Fx] [Vy Fy].
  destruct x as [sx|sx| |sx mx ex], y as [sy|sy| |sy my ey]; try contradiction;
    try reflexivity.
  - apply valid_finite in Vy. pose proof (pow2_pos (ey + 1074) ltac:(lia)).
    unfold SFcompare.
    destruct sy; cbn [V cond_Zopp]; f_equal; symmetry.
    + apply Z.compare_gt_iff. nia.
    + apply Z.compare_lt_iff. nia.
  - apply valid_finite in Vx. pose proof (pow2_pos (ex + 1074) ltac:(lia)).
    unfold SFcompare.
    destruct sx; cbn [V cond_Zopp]; f_equal; symmetry.
    + apply Z.compare_lt_iff. nia.
    + apply Z.compare_gt_iff. nia.
  - apply valid_finite in Vx, Vy.
    destruct Vx as [Hx Cx], Vy as [Hy Cy].
    pose proof (pow2_pos (ex + 1074) ltac:(lia)).
    pose proof (pow2_pos (ey + 1074) ltac:(lia)).
    unfold SFcompare. f_equal.
    destruct sx, sy; cbn [V cond_Zopp].
    + rewrite Z.compare_opp.
      rewrite <- (canonical_compare my mx ey ex) by lia.
      rewrite (Z.compare_antisym ey ex).
      destruct (ey ?= ex); simpl; try reflexivity.
      rewrite Pos.compare_cont_antisym. reflexivity.
    + symmetry. apply Z.compare_lt_iff. nia.
    + symmetry. apply Z.compare_gt_iff. nia.
    + now apply canonical_compare; lia.
Qed.

End ValueFacts.

Section ShiftFacts.

Import FloatSign Grid Value Rounding.

Lemma iter_pos_nat {A : Type} (f : A -> A) (p : positive) (x : A) :
  iter_pos f p x = Nat.iter (Pos.to_nat p) f x.
Proof.
  revert x. induction p as [p IH|p IH|]; intros x; cbn [iter_pos].
  - rewrite !IH, Pos2Nat.inj_xI, <- Nat.iter_succ_r, <- Nat.iter_add.
    f_equal. lia.
  - rewrite !IH, Pos2Nat.inj_xO, <- Nat.iter_add. f_equal. lia.
  - reflexivity.
Qed.

Lemma shr_1_spec (r : shr_record) :
  0 <= shr_m r ->
  shr_m (shr_1 r) = shr_m r / 2 /\
  shr_r (shr_1 r) = Z.odd (shr_m r) /\
  shr_s (shr_1 r) = shr_r r || shr_s r.
Proof.
  destruct r as [m r s]. cbn [shr_m shr_r shr_s]. intros H.
  destruct m as [|[p|p|]|p]; try lia; unfold shr_1; cbn [shr_m shr_r shr_s];
    (split; [|split; reflexivity]).
  - reflexivity.
  - apply Z.div_unique with 1; lia.
  - apply Z.div_unique with 0; lia.
  - reflexivity.
Qed.

Lemma shr_iter_nonneg (k : nat) (r : shr_record) :
  0 <= shr_m r -> 0 <= shr_m (Nat.iter k shr_1 r).
Proof.
  intros H. induction k as [|k IH]; [exact H|].
  rewrite Nat.iter_succ.
  destruct (shr_1_spec (Nat.iter k shr_1 r) IH) as [E _].
  rewrite E. apply Z.div_pos; lia.
Qed.

Lemma shr_iter_spec (k : nat) (r : shr_record) :
  0 <= shr_m r ->
  shr_m (Nat.iter k shr_1 r) = shr_m r / 2 ^ Z.of_nat k.
Proof.
  intros H. induction k as [|k IH].
  - cbn [Nat.iter]. change (2 ^ Z.of_nat 0) with 1. now rewrite Z.div_1_r.
  - rewrite Nat.iter_succ.
    destruct (shr_1_spec (Nat.iter k shr_1 r) (shr_iter_nonneg k r H)) as [E _].
    pose proof (pow2_pos (Z.of_nat k) ltac:(lia)) as P.
    rewrite E, IH, Nat2Z.inj_succ, Z.pow_succ_r by lia.
    rewrite Z.div_div by lia. f_equal. lia.
Qed.

Lemma shr_iter_exact (k : nat) (r : shr_record) :
  0 <= shr_m r -> shr_r r = false -> shr_s r = false ->
  shr_m r mod 2 ^ Z.of_nat k = 0 ->
  shr_r (Nat.iter k shr_1 r) = false /\ shr_s (Nat.iter k shr_1 r) = false.
Proof.
  intros H Hr Hs. induction k as [|k IH]; intros Hm.
  - now split.
  - pose proof (pow2_pos (Z.of_nat k) ltac:(lia)) as P.
    rewrite Nat2Z.inj_succ, Z.pow_succ_r in Hm by lia.
    apply Z.div_exact in Hm; [|lia].
    set (q := shr_m r / (2 * 2 ^ Z.of_nat k)) in Hm.
    assert (Hq : shr_m r = 2 * q * 2 ^ Z.of_nat k) by lia.
    destruct IH as [IHr IHs].
    { rewrite Hq. apply Z.mod_mul. lia. }
    rewrite Nat.iter_succ.
    destruct (shr_1_spec (Nat.iter k shr_1 r) (shr_iter_nonneg k r H))
      as (_ & Er & Es).
    rewrite Er, Es, IHr, IHs, shr_iter_spec, Hq, Z.div_mul by lia.
    rewrite Z.odd_mul. now split.
Qed.

Lemma round_nearest_even_bounds (m : Z) (l : location) :
  m <= round_nearest_even m l <= m + 1.
Proof.
  unfold round_nearest_even.
  destruct l as [|[| |]]; try destruct (Z.even m); lia.
Qed.

Lemma binary_round_aux_finish (s : bool) (m e : Z) (l : location) :
  binary_round_aux prec emax s m e l =
  finish s (round_nearest_even (shr_m (fst (shr_fexp prec emax m e l)))
              (loc_of_shr_record (fst (shr_fexp prec emax m e l))))
    (snd (shr_fexp prec emax m e l)).
Proof.
  unfold binary_round_aux, finish.
  destruct (shr_fexp prec emax m e l) as [mrs e']. reflexivity.
Qed.

(** The first shift of an exactly known mantissa. *)
Lemma shr_fexp_exact (m : positive) (e : Z) :
  e <= Z.max (digits (Zpos m) + e - 53) (-1074) ->
  let e1 := Z.max (digits (Zpos m) + e - 53) (-1074) in
  let r := shr_fexp prec emax (Zpos m) e loc_Exact in
  snd r = e1 /\
  shr_m (fst r) = Zpos m / 2 ^ (e1 - e) /\
  (Zpos m mod 2 ^ (e1 - e) = 0 -> loc_of_shr_record (fst r) = loc_Exact).
Proof.
  intros He e1 r. subst r.
  unfold shr_fexp, Zdigits2. rewrite digits2_pos_digits.
  replace (fexp prec emax (digits (Zpos m) + e)) with e1
    by (unfold fexp, emin, prec, emax; subst e1; lia).
  cbn [shr_record_of_loc]. unfold shr.
  destruct (e1 - e) as [|k|k] eqn:Ek; try lia.
  - cbn [fst snd shr_m]. split; [lia|]. split.
    + change (2 ^ 0) with 1. now rewrite Z.div_1_r.
    + reflexivity.
  - cbn [fst snd]. rewrite iter_pos_nat. split; [lia|]. split.
    + rewrite shr_iter_spec by (cbn [shr_m]; lia).
      now rewrite positive_nat_Z.
    + intros Hm.
      destruct (shr_iter_exact (Pos.to_nat k)
                  {| shr_m := Zpos m; shr_r := false; shr_s := false |})
        as [Er Es]; try reflexivity.
      { cbn [shr_m]. lia. }
      { now rewrite positive_nat_Z. }
      destruct (Nat.iter _ _ _) as [m' r' s']. cbn [shr_r shr_s] in Er, Es.
      now subst.
Qed.

Lemma finish_canonical (s : bool) (p : positive) (e : Z) :
  e = Z.max (digits (Zpos p) + e - 53) (-1074) ->
  finish s (Zpos p) e =
  if e <=? 971 then S754_finite s p e else S754_infinity s.
Proof.
  intros He. unfold finish, shr_fexp, Zdigits2. rewrite digits2_pos_digits.
  replace (fexp prec emax (digits (Zpos p) + e) - e) with 0
    by (unfold fexp, emin, prec, emax; lia).
  reflexivity.
Qed.

Lemma finish_carry (s : bool) (e : Z) :
  -1074 <= e ->
  finish s (2 ^ 53) e =
  if e + 1 <=? 971 then S754_finite s 4503599627370496 (e + 1)
  else S754_infinity s.
Proof.
  intros He. unfold finish, shr_fexp.
  change (Zdigits2 (2 ^ 53)) with 54.
  replace (fexp prec emax (54 + e) - e) with 1
    by (unfold fexp, emin, prec, emax; lia).
  reflexivity.
Qed.

End ShiftFacts.

Section RoundFacts.

Import FloatSign Grid Value Rounding.

Lemma div_pow2_bounds (m d k : Z) :
  0 <= k -> k < d -> 2 ^ (d - 1) <= m < 2 ^ d ->
  2 ^ (d - k - 1) <= m / 2 ^ k < 2 ^ (d - k).
Proof.
  intros Hk Hd [L U].
  pose proof (pow2_pos k Hk) as P.
  split.
  - apply Z.div_le_lower_bound; [assumption|].
    rewrite <- Z.pow_add_r by lia.
    now replace (k + (d - k - 1)) with (d - 1) by lia.
  - apply Z.div_lt_upper_bound; [assumption|].
    rewrite <- Z.pow_add_r by lia.
    now replace (k + (d - k)) with d by lia.
Qed.

(** Rounding an exactly known magnitude [m * 2^e]. *)
Lemma binary_round_aux_rounded (s : bool) (m : positive) (e : Z) :
  -1074 <= e -> e <= Z.max (digits (Zpos m) + e - 53) (-1074) ->
  rounded s (Zpos m * 2 ^ (e + 1074))
    (binary_round_aux prec emax s (Zpos m) e loc_Exact).
Proof.
  intros He Hle.
  set (d := digits (Zpos m)) in *.
  set (e1 := Z.max (d + e - 53) (-1074)) in *.
  set (k := e1 - e).
  set (N := Zpos m * 2 ^ (e + 1074)).
  assert (Hk : 0 <= k) by (subst k; lia).
  pose proof (digits_bounds (Zpos m) ltac:(lia)) as Hd. fold d in Hd.
  assert (Hd1 : 1 <= d) by (pose proof (digits_pos (Zpos m)); subst d; lia).
  assert (Hkd : k < d) by (subst k e1; lia).
  pose proof (pow2_pos k Hk) as Pk.
  pose proof (pow2_pos (e + 1074) ltac:(lia)) as Pe.
  assert (HK : ulp_exp N = e1 + 1074).
  { unfold ulp_exp, N. rewrite digits_mul_pow2 by lia. fold d. subst e1. lia. }
  assert (Hp : 2 ^ (e1 + 1074) = 2 ^ k * 2 ^ (e + 1074)).
  { rewrite <- Z.pow_add_r by lia. f_equal. subst k. lia. }
  assert (Hdiv : N / 2 ^ (e1 + 1074) = Zpos m / 2 ^ k).
  { rewrite Hp. unfold N. apply Z.div_mul_cancel_r; lia. }
  assert (Hmod : N mod 2 ^ (e1 + 1074) = Zpos m mod 2 ^ k * 2 ^ (e + 1074)).
  { rewrite Hp. unfold N. apply Z.mul_mod_distr_r; lia. }
  rewrite binary_round_aux_finish.
  destruct (shr_fexp_exact m e Hle) as (E1 & E2 & E3).
  fold d e1 k in E1, E2, E3. rewrite E1, E2.
  set (m1 := Zpos m / 2 ^ k) in *.
  pose proof (div_pow2_bounds (Zpos m) d k Hk Hkd Hd) as B1. fold m1 in B1.
  assert (P1 : 0 < 2 ^ (d - k - 1)) by (apply pow2_pos; lia).
  set (l := loc_of_shr_record _) in *.
  pose proof (round_nearest_even_bounds m1 l) as B2.
  set (m2 := round_nearest_even m1 l) in *.
  assert (Hex : Zpos m mod 2 ^ k = 0 -> m2 = m1).
  { intros Hm. subst m2. rewrite (E3 Hm). reflexivity. }
  assert (Hcan : e1 = Z.max (d - k + e1 - 53) (-1074)) by (subst k e1; lia).
  unfold rounded. rewrite HK, Hdiv. fold m1.
  set (p := 2 ^ (e1 + 1074)) in *.
  assert (Pp : 0 < p) by (apply pow2_pos; lia).
  assert (Hexact : N mod p = 0 -> m2 = m1 /\ N = m1 * p).
  { intros H0. split.
    - apply Hex. rewrite Hmod in H0. nia.
    - apply Z.div_exact in H0; [|lia]. rewrite Hdiv in H0. fold m1 in H0. lia. }
  assert (Hov : 971 <= e1 -> 2 ^ 2097 <= N).
  { intros H971.
    assert (Hd53 : d - k = 53) by (subst k e1; lia).
    rewrite Hd53 in B1. change (2 ^ (53 - 1)) with (2 ^ 52) in B1.
    assert (Hp2 : 2 ^ 2045 <= p) by (apply Z.pow_le_mono_r; lia).
    pose proof (Z.mul_div_le N p Pp) as Hg. rewrite Hdiv in Hg. fold m1 in Hg.
    change (2 ^ 2097) with (2 ^ 52 * 2 ^ 2045).
    assert (0 < 2 ^ 52) by reflexivity.
    assert (0 < 2 ^ 2045) by reflexivity.
    clear - Hg Hp2 B1 H H0.
    set (X := 2 ^ 52) in *. set (Y := 2 ^ 2045) in *. clearbody X Y. nia. }
  destruct (Z_lt_ge_dec m2 (2 ^ (d - k))) as [Hlt|Hge].
  - destruct m2 as [|p2|p2] eqn:Em2; try lia.
    rewrite finish_canonical.
    2:{ rewrite (digits_unique (Zpos p2) (d - k)); [exact Hcan|lia|].
        replace (d - k - 1) with (d - k - 1) in B1 by lia. lia. }
    destruct (Z.leb_spec e1 971) as [L971|L971].
    + split; [reflexivity|]. split; [subst e1; lia|].
      fold p. split; [nia|].
      intros H0. destruct (Hexact H0) as [Ha Hb]. rewrite Ha, Hb. reflexivity.
    + split; [reflexivity|apply Hov; lia].
  - assert (Hm2 : m2 = m1 + 1) by lia.
    assert (Hk0 : 0 < k).
    { destruct (Z.eq_dec k 0) as [K0|K0]; [|lia].
      exfalso. rewrite K0 in Hex. change (2 ^ 0) with 1 in Hex.
      rewrite Z.mod_1_r in Hex. specialize (Hex eq_refl). lia. }
    assert (Hd53 : d - k = 53) by (subst k e1; lia).
    rewrite Hd53 in *.
    assert (E53 : m2 = 2 ^ 53) by lia.
    rewrite E53, finish_carry by (subst e1; lia).
    destruct (Z.leb_spec (e1 + 1) 971) as [L971|L971].
    2:{ split; [reflexivity|apply Hov; lia]. }
    + split; [reflexivity|]. split; [subst e1; lia|].
      replace (e1 + 1 + 1074) with (1 + (e1 + 1074)) by lia.
      rewrite Z.pow_add_r by lia. fold p.
      change (2 ^ 1) with 2. change (2 ^ 53) with 9007199254740992 in *.
      split; [nia|].
      intros H0. destruct (Hexact H0) as [Ha Hb]. lia.
Qed.

(** Rounding any mantissa and exponent not below the least one. *)
Lemma binary_round_rounded (s : bool) (m : positive) (e : Z) :
  -1074 <= e ->
  rounded s (Zpos m * 2 ^ (e + 1074)) (binary_round prec emax s m e).
Proof.
  intros He. unfold binary_round, shl_align.
  rewrite digits2_pos_digits.
  replace (fexp prec emax (digits (Zpos m) + e))
    with (Z.max (digits (Zpos m) + e - 53) (-1074))
    by (unfold fexp, emin, prec, emax; lia).
  set (e1 := Z.max (digits (Zpos m) + e - 53) (-1074)).
  destruct (e1 - e) as [|j|j] eqn:Ej.
  - apply binary_round_aux_rounded; [lia|fold e1; lia].
  - apply binary_round_aux_rounded; [lia|fold e1; lia].
  - assert (Hv : Zpos (Pos.iter xO m j) = Zpos m * 2 ^ Zpos j).
    { clear. induction j as [|j IH] using Pos.peano_ind.
      - cbn [Pos.iter]. change (2 ^ 1) with 2. lia.
      - rewrite Pos.iter_succ, Pos2Z.inj_xO, IH, Pos2Z.inj_succ, Z.pow_succ_r
          by lia. lia. }
    replace (Zpos m * 2 ^ (e + 1074))
      with (Zpos (Pos.iter xO m j) * 2 ^ (e1 + 1074)).
    2:{ rewrite Hv, <- Z.mul_assoc, <- Z.pow_add_r by lia. do 2 f_equal. lia. }
    apply binary_round_aux_rounded; [subst e1; lia|].
    assert (Hdg : digits (Zpos (Pos.iter xO m j)) = digits (Zpos m) + Zpos j).
    { rewrite Hv. apply digits_mul_pow2; lia. }
    rewrite Hdg. subst e1. lia.
Qed.

End RoundFacts.

Section SumFacts.

Import FloatSign Grid Value Rounding Sum.

Lemma valid_rounded (s : bool) (m : positive) (e : Z) :
  valid_binary (S754_finite s m e) = true ->
  rounded s (Zpos m * 2 ^ (e + 1074)) (S754_finite s m e).
Proof.
  intros H. apply valid_finite in H. destruct H as [He Hc].
  pose proof (pow2_pos (e + 1074) ltac:(lia)) as P.
  unfold rounded. rewrite canonical_ulp_exp by lia.
  rewrite Z.div_mul by lia.
  split; [reflexivity|]. split; [lia|]. split; [lia|reflexivity].
Qed.

Lemma valid_rounds (x : spec_float) :
  finite_valid x -> rounds (V x) x.
Proof.
  intros [Vx Fx]. destruct x as [s|s| |s m e]; try contradiction.
  - reflexivity.
  - pose proof (valid_rounded s m e Vx) as R.
    apply valid_finite in Vx.
    pose proof (pow2_pos (e + 1074) ltac:(lia)) as P.
    unfold rounds. cbn [V].
    destruct s; cbn [cond_Zopp].
    + right. split; [nia|]. now rewrite Z.opp_involutive.
    + left. split; [nia|assumption].
Qed.

Lemma shl_align_value (m : positive) (e e' : Z) :
  -1074 <= e' -> e' <= e ->
  Zpos (fst (shl_align m e e')) * 2 ^ (e' + 1074) = Zpos m * 2 ^ (e + 1074).
Proof.
  intros H1 H2. unfold shl_align.
  destruct (e' - e) as [|j|j] eqn:Ej; cbn [fst]; try lia.
  - now replace e' with e by lia.
  - assert (Hv : Zpos (Pos.iter xO m j) = Zpos m * 2 ^ Zpos j).
    { clear. induction j as [|j IH] using Pos.peano_ind.
      - cbn [Pos.iter]. change (2 ^ 1) with 2. lia.
      - rewrite Pos.iter_succ, Pos2Z.inj_xO, IH, Pos2Z.inj_succ, Z.pow_succ_r
          by lia. lia. }
    rewrite Hv, <- Z.mul_assoc, <- Z.pow_add_r by lia. do 2 f_equal. lia.
Qed.

Lemma binary_normalize_rounds (M e : Z) :
  -1074 <= e ->
  rounds (M * 2 ^ (e + 1074)) (binary_normalize prec emax M e false).
Proof.
  intros He. pose proof (pow2_pos (e + 1074) ltac:(lia)) as P.
  destruct M as [|p|p]; cbn [binary_normalize].
  - reflexivity.
  - pose proof (binary_round_rounded false p e He) as R.
    assert (0 < Zpos p * 2 ^ (e + 1074)) by nia.
    unfold rounds.
    destruct (binary_round prec emax false p e); try contradiction;
      left; split; assumption.
  - pose proof (binary_round_rounded true p e He) as R.
    assert (Zneg p * 2 ^ (e + 1074) < 0) by nia.
    replace (Zpos p * 2 ^ (e + 1074)) with (- (Zneg p * 2 ^ (e + 1074))) in R
      by (rewrite <- Z.mul_opp_l; reflexivity).
    unfold rounds.
    destruct (binary_round prec emax true p e); try contradiction;
      right; split; assumption.
Qed.

(** The sum of two finite doubles is a rounding of the exact sum. *)
Lemma SFadd_rounds (x y : spec_float) :
  finite_valid x -> finite_valid y ->
  rounds (V x + V y) (SFadd prec emax x y).
Proof.
  intros Hx Hy. pose proof Hx as [Vx Fx]. pose proof Hy as [Vy Fy].
  destruct x as [sx|sx| |sx mx ex], y as [sy|sy| |sy my ey]; try contradiction.
  - destruct sx, sy; reflexivity.
  - apply (valid_rounds _ Hy).
  - rewrite Z.add_0_r. apply (valid_rounds _ Hx).
  - apply valid_finite in Vx, Vy.
    unfold SFadd. cbv zeta.
    set (ez := Z.min ex ey).
    assert (Hez : -1074 <= ez) by (subst ez; lia).
    pose proof (shl_align_value mx ex ez Hez ltac:(subst ez; lia)) as Ax.
    pose proof (shl_align_value my ey ez Hez ltac:(subst ez; lia)) as Ay.
    replace (V (S754_finite sx mx ex) + V (S754_finite sy my ey))
      with ((cond_Zopp sx (Zpos (fst (shl_align mx ex ez)))
             + cond_Zopp sy (Zpos (fst (shl_align my ey ez))))
            * 2 ^ (ez + 1074)).
    + now apply binary_normalize_rounds.
    + cbn [V]. rewrite <- Ax, <- Ay.
      destruct sx, sy; cbn [cond_Zopp]; ring.
Qed.

(** A rounding does not cross a representable number. *)
Lemma rounds_ge (N T : Z) (r : spec_float) :
  rounds N r -> finite r -> representable (Z.abs T) ->
  T <= N -> T <= V r.
Proof.
  intros R B HT Hle.
  destruct r as [s|s| |s m e]; try contradiction.
  - cbn [rounds V] in *. lia.
  - cbn [V]. destruct R as [[HN R]|[HN R]]; destruct R as (-> & He & Hb & Hx);
      cbn [cond_Zopp]; pose proof (pow2_pos (e + 1074) ltac:(lia)) as P.
    + destruct (Z_le_gt_dec T 0) as [T0|T0]; [nia|].
      rewrite Z.abs_eq in HT by lia.
      pose proof (grid_floor N T HN HT ltac:(lia)). lia.
    + rewrite Z.abs_neq in HT by lia.
      destruct (grid_ceil (- N) (- T) ltac:(lia) HT ltac:(lia)) as [C1 [C2|C2]].
      * lia.
      * specialize (Hx C2). lia.
Qed.

Lemma rounds_le (N T : Z) (r : spec_float) :
  rounds N r -> finite r -> representable (Z.abs T) ->
  N <= T -> V r <= T.
Proof.
  intros R B HT Hle.
  destruct r as [s|s| |s m e]; try contradiction.
  - cbn [rounds V] in *. lia.
  - cbn [V]. destruct R as [[HN R]|[HN R]]; destruct R as (-> & He & Hb & Hx);
      cbn [cond_Zopp]; pose proof (pow2_pos (e + 1074) ltac:(lia)) as P.
    + rewrite Z.abs_eq in HT by lia.
      destruct (grid_ceil N T HN HT Hle) as [C1 [C2|C2]].
      * lia.
      * specialize (Hx C2). lia.
    + destruct (Z_le_gt_dec 0 T) as [T0|T0]; [nia|].
      rewrite Z.abs_neq in HT by lia.
      pose proof (grid_floor (- N) (- T) ltac:(lia) HT ltac:(lia)). lia.
Qed.

Lemma representable_value (x : spec_float) :
  finite_valid x -> representable (Z.abs (V x)).
Proof.
  intros [Vx Fx]. destruct x as [s|s| |s m e]; try contradiction.
  - reflexivity.
  - pose proof (valid_representable s m e Vx) as R.
    apply valid_finite in Vx.
    pose proof (pow2_pos (e + 1074) ltac:(lia)) as P.
    cbn [V]. destruct s; cbn [cond_Zopp].
    + rewrite Z.abs_neq by nia. now rewrite Z.opp_involutive.
    + rewrite Z.abs_eq by nia. assumption.
Qed.

Lemma representable_twice (x : spec_float) :
  finite_valid x -> representable (Z.abs (2 * V x)).
Proof.
  intros Hx. pose proof (representable_value x Hx) as R.
  rewrite Z.abs_mul. change (Z.abs 2) with 2.
  destruct (Z.eq_dec (Z.abs (V x)) 0) as [E|E].
  - rewrite E. reflexivity.
  - apply representable_double; [lia|assumption].
Qed.

(** The sum of two finite doubles, when it does not overflow, lies between
    twice the lesser and twice the greater. *)
Lemma SFadd_between (x y : spec_float) :
  finite_valid x -> finite_valid y -> V x <= V y ->
  finite (SFadd prec emax x y) ->
  2 * V x <= V (SFadd prec emax x y) <= 2 * V y.
Proof.
  intros Hx Hy Hle B.
  pose proof (SFadd_rounds x y Hx Hy) as R.
  split.
  - apply (rounds_ge _ _ _ R B (representable_twice x Hx)). lia.
  - apply (rounds_le _ _ _ R B (representable_twice y Hy)). lia.
Qed.

End SumFacts.

Section HalfFacts.

Import FloatSign Grid Value Rounding Sum.

Lemma div_eucl_div_mod (a b : Z) : Z.div_eucl a b = (a / b, a mod b).
Proof. unfold Z.div, Z.modulo. now destruct (Z.div_eucl a b). Qed.

Lemma loc_of_shr_record_of_loc (m : Z) (l : location) :
  loc_of_shr_record (shr_record_of_loc m l) = l /\
  shr_m (shr_record_of_loc m l) = m.
Proof. destruct l as [|[| |]]; now split. Qed.

Lemma digits_le_53 (p : positive) : Zpos p < 2 ^ 53 -> digits (Zpos p) <= 53.
Proof.
  intros H. pose proof (digits_bounds (Zpos p) ltac:(lia)) as [L _].
  destruct (Z_le_gt_dec (digits (Zpos p)) 53) as [D|D]; [assumption|].
  exfalso.
  assert (2 ^ 53 <= 2 ^ (digits (Zpos p) - 1)) by (apply Z.pow_le_mono_r; lia).
  lia.
Qed.

(** The quotient and remainder that the division by two starts from. *)
Lemma SFdiv_core_two (mx : positive) (ex : Z) :
  digits (Zpos mx) <= 53 ->
  let e' := Z.max (digits (Zpos mx) + ex - 55) (-1074) in
  let s := ex + 51 - e' in
  0 < s ->
  SFdiv_core_binary prec emax (Zpos mx) ex (Zpos 4503599627370496) (-51) =
  (Zpos mx * 2 ^ s / 2 ^ 52, e',
   new_location (2 ^ 52) ((Zpos mx * 2 ^ s) mod 2 ^ 52)).
Proof.
  intros Hd e' s Hs. unfold SFdiv_core_binary, Zdigits2.
  rewrite digits2_pos_digits.
  change (Zpos (digits2_pos 4503599627370496)) with 53.
  replace (Z.min (fexp prec emax (digits (Zpos mx) + ex - (53 + -51)))
             (ex - -51)) with e'
    by (unfold fexp, emin, prec, emax; subst e'; lia).
  replace (ex - -51 - e') with s by (subst s; lia).
  cbv zeta. destruct s as [|ps|ps] eqn:Es; try lia.
  rewrite Z.shiftl_mul_pow2 by lia.
  change (Zpos 4503599627370496) with (2 ^ 52).
  rewrite div_eucl_div_mod. reflexivity.
Qed.

(** Halving never overflows, and is off by at most half a unit of the least
    subnormal. *)
Lemma SFdiv_two (x : spec_float) :
  finite_valid x ->
  finite (SFdiv prec emax x sf_two) /\
  -1 <= 2 * V (SFdiv prec emax x sf_two) - V x <= 1.
Proof.
  intros [Vx Fx]. destruct x as [sx|sx| |sx mx ex]; try contradiction.
  - cbn. split; [exact I|lia].
  - apply valid_finite in Vx. destruct Vx as [Hex Hc].
    pose proof (digits_pos (Zpos mx) ltac:(lia)) as Dp.
    pose proof (digits_bounds (Zpos mx) ltac:(lia)) as Db.
    set (d := digits (Zpos mx)) in *.
    assert (Hd : d <= 53) by lia.
    unfold sf_two, SFdiv. rewrite xorb_false_r.
    rewrite SFdiv_core_two by (fold d; lia).
    fold d. set (e' := Z.max (d + ex - 55) (-1074)).
    set (s := ex + 51 - e').
    destruct (Z_le_gt_dec 52 s) as [S52|S51].
    + (* the quotient is exact *)
      assert (Hd53 : d = 53) by (subst s e'; lia).
      assert (Hq : Zpos mx * 2 ^ s = Zpos mx * 2 ^ (s - 52) * 2 ^ 52).
      { rewrite <- Z.mul_assoc, <- Z.pow_add_r by lia. do 2 f_equal. lia. }
      rewrite Hq, Z.div_mul, Z.mod_mul by (apply Z.pow_nonzero; lia).
      change (new_location (2 ^ 52) 0) with loc_Exact.
      pose proof (pow2_pos (s - 52) ltac:(lia)) as Ps.
      destruct (Zpos mx * 2 ^ (s - 52)) as [|q|q] eqn:Eq; try nia.
      assert (He' : -1074 <= e') by (subst e'; lia).
      assert (Hdq : digits (Zpos q) = d + (s - 52)).
      { rewrite <- Eq. apply digits_mul_pow2; lia. }
      pose proof (binary_round_aux_rounded sx q e' He'
                    ltac:(rewrite Hdq; subst s e'; lia)) as R.
      assert (Hn : Zpos q * 2 ^ (e' + 1074) = Zpos mx * 2 ^ (ex + 1073)).
      { rewrite <- Eq, <- Z.mul_assoc, <- Z.pow_add_r by lia.
        do 2 f_equal. subst s. lia. }
      rewrite Hn in R.
      set (n := Zpos mx * 2 ^ (ex + 1073)) in *.
      assert (Hx : Zpos mx * 2 ^ (ex + 1074) = 2 * n).
      { subst n. replace (ex + 1074) with (Z.succ (ex + 1073)) by lia.
        rewrite Z.pow_succ_r by lia. ring. }
      assert (Hu : ulp_exp n = ex + 1073).
      { unfold ulp_exp, n. rewrite digits_mul_pow2 by lia. fold d. lia. }
      assert (Hm : n mod 2 ^ ulp_exp n = 0).
      { rewrite Hu. unfold n. apply Z.mod_mul. apply Z.pow_nonzero; lia. }
      assert (Hlt : n < 2 ^ 2097).
      { assert (U : Zpos mx < 2 ^ 53) by (rewrite <- Hd53; lia).
        assert (P : 2 ^ (ex + 1073) <= 2 ^ 2044)
          by (apply Z.pow_le_mono_r; lia).
        pose proof (pow2_pos (ex + 1073) ltac:(lia)) as P0.
        change (2 ^ 2097) with (2 ^ 53 * 2 ^ 2044).
        assert (0 < 2 ^ 53) by reflexivity.
        subst n. clear - U P P0 H.
        set (X := 2 ^ 53) in *. set (Y := 2 ^ 2044) in *.
        set (Z0 := 2 ^ (ex + 1073)) in *. clearbody X Y Z0. nia. }
      destruct (binary_round_aux prec emax sx (Zpos q) e' loc_Exact)
        as [s'|s'| |s' m' e''] eqn:Er; try contradiction.
      * destruct R as [_ R]. lia.
      * destruct R as (-> & He'' & _ & Rx). specialize (Rx Hm).
        split; [exact I|].
        cbn [V]. rewrite Rx, Hx. destruct sx; cbn [cond_Zopp]; lia.
    + (* the least exponent: one bit is rounded away *)
      assert (Hs : s = 51) by (subst s e'; lia).
      assert (He : ex = -1074) by (subst s e'; lia).
      assert (He' : e' = -1074) by (subst s e'; lia).
      rewrite Hs, He'.
      assert (Hq : Zpos mx * 2 ^ 51 / 2 ^ 52 = Zpos mx / 2).
      { change (2 ^ 52) with (2 * 2 ^ 51).
        apply Z.div_mul_cancel_r; [lia|]. apply Z.pow_nonzero; lia. }
      assert (Hr : (Zpos mx * 2 ^ 51) mod 2 ^ 52 = Zpos mx mod 2 * 2 ^ 51).
      { change (2 ^ 52) with (2 * 2 ^ 51).
        apply Z.mul_mod_distr_r; [lia|]. apply Z.pow_nonzero; lia. }
      rewrite Hq, Hr.
      set (q := Zpos mx / 2).
      set (l := new_location (2 ^ 52) (Zpos mx mod 2 * 2 ^ 51)).
      assert (Hl : Zpos mx mod 2 = 0 -> l = loc_Exact).
      { intros E. subst l. rewrite E. reflexivity. }
      assert (Hq0 : 0 <= q) by (subst q; apply Z.div_pos; lia).
      assert (U : Zpos mx < 2 ^ 53).
      { eapply Z.lt_le_trans; [apply Db|]. apply Z.pow_le_mono_r; lia. }
      assert (Hq1 : q < 2 ^ 52).
      { subst q. apply Z.div_lt_upper_bound; [lia|].
        change (2 * 2 ^ 52) with (2 ^ 53). exact U. }
      rewrite binary_round_aux_finish.
      assert (Hsh : shr_fexp prec emax q (-1074) l =
                    (shr_record_of_loc q l, -1074)).
      { unfold shr_fexp.
        replace (fexp prec emax (Zdigits2 q + -1074) - -1074) with 0;
          [reflexivity|].
        destruct q as [|pq|pq] eqn:Eq; try lia.
        - reflexivity.
        - unfold Zdigits2. rewrite digits2_pos_digits.
          pose proof (digits_le_53 pq ltac:(change (2 ^ 53) with (2 * 2 ^ 52); lia)).
          unfold fexp, emin, prec, emax. lia. }
      rewrite Hsh. cbn [fst snd].
      destruct (loc_of_shr_record_of_loc q l) as [-> ->].
      pose proof (round_nearest_even_bounds q l) as Bm.
      assert (Hev : Zpos mx mod 2 = 0 -> round_nearest_even q l = q).
      { intros E. rewrite (Hl E). reflexivity. }
      set (m2 := round_nearest_even q l) in *.
      assert (Hdm : Zpos mx = 2 * q + Zpos mx mod 2)
        by (subst q; apply Z.div_mod; lia).
      pose proof (Z.mod_pos_bound (Zpos mx) 2 ltac:(lia)) as Bmod.
      assert (Hclose : -1 <= 2 * m2 - Zpos mx <= 1).
      { destruct (Z.eq_dec (Zpos mx mod 2) 0) as [E|E].
        - rewrite (Hev E). lia.
        - lia. }
      destruct m2 as [|p2|p2] eqn:Em2; try lia.
      * change (finish sx 0 (-1074)) with (S754_zero sx).
        split; [exact I|]. cbn [V]. rewrite He.
        change (2 ^ (-1074 + 1074)) with 1. rewrite Z.mul_1_r.
        destruct sx; cbn [cond_Zopp]; lia.
      * rewrite finish_canonical.
        2:{ pose proof (digits_le_53 p2
                          ltac:(change (2 ^ 53) with (2 * 2 ^ 52); lia)).
            lia. }
        change (-1074 <=? 971) with true. cbv iota.
        split; [exact I|]. cbn [V]. rewrite He.
        change (2 ^ (-1074 + 1074)) with 1. rewrite !Z.mul_1_r.
        destruct sx; cbn [cond_Zopp]; lia.
Qed.

End HalfFacts.

(** ** The average of two doubles *)

Section Average.

Import FloatSign Grid Value Rounding Sum.

Lemma finite_valid_Prim2SF (x : float) :
  finite (Prim2SF x) -> finite_valid (Prim2SF x).
Proof. intros H. split; [apply Prim2SF_valid|exact H]. Qed.

Lemma leb_value (x y : float) :
  finite (Prim2SF x) -> finite (Prim2SF y) ->
  (x <=? y)%float = true <-> V (Prim2SF x) <= V (Prim2SF y).
Proof.
  intros Hx Hy. rewrite leb_spec. unfold SFleb.
  rewrite (SFcompare_value _ _ (finite_valid_Prim2SF x Hx)
             (finite_valid_Prim2SF y Hy)).
  destruct (Z.compare_spec (V (Prim2SF x)) (V (Prim2SF y))); split;
    intros; try reflexivity; try lia; discriminate.
Qed.

(** The computed average of two finite doubles lies between them, unless
    their sum overflows. *)
Lemma average_between (a b : double) :
  is_finite a = true -> is_finite b = true -> is_finite (a + b) = true ->
  le a b -> between a (average a b) b.
Proof.
  intros Ha Hb Hs Hle.
  apply is_finite_spec in Ha, Hb, Hs.
  apply (leb_value a b Ha Hb) in Hle.
  pose proof (finite_valid_Prim2SF a Ha) as Fa.
  pose proof (finite_valid_Prim2SF b Hb) as Fb.
  pose proof (finite_valid_Prim2SF _ Hs) as Fs.
  assert (Bs : 2 * V (Prim2SF a) <= V (Prim2SF (a + b)) <= 2 * V (Prim2SF b)).
  { rewrite add_spec in Hs |- *. now apply SFadd_between. }
  destruct (SFdiv_two _ Fs) as [Bq Hq].
  assert (Eq : Prim2SF (average a b)
               = SFdiv prec emax (Prim2SF (a + b)) sf_two).
  { unfold average. rewrite div_spec. reflexivity. }
  rewrite <- Eq in Bq, Hq.
  split; apply leb_value; try assumption; lia.
Qed.

End Average.

(** ** Bounds on the statistics *)

(** C4, as stated, fails where the sum of two values overflows: for four
    measurements equal to 2^1023 the reduction is defined, and
    Q3 = (2^1023 + 2^1023) / 2 is infinite, above the maximum. *)
Lemma C4_counterexample :
  is_finite 0x1p1023%float = true
  /\ option_map (fun s => (st_q3 s, st_max s))
       (summarize [0x1p1023; 0x1p1023; 0x1p1023; 0x1p1023]%float)
     = Some (infinity, 0x1p1023%float)
  /\ (infinity <=? 0x1p1023)%float = false.
Proof. repeat split; reflexivity. Qed.

Section Bounds.

Variable xs : list double.
Variable s : statistics.
Variable n : Z.
Hypothesis Hn : n = Z.of_nat (List.length xs).
Hypothesis Hfin : finite_sample xs.
Hypothesis Hint : 3 * Z.of_nat (List.length xs) <= INT_MAX.
Hypothesis Hs : summarize xs = Some s.

Lemma summarized_nonempty : 1 <= n.
Proof.
  rewrite Hn. destruct xs as [|x l]; [discriminate Hs|]. simpl List.length. lia.
Qed.

Lemma summarized_sorted : StronglySorted le (arrange xs).
Proof. apply arrange_sorted, finite_sample_numbers, Hfin. Qed.

Lemma summarized_numbers : numbers (arrange xs).
Proof.
  eapply Permutation_Forall; [symmetry; apply arrange_perm|].
  apply finite_sample_numbers, Hfin.
Qed.

Lemma summarized_spec :
  exists q1 q3 med lo hi,
    quantile (arrange xs) n (n / 4) = Some q1 /\
    quantile (arrange xs) n (3 * n / 4) = Some q3 /\
    quantile (arrange xs) n (n / 2) = Some med /\
    element (arrange xs) 0 = Some lo /\
    element (arrange xs) (n - 1) = Some hi /\
    st_q1 s = q1 /\ st_q3 s = q3 /\ st_median s = med /\
    st_min s = lo /\ st_max s = hi /\
    st_variance s =
      (sum_sq_dev xs (accumulate xs 0 / of_size (List.length xs))
       / of_size (List.length xs))%float.
Proof.
  pose proof summarized_nonempty as H1.
  pose proof Hs as H.
  rewrite summarize_refines in H
    by (rewrite <- ?Hn;
        first [assumption | rewrite Hn; exact Hint
              | apply finite_sample_numbers, Hfin]).
  unfold summarize_spec in H. rewrite <- Hn in H.
  rewrite <- sum_sq_dev_accumulate in H.
  destruct (quantile (arrange xs) n (n / 4)) as [q1|]; [|discriminate].
  destruct (quantile (arrange xs) n (3 * n / 4)) as [q3|]; [|discriminate].
  destruct (quantile (arrange xs) n (n / 2)) as [med|]; [|discriminate].
  destruct (element (arrange xs) 0) as [lo|] eqn:Elo; [|discriminate].
  destruct (element (arrange xs) (n - 1)) as [hi|] eqn:Ehi; [|discriminate].
  simpl in H. injection H as <-. simpl.
  exists q1, q3, med, lo, hi.
  repeat split; assumption || reflexivity.
Qed.

Lemma summarized_variance : le 0%float (st_variance s).
Proof.
  destruct summarized_spec as (q1 & q3 & med & lo & hi & H).
  decompose [and] H. clear H.
  match goal with E : st_variance s = _ |- _ => rewrite E end.
  pose proof summarized_nonempty. pose proof Hint as Hi. unfold INT_MAX in Hi.
  apply variance_nonneg; try assumption; lia.
Qed.

Lemma summarized_min_max : le (st_min s) (st_max s).
Proof.
  destruct summarized_spec as (q1 & q3 & med & lo & hi & H).
  decompose [and] H. clear H. subst q1 q3 med lo hi.
  pose proof summarized_nonempty.
  eapply (sorted_element_le (arrange xs) 0 (n - 1));
    eauto using summarized_sorted, summarized_numbers. lia.
Qed.

(** Odd sizes: the three quantiles are elements of the sorted vector. *)
Lemma summarized_odd : Z.even n = false -> five_number_chain s.
Proof.
  intros Hodd.
  destruct summarized_spec as (q1 & q3 & med & lo & hi & H).
  decompose [and] H. clear H. subst q1 q3 med lo hi.
  unfold quantile in *. rewrite Hodd in *.
  pose proof summarized_nonempty.
  pose proof summarized_sorted as S. pose proof summarized_numbers as N.
  assert (B : 0 <= n / 4 <= n / 2 /\ n / 2 <= 3 * n / 4 <= n - 1).
  { clear - H. Z.div_mod_to_equations. lia. }
  unfold five_number_chain. repeat split.
  - eapply (sorted_element_le _ 0 (n / 4)); eauto; lia.
  - eapply (sorted_element_le _ (n / 4) (n / 2)); eauto; lia.
  - eapply (sorted_element_le _ (n / 2) (3 * n / 4)); eauto; lia.
  - eapply (sorted_element_le _ (3 * n / 4) (n - 1)); eauto; lia.
Qed.

(** Even sizes: the three quantiles are averages of adjacent elements of
    the sorted vector, and the six elements are in order. *)
Lemma summarized_even :
  Z.even n = true ->
  exists a1 b1 a2 b2 a3 b3 : double,
    (element (arrange xs) (n / 4 - 1) = Some a1 /\
     element (arrange xs) (n / 4) = Some b1 /\
     element (arrange xs) (n / 2 - 1) = Some a2 /\
     element (arrange xs) (n / 2) = Some b2 /\
     element (arrange xs) (3 * n / 4 - 1) = Some a3 /\
     element (arrange xs) (3 * n / 4) = Some b3) /\
    (st_q1 s = average a1 b1 /\ st_median s = average a2 b2 /\
     st_q3 s = average a3 b3) /\
    (le (st_min s) a1 /\ le a1 b1 /\ le b1 a2 /\ le a2 b2 /\ le b2 a3 /\
     le a3 b3 /\ le b3 (st_max s)).
Proof.
  intros Heven.
  destruct summarized_spec
    as (q1 & q3 & med & lo & hi & Q1 & Q3 & M & Lo & Hi & E1 & E3 & Em
        & Elo & Ehi & _).
  destruct (quantile_even _ _ _ _ Heven Q1) as (a1 & b1 & A1 & B1 & F1).
  destruct (quantile_even _ _ _ _ Heven M) as (a2 & b2 & A2 & B2 & F2).
  destruct (quantile_even _ _ _ _ Heven Q3) as (a3 & b3 & A3 & B3 & F3).
  exists a1, b1, a2, b2, a3, b3.
  split; [repeat split; assumption|].
  split; [repeat split; congruence|].
  pose proof summarized_nonempty.
  pose proof summarized_sorted as S. pose proof summarized_numbers as N.
  assert (P1 : 0 <= n / 4 - 1) by (apply element_nth in A1; tauto).
  assert (B : n / 4 <= n / 2 - 1 /\ n / 2 <= 3 * n / 4 - 1 /\ 3 * n / 4 <= n - 1).
  { clear - H P1. Z.div_mod_to_equations. lia. }
  rewrite Elo, Ehi.
  repeat split.
  - eapply (sorted_element_le _ 0 (n / 4 - 1)); eauto; lia.
  - eapply (sorted_element_le _ (n / 4 - 1) (n / 4)); eauto; lia.
  - eapply (sorted_element_le _ (n / 4) (n / 2 - 1)); eauto; lia.
  - eapply (sorted_element_le _ (n / 2 - 1) (n / 2)); eauto; lia.
  - eapply (sorted_element_le _ (n / 2) (3 * n / 4 - 1)); eauto; lia.
  - eapply (sorted_element_le _ (3 * n / 4 - 1) (3 * n / 4)); eauto; lia.
  - eapply (sorted_element_le _ (3 * n / 4) (n - 1)); eauto; lia.
Qed.

Hypothesis Hsum :
  forall a b : double, In a xs -> In b xs -> is_finite (a + b) = true.

Lemma summarized_element (i : Z) (a : double) :
  element (arrange xs) i = Some a -> In a xs /\ is_finite a = true.
Proof.
  intros H. apply element_nth in H. destruct H as [_ H].
  apply nth_error_In in H.
  assert (Ha : In a xs) by (eapply Permutation_in; [apply arrange_perm|exact H]).
  split; [exact Ha|].
  unfold finite_sample in Hfin. rewrite Forall_forall in Hfin. now apply Hfin.
Qed.

(** The average of two elements of the sorted vector lies between them. *)
Lemma summarized_average (a b : double) (i : Z) :
  element (arrange xs) (i - 1) = Some a -> element (arrange xs) i = Some b ->
  le a b -> between a (average a b) b.
Proof.
  intros A B Hle.
  destruct (summarized_element _ _ A) as [Ia Fa].
  destruct (summarized_element _ _ B) as [Ib Fb].
  apply average_between; auto.
Qed.

(** Even sizes, when no sum of two measurements overflows. *)
Lemma summarized_even_chain : Z.even n = true -> five_number_chain s.
Proof.
  intros Heven.
  destruct (summarized_even Heven)
    as (a1 & b1 & a2 & b2 & a3 & b3 & (A1 & B1 & A2 & B2 & A3 & B3)
        & (E1 & E2 & E3) & (O1 & O2 & O3 & O4 & O5 & O6 & O7)).
  destruct (summarized_average _ _ _ A1 B1 O2) as [L1 U1].
  destruct (summarized_average _ _ _ A2 B2 O4) as [L2 U2].
  destruct (summarized_average _ _ _ A3 B3 O6) as [L3 U3].
  unfold five_number_chain. rewrite E1, E2, E3.
  repeat split.
  - eapply le_trans; eassumption.
  - eapply le_trans; [exact U1|]. eapply le_trans; eassumption.
  - eapply le_trans; [exact U2|]. eapply le_trans; eassumption.
  - eapply le_trans; eassumption.
Qed.

Lemma summarized_chain : five_number_chain s.
Proof.
  destruct (Z.even n) eqn:E.
  - now apply summarized_even_chain.
  - now apply summarized_odd.
Qed.

End Bounds.

(** C4, amended.  For a sample of finite doubles, of a size within the
    range of [int], on which the reduction is defined: the variance is not
    negative and min <= max; min <= Q1 <= median <= Q3 <= max holds for
    every odd size, and for every size when the sum of no two
    measurements overflows. *)
Theorem C4_bounds_on_finite_samples :
  forall (xs : list double) (s : statistics),
    finite_sample xs ->
    3 * Z.of_nat (List.length xs) <= INT_MAX ->
    summarize xs = Some s ->
    le 0%float (st_variance s)
    /\ le (st_min s) (st_max s)
    /\ (Z.even (Z.of_nat (List.length xs)) = false -> five_number_chain s)
    /\ ((forall a b : double,
           In a xs -> In b xs -> is_finite (a + b) = true) ->
        five_number_chain s).
Proof.
  intros xs s Hfin Hint Hs.
  split; [now apply (summarized_variance xs s _ eq_refl)|].
  split; [now apply (summarized_min_max xs s _ eq_refl)|].
  split; [now apply (summarized_odd xs s _ eq_refl)|].
  intros Hsum. now apply (summarized_chain xs s _ eq_refl).
Qed.

Lemma C4_bounds_on_finite_samples_witness :
  le 0%float (st_variance s4_statistics) /\ five_number_chain s4_statistics.
Proof.
  destruct (C4_bounds_on_finite_samples [40; 10; 30; 20]%float s4_statistics)
    as (V & _ & _ & C).
  - repeat constructor.
  - vm_compute. discriminate.
  - reflexivity.
  - split; [exact V|]. apply C.
    intros a b Ha Hb. cbn [In] in Ha, Hb.
    destruct Ha as [<-|[<-|[<-|[<-|[]]]]];
      destruct Hb as [<-|[<-|[<-|[<-|[]]]]]; reflexivity.
Defined.

(** ** The exit status *)

Section ExitStatus.

Context {W P : Type}.
Variable sev : collaborators W.

Lemma single_shot_continues (st : main_state W P)
    (method : string -> Z -> W -> Z * W) :
  exists st', single_shot st method = Continue st'.
Proof.
  unfold single_shot.
  destruct (method (output_folder st) (verbose_flag (gv st)) (world st)).
  eauto.
Qed.

Lemma repeated_never_returns (st : main_state W P) (func : @repeatable W)
    (code : Z) (st' : main_state W P) :
  repeated st func <> Return code st'.
Proof.
  unfold repeated.
  destruct (perform_repetitions_and_analysis func (repetitions st) (world st))
    as [[[ret|] w'] o]; discriminate.
Qed.

Lemma positional_return (st : main_state W P) (k : nat) (msg : string)
    (body : main_state W P -> list string -> step W P)
    (code : Z) (st' : main_state W P) :
  positional st k msg body = Return code st' ->
  code = 0 \/ exists st1 args, body st1 args = Return code st'.
Proof.
  unfold positional.
  destruct (negb _).
  - intros H. injection H as <- _. now left.
  - match goal with
    | |- context [match ?r with Some _ => _ | None => _ end] => destruct r
    end; [|discriminate].
    intros H. right. eauto.
Qed.

(** Every [return] inside the [switch] is [return false]. *)
Lemma handle_option_return_zero (c : Z) (st st' : main_state W P) (code : Z) :
  handle_option sev c st = Return code st' -> code = 0.
Proof.
  unfold handle_option.
  repeat match goal with
         | |- (if ?b then _ else _) = _ -> _ => destruct b
         | |- (let '(_, _) := ?p in _) = _ -> _ => destruct p
         end;
    try discriminate;
    try (intros H; injection H as <- _; reflexivity);
    try (intros H; exfalso; exact (repeated_never_returns _ _ _ _ H));
    try (intros H;
         match type of H with
         | single_shot ?s ?m = _ =>
             destruct (single_shot_continues s m) as [? E];
             rewrite E in H; discriminate
         end);
    intros H; apply positional_return in H;
    destruct H as [H|(st1 & args & H)]; try assumption; exfalso;
    try exact (repeated_never_returns _ _ _ _ H);
    match type of H with
    | single_shot ?s ?m = _ =>
        destruct (single_shot_continues s m) as [? E];
        rewrite E in H; discriminate
    end.
Qed.

Variable getopt_long : getopt_vars P -> Z * getopt_vars P.

Lemma option_loop_return_zero (fuel : nat) :
  forall (st st' : main_state W P) (code : Z),
    option_loop sev getopt_long fuel st = (Returned code, st') -> code = 0.
Proof.
  induction fuel as [|fuel IH]; intros st st' code; [discriminate|].
  rewrite option_loop_step.
  destruct (getopt_long (gv st)) as [c g']. cbv zeta.
  destruct (c =? -1); [discriminate|].
  match goal with
  | |- context [handle_option sev c ?s] =>
      destruct (handle_option sev c s) as [st2|code2 st2|st2] eqn:E
  end.
  - apply IH.
  - intros H. injection H as <- _.
    eapply handle_option_return_zero; eassumption.
  - discriminate.
Qed.

Lemma main_return_zero (fuel : nat) (args : list string) (p0 : P) (w : W)
    (st : main_state W P) (code : Z) :
  main sev getopt_long fuel args p0 w = (Returned code, st) -> code = 0.
Proof.
  unfold main.
  destruct (option_loop sev getopt_long fuel (initial_state args p0 w))
    as [[|c| |] st1] eqn:E; intros H; try discriminate.
  - injection H as <- _. reflexivity.
  - injection H as <- _. eapply option_loop_return_zero; eassumption.
Qed.

End ExitStatus.

(** ** The arity checks *)

Section Arity.

Context {W P : Type}.
Variable sev : collaborators W.

Lemma handle_positional (c : Z) (k : nat) (msg : string) (st : main_state W P) :
  In (c, k, msg) positional_operations ->
  exists body, handle_option sev c st = positional st k msg body.
Proof.
  intros H. simpl in H.
  repeat (destruct H as [H|H]; [injection H as <- <- <-; eexists; reflexivity|]).
  contradiction.
Qed.

(** With a wrong number of tokens left, every one of them prints its
    diagnostic and returns before anything is decoded or run: the world
    and the status are untouched. *)
Lemma arity_mismatch_aborts (c : Z) (k : nat) (msg : string)
    (st : main_state W P) :
  In (c, k, msg) positional_operations ->
  argc (gv st) - (optind (gv st) - 1) <> Z.of_nat k ->
  handle_option sev c st =
  Return 0 (mkState (set_optind (gv st) (optind (gv st) - 1))
              (repetitions st) (output_folder st) (cmd_ret st) (world st)
              (out st ++ [Text msg])).
Proof.
  intros Hin Hne. destruct (handle_positional c k msg st Hin) as [body ->].
  now apply positional_mismatch.
Qed.

End Arity.

(** C7, on the code: the arity check of [--sign_pek_csr] aborts before
    anything runs, as claimed, but its diagnostic names another
    operation, [pek_cert_import].  With one or with three trailing tokens
    the only output is that line, and the world is untouched. *)
Theorem C7_sign_pek_csr_names_pek_cert_import :
  forall (W : Type) (sev : collaborators W) (a b c : string) (w : W),
    sevtool sev ["sevtool"; "--sign_pek_csr"; a] w =
    (Returned 0,
     mkState (mkGetopt 2 a 0 ["sevtool"; "--sign_pek_csr"; a] 0 (settled_at 1))
       1 "./" 65535 w
       [Text ("Error: Expecting exactly 2 args for pek_cert_import" ++ nl)])
    /\
    sevtool sev ["sevtool"; "--sign_pek_csr"; a; b; c] w =
    (Returned 0,
     mkState (mkGetopt 2 a 0 ["sevtool"; "--sign_pek_csr"; a; b; c] 0
                (settled_at 1))
       1 "./" 65535 w
       [Text ("Error: Expecting exactly 2 args for pek_cert_import" ++ nl)]).
Proof.
  intros W sev a b c w. split.
  - unfold sevtool, main, Getopt.fuel_for. rewrite option_loop_step.
    assert (G : Getopt.getopt_long
                  (gv (initial_state ["sevtool"; "--sign_pek_csr"; a]
                         Getopt.start w))
                = (chr "s",
                   mkGetopt 3 a 0 ["sevtool"; "--sign_pek_csr"; a] 0
                     (settled_at 1))) by reflexivity.
    rewrite G. cbv beta iota zeta.
    change (chr "s" =? -1) with false. cbv iota.
    rewrite (arity_mismatch_aborts sev (chr "s") 2
               ("Error: Expecting exactly 2 args for pek_cert_import" ++ nl));
      [reflexivity|simpl; tauto|simpl; lia].
  - unfold sevtool, main, Getopt.fuel_for. rewrite option_loop_step.
    assert (G : Getopt.getopt_long
                  (gv (initial_state ["sevtool"; "--sign_pek_csr"; a; b; c]
                         Getopt.start w))
                = (chr "s",
                   mkGetopt 3 a 0 ["sevtool"; "--sign_pek_csr"; a; b; c] 0
                     (settled_at 1))) by reflexivity.
    rewrite G. cbv beta iota zeta.
    change (chr "s" =? -1) with false. cbv iota.
    rewrite (arity_mismatch_aborts sev (chr "s") 2
               ("Error: Expecting exactly 2 args for pek_cert_import" ++ nl));
      [reflexivity|simpl; tauto|simpl; lia].
Qed.

(** ** [atoi] *)

Section Atoi.

Lemma parse_digits_cons (c : ascii) (s : string) (acc k : Z) :
  digit_value c = Some k ->
  parse_digits (String c s) acc = parse_digits s (10 * acc + k).
Proof. intros H. cbn [parse_digits]. now rewrite H. Qed.

Lemma parse_digits_acc (d : Decimal.uint) :
  forall acc : positive,
    parse_digits (NilEmpty.string_of_uint d) (Zpos acc)
    = Zpos (Pos.of_uint_acc d acc).
Proof.
  induction d as [|d IH|d IH|d IH|d IH|d IH|d IH|d IH|d IH|d IH|d IH];
    intros acc; cbn [NilEmpty.string_of_uint Pos.of_uint_acc];
    [reflexivity|..];
    (erewrite parse_digits_cons by reflexivity);
    rewrite <- IH; f_equal;
    match goal with
    | |- context [chr ?c - 48] =>
        let v := eval vm_compute in (chr c - 48) in
        change (chr c - 48) with v
    end; lia.
Qed.

Lemma parse_digits_uint (d : Decimal.uint) :
  parse_digits (NilEmpty.string_of_uint d) 0 = Z.of_N (Pos.of_uint d).
Proof.
  induction d as [|d IH|d IH|d IH|d IH|d IH|d IH|d IH|d IH|d IH|d IH];
    cbn [NilEmpty.string_of_uint Pos.of_uint]; [reflexivity|..];
    (erewrite parse_digits_cons by reflexivity);
    [exact IH|..]; apply parse_digits_acc.
Qed.

Lemma parse_digits_stop (rest : string) (acc : Z) :
  starts_with_digit rest = false -> parse_digits rest acc = acc.
Proof.
  destruct rest as [|c r]; [reflexivity|]. cbn.
  destruct (digit_value c); [discriminate|reflexivity].
Qed.

Lemma parse_digits_app_uint (d : Decimal.uint) (rest : string) :
  starts_with_digit rest = false ->
  forall acc : Z,
    parse_digits (NilEmpty.string_of_uint d ++ rest) acc =
    parse_digits (NilEmpty.string_of_uint d) acc.
Proof.
  intros Hr.
  induction d as [|d IH|d IH|d IH|d IH|d IH|d IH|d IH|d IH|d IH|d IH];
    intros acc; cbn [NilEmpty.string_of_uint String.append];
    [now apply parse_digits_stop|..];
    (erewrite !parse_digits_cons by reflexivity); apply IH.
Qed.

(** The text of a positive number starts with a digit. *)
Lemma strtol10_uint (d : Decimal.uint) :
  d <> Decimal.Nil ->
  skip_spaces (NilEmpty.string_of_uint d) = NilEmpty.string_of_uint d /\
  strtol10 (NilEmpty.string_of_uint d)
  = Z.max LONG_MIN (Z.min LONG_MAX (Z.of_N (Pos.of_uint d))).
Proof.
  intros Hd. rewrite <- parse_digits_uint.
  destruct d; [congruence|..]; split; reflexivity.
Qed.

Lemma strtol10_app_uint (d : Decimal.uint) (rest : string) :
  d <> Decimal.Nil ->
  starts_with_digit rest = false ->
  strtol10 (NilEmpty.string_of_uint d ++ rest) =
  strtol10 (NilEmpty.string_of_uint d).
Proof.
  intros Hd Hr.
  assert (E : forall s : string,
             s = NilEmpty.string_of_uint d \/
             s = (NilEmpty.string_of_uint d ++ rest)%string ->
             strtol10 s = Z.max LONG_MIN (Z.min LONG_MAX (parse_digits s 0))).
  { intros s [->| ->]; destruct d; try congruence; reflexivity. }
  rewrite !E by tauto. now rewrite parse_digits_app_uint.
Qed.

Lemma to_uint_not_nil (p : positive) : Pos.to_uint p <> Decimal.Nil.
Proof.
  intros E. pose proof (DecimalPos.Unsigned.of_to p) as H.
  rewrite E in H. discriminate.
Qed.

Lemma string_of_to_uint (p : positive) :
  NilZero.string_of_uint (Pos.to_uint p)
  = NilEmpty.string_of_uint (Pos.to_uint p).
Proof.
  pose proof (to_uint_not_nil p).
  destruct (Pos.to_uint p); congruence || reflexivity.
Qed.

(** [strtol] on the decimal text of an integer, whatever follows it. *)
Lemma strtol10_decimal (v : Z) (rest : string) :
  starts_with_digit rest = false ->
  strtol10 (printf_d v ++ rest) = Z.max LONG_MIN (Z.min LONG_MAX v).
Proof.
  intros Hr. unfold printf_d.
  destruct v as [|p|p]; cbn [Z.to_int NilZero.string_of_int].
  - change (NilZero.string_of_uint (Decimal.D0 Decimal.Nil) ++ rest)%string
      with (String "0" rest).
    unfold strtol10. cbn [skip_spaces].
    change (isspace "0") with false. cbv iota.
    erewrite parse_digits_cons by reflexivity.
    now rewrite parse_digits_stop.
  - rewrite string_of_to_uint.
    rewrite strtol10_app_uint by (assumption || apply to_uint_not_nil).
    destruct (strtol10_uint _ (to_uint_not_nil p)) as [_ ->].
    now rewrite DecimalPos.Unsigned.of_to.
  - rewrite string_of_to_uint.
    unfold strtol10. cbn [String.append skip_spaces].
    change (isspace "-") with false. cbv iota.
    rewrite parse_digits_app_uint by assumption.
    now rewrite parse_digits_uint, DecimalPos.Unsigned.of_to.
Qed.

Lemma append_empty (s : string) : (s ++ EmptyString)%string = s.
Proof. induction s as [|c s IH]; cbn; congruence. Qed.

(** [atoi] on the decimal text of an integer: the integer held to the
    range of [long] and truncated to 32 bits. *)
Lemma atoi_decimal (v : Z) (rest : string) :
  starts_with_digit rest = false ->
  atoi (printf_d v ++ rest) = to_int (Z.max LONG_MIN (Z.min LONG_MAX v)).
Proof. intros Hr. unfold atoi. now rewrite strtol10_decimal. Qed.

(** [atoi] reads back what [%d] prints. *)
Lemma atoi_printf_d (v : Z) :
  - INT_MAX - 1 <= v <= INT_MAX -> atoi (printf_d v) = v.
Proof.
  intros Hv. rewrite <- (append_empty (printf_d v)).
  rewrite atoi_decimal by reflexivity.
  unfold INT_MAX, LONG_MAX, LONG_MIN in *.
  rewrite Z.min_r, Z.max_r by lia.
  unfold to_int. rewrite Z.mod_small by lia. lia.
Qed.

(** [atoi] stops at the first character that is not a digit. *)
Lemma atoi_trailing_text (v : Z) (rest : string) :
  1 <= v <= INT_MAX ->
  starts_with_digit rest = false ->
  atoi (printf_d v ++ rest) = v.
Proof.
  intros Hv Hr. rewrite atoi_decimal by assumption.
  unfold INT_MAX, LONG_MAX, LONG_MIN in *.
  rewrite Z.min_r, Z.max_r by lia.
  unfold to_int. rewrite Z.mod_small by lia. lia.
Qed.

Lemma parse_digits_none (s : string) :
  match s with
  | String c _ => digit_value c = None
  | EmptyString => True
  end -> parse_digits s 0 = 0.
Proof. destruct s as [|c r]; [reflexivity|]. simpl. now intros ->. Qed.

Lemma atoi_unparseable (s : string) : has_number s = false -> atoi s = 0.
Proof.
  unfold has_number, atoi, strtol10.
  destruct (skip_spaces s) as [|c r]; [reflexivity|].
  intros H.
  assert (E : match (String c r) with
              | String "-" r => - parse_digits r 0
              | String "+" r => parse_digits r 0
              | r => parse_digits r 0
              end = 0).
  { destruct (Ascii.eqb_spec c "-") as [->|Hm];
      [|destruct (Ascii.eqb_spec c "+") as [->|Hp]].
    - simpl in H. rewrite parse_digits_none; [reflexivity|].
      destruct r as [|c' r']; [exact I|]. destruct (digit_value c'); congruence.
    - simpl in H. rewrite parse_digits_none; [reflexivity|].
      destruct r as [|c' r']; [exact I|]. destruct (digit_value c'); congruence.
    - simpl in H.
      assert (Hd : digit_value c = None) by (destruct (digit_value c); congruence).
      transitivity (parse_digits (String c r) 0).
      + destruct c as [[] [] [] [] [] [] [] []]; try reflexivity; congruence.
      + simpl. now rewrite Hd. }
  rewrite E. reflexivity.
Qed.

Lemma to_int_range (z : Z) : - INT_MAX - 1 <= to_int z <= INT_MAX.
Proof.
  unfold to_int, INT_MAX.
  change (2 ^ 31) with 2147483648. change (2 ^ 32) with 4294967296.
  pose proof (Z.mod_pos_bound (z + 2147483648) 4294967296 ltac:(lia)). lia.
Qed.

End Atoi.

(** The [case 'r'] of the [switch]. *)
Lemma handle_repetitions {W P : Type} (sev : collaborators W)
    (st : main_state W P) :
  handle_option sev (chr "r") st =
  if atoi (optarg (gv st)) <=? 0 then
    Continue (mkState (gv st) 1 (output_folder st) (cmd_ret st) (world st)
                (out st ++ [Text ("Error: Invalid repetitions value "
                                  ++ printf_d (atoi (optarg (gv st)))
                                  ++ ". Using default." ++ nl)]))
  else
    Continue (mkState (gv st) (atoi (optarg (gv st))) (output_folder st)
                (cmd_ret st) (world st) (out st)).
Proof. reflexivity. Qed.

(** C8, as stated, fails for values outside the range of [int], which
    [atoi] truncates to 32 bits: the positive integer 4294967297 is not
    accepted as given, the count becomes 1 without any warning; the
    positive integer 2147483648 is rejected with the warning, as
    -2147483648; and the negative integer -4294967295 is accepted, as the
    count 1, without any warning. *)
Lemma C8_counterexample :
  (atoi "4294967297" = 1
   /\ effective_count "4294967297" = 1
   /\ count_warning "4294967297" = [])
  /\ (atoi "2147483648" = -2147483648
      /\ effective_count "2147483648" = 1
      /\ count_warning "2147483648" =
         [Text ("Error: Invalid repetitions value -2147483648. Using default."
                ++ nl)])
  /\ (atoi "-4294967295" = 1
      /\ effective_count "-4294967295" = 1
      /\ count_warning "-4294967295" = [])
  /\ (let st := snd (sevtool (Mock.sev Mock.all_succeed)
                       ["sevtool"; "--repetitions"; "4294967297"] []) in
      repetitions st = 1 /\ out st = [Text (classify 65535)])
  /\ (let st := snd (sevtool (Mock.sev Mock.all_succeed)
                       ["sevtool"; "--repetitions"; "-4294967295"] []) in
      repetitions st = 1 /\ out st = [Text (classify 65535)]).
Proof. repeat split; reflexivity. Qed.

(** C8, amended.  The value given to the repetition-count flag is read
    with [atoi]: the decimal number the text starts with (after white
    space and a sign), held to the range of [long] and truncated to the 32
    bits of [int]; 0 when the text starts with no number; whatever follows
    the number is ignored.  When that reading is not positive the warning
    is printed with it, the count becomes 1 and the option loop goes on;
    when it is positive the count becomes the reading, nothing is printed
    and the loop goes on.  So the text of an integer [v] within the range
    of [int] gives the warning and the count 1 for [v <= 0], and the count
    [v] for [v > 0]. *)
Theorem C8_repetitions_flag :
  forall (W P : Type) (sev : collaborators W) (st : main_state W P),
    let value := atoi (optarg (gv st)) in
    (value <= 0 ->
     handle_option sev (chr "r") st =
     Continue (mkState (gv st) 1 (output_folder st) (cmd_ret st) (world st)
                 (out st ++ [Text ("Error: Invalid repetitions value "
                                   ++ printf_d value
                                   ++ ". Using default." ++ nl)])))
    /\ (0 < value ->
        handle_option sev (chr "r") st =
        Continue (mkState (gv st) value (output_folder st) (cmd_ret st)
                    (world st) (out st)))
    /\ - INT_MAX - 1 <= value <= INT_MAX
    /\ (has_number (optarg (gv st)) = false -> value = 0)
    /\ (forall (v : Z) (rest : string),
           starts_with_digit rest = false ->
           optarg (gv st) = (printf_d v ++ rest)%string ->
           value = to_int (Z.max LONG_MIN (Z.min LONG_MAX v))
           /\ (- INT_MAX - 1 <= v <= INT_MAX -> value = v)).
Proof.
  intros W P sev st value.
  pose proof (handle_repetitions sev st) as E. fold value in E.
  repeat split.
  - intros H. rewrite E.
    replace (value <=? 0) with true by (symmetry; apply Z.leb_le; lia).
    reflexivity.
  - intros H. rewrite E.
    replace (value <=? 0) with false by (symmetry; apply Z.leb_gt; lia).
    reflexivity.
  - apply to_int_range.
  - apply to_int_range.
  - apply atoi_unparseable.
  - unfold value. rewrite H0. now apply atoi_decimal.
  - intros Hv. unfold value. rewrite H0, atoi_decimal by assumption.
    unfold INT_MAX, LONG_MAX, LONG_MIN in *.
    rewrite Z.min_r, Z.max_r by lia.
    unfold to_int. rewrite Z.mod_small by lia. lia.
Qed.

Lemma C8_repetitions_flag_witness :
  handle_option (Mock.sev Mock.all_succeed) (chr "r")
    (mkState (mkGetopt 3 "abc" 0 ["sevtool"; "-r"; "abc"] 0 (settled_at 1))
       7 "./" 65535 [] [])
  = Continue (mkState (mkGetopt 3 "abc" 0 ["sevtool"; "-r"; "abc"] 0
                         (settled_at 1))
                1 "./" 65535 []
                [Text ("Error: Invalid repetitions value 0. Using default." ++ nl)])
  /\ handle_option (Mock.sev Mock.all_succeed) (chr "r")
       (mkState (mkGetopt 3 "25" 0 ["sevtool"; "-r"; "25"] 0 (settled_at 1))
          7 "./" 65535 [] [])
     = Continue (mkState (mkGetopt 3 "25" 0 ["sevtool"; "-r"; "25"] 0
                            (settled_at 1))
                   25 "./" 65535 [] []).
Proof.
  split.
  - destruct (C8_repetitions_flag _ _ (Mock.sev Mock.all_succeed)
                (mkState (mkGetopt 3 "abc" 0 ["sevtool"; "-r"; "abc"] 0
                            (settled_at 1)) 7 "./" 65535 [] [])) as (H & _).
    apply H. vm_compute. discriminate.
  - destruct (C8_repetitions_flag _ _ (Mock.sev Mock.all_succeed)
                (mkState (mkGetopt 3 "25" 0 ["sevtool"; "-r"; "25"] 0
                            (settled_at 1)) 7 "./" 65535 [] [])) as (_ & H & _).
    apply H. reflexivity.
Defined.

(** ** The final classification *)

Section Trace.

Context {W P : Type}.
Variable sev : collaborators W.
Variable getopt_long : getopt_vars P -> Z * getopt_vars P.

Lemma modifier_keeps_status (c : Z) (st st' : main_state W P) :
  modifier_code c = true ->
  handle_option sev c st = Continue st' -> cmd_ret st' = cmd_ret st.
Proof.
  unfold modifier_code. intros H.
  repeat (apply orb_true_iff in H; destruct H as [H|H]);
    apply Z.eqb_eq in H; subst c.
  - intros E. change (handle_option sev 0 st) with (Continue st) in E.
    now injection E as <-.
  - intros E. change (handle_option sev 1 st) with (Continue st) in E.
    now injection E as <-.
  - rewrite handle_repetitions.
    destruct (atoi (optarg (gv st)) <=? 0); intros E; now injection E as <-.
  - unfold handle_option. cbn [code_is].
    change (chr "o" =? chr "h") with false. change (chr "o" =? chr "H") with false.
    change (chr "o" =? chr "i") with false. change (chr "o" =? chr "I") with false.
    change (chr "o" =? chr "o") with true. cbn [orb].
    destruct (execute_system_command sev _ (world st)) as [[ok output] w'].
    destruct (negb ok); [discriminate|].
    destruct (negb _); [discriminate|].
    intros E. now injection E as <-.
  - unfold handle_option. cbn [code_is].
    change (chr "O" =? chr "h") with false. change (chr "O" =? chr "H") with false.
    change (chr "O" =? chr "i") with false. change (chr "O" =? chr "I") with false.
    change (chr "O" =? chr "o") with false. change (chr "O" =? chr "O") with true.
    cbn [orb].
    destruct (execute_system_command sev _ (world st)) as [[ok output] w'].
    destruct (negb ok); [discriminate|].
    destruct (negb _); [discriminate|].
    intros E. now injection E as <-.
Qed.

(** Only an operation-selecting option changes the status. *)
Lemma status_survives_modifiers (fuel : nat) :
  forall st st' : main_state W P,
    option_loop sev getopt_long fuel st = (Done, st') ->
    forallb modifier_code (codes_seen sev getopt_long fuel st) = true ->
    cmd_ret st' = cmd_ret st.
Proof.
  induction fuel as [|fuel IH]; intros st st'; [discriminate|].
  rewrite option_loop_step. cbn [codes_seen].
  destruct (getopt_long (gv st)) as [c g']. cbv zeta.
  destruct (c =? -1).
  - intros E _. now injection E as <-.
  - match goal with
    | |- context [handle_option sev c ?s] =>
        destruct (handle_option sev c s) as [st2|code st2|st2] eqn:E
    end; try discriminate.
    intros HL HM. cbn [forallb] in HM. apply andb_true_iff in HM.
    destruct HM as [Hc HM].
    rewrite (IH _ _ HL HM).
    now rewrite (modifier_keeps_status _ _ _ Hc E).
Qed.

End Trace.

(** ** What the runner prints *)

Section RunnerOutput.

Context {W : Type}.
Variable func : @repeatable W.

Lemma repetition_loop_output (remaining : nat) :
  forall (measurements : list double) (w : W) (out : list out_item),
    snd (repetition_loop func remaining 0 measurements w out) =
    out ++ failure_line
             (fst (fst (fst (repetition_loop func remaining 0 measurements w out)))).
Proof.
  induction remaining as [|remaining IH]; intros measurements w out.
  - cbn. now rewrite app_nil_r.
  - cbn [repetition_loop].
    destruct (func measurements w) as [[ret measurements'] w'].
    destruct (Z.eqb_spec ret 0) as [->|Hret].
    + apply IH.
    + cbn [fst snd]. unfold failure_line, classify.
      replace (ret =? 0) with false by (symmetry; now apply Z.eqb_neq).
      reflexivity.
Qed.

Lemma repetition_cycle_output (N : Z) (w : W) :
  snd (repetition_cycle func N w) =
  failure_line (fst (fst (fst (repetition_cycle func N w)))).
Proof. unfold repetition_cycle. now rewrite repetition_loop_output. Qed.

Lemma perform_output (N : Z) (w : W) :
  0 <= N ->
  match perform_repetitions_and_analysis func N w with
  | (Some ret, _, o) =>
      ret = fst (fst (fst (repetition_cycle func N w))) /\
      exists s,
        summarize (snd (fst (fst (repetition_cycle func N w)))) = Some s /\
        o = failure_line ret ++ print_statistics s
  | (None, _, o) =>
      summarize (snd (fst (fst (repetition_cycle func N w)))) = None /\
      o = failure_line (fst (fst (fst (repetition_cycle func N w))))
  end.
Proof.
  intros HN. unfold perform_repetitions_and_analysis.
  replace (N <? 0) with false by (symmetry; apply Z.ltb_ge; lia).
  pose proof (repetition_cycle_output N w) as Ho.
  destruct (repetition_cycle func N w) as [[[ret ms] w'] o].
  cbn [fst snd] in *.
  destruct (summarize ms) as [s|].
  - split; [reflexivity|]. exists s. now rewrite Ho.
  - now split.
Qed.

End RunnerOutput.

Section Aborts.

Context {W P : Type}.
Variable sev : collaborators W.

Lemma positional_returns (st : main_state W P) (k : nat) (msg : string)
    (body : main_state W P -> list string -> step W P)
    (code : Z) (st' : main_state W P) :
  positional st k msg body = Return code st' ->
  out st' = out st ++ [Text msg] \/
  exists st1 args, body st1 args = Return code st'.
Proof.
  unfold positional.
  destruct (negb _).
  - intros H. injection H as _ <-. now left.
  - match goal with
    | |- context [match ?r with Some _ => _ | None => _ end] => destruct r
    end; [|discriminate].
    intros H. right. eauto.
Qed.

(** A [return] inside the [switch] comes right after one of the
    diagnostics. *)
Lemma handle_option_returns (c : Z) (st st' : main_state W P) (code : Z) :
  handle_option sev c st = Return code st' ->
  exists line, abort_line line /\ out st' = out st ++ [line].
Proof.
  assert (Arity : forall msg : string,
             (exists (c' : Z) (k : nat),
                 In (c', k, msg) positional_operations) ->
             out st' = out st ++ [Text msg] ->
             exists line, abort_line line /\ out st' = out st ++ [line]).
  { intros msg (c' & k & Hin) Ho. exists (Text msg). split; [|exact Ho].
    left. now exists c', k, msg. }
  unfold handle_option.
  repeat match goal with
         | |- (if ?b then _ else _) = _ -> _ => destruct b
         | |- (let '(_, _) := ?p in _) = _ -> _ => destruct p
         end;
    try discriminate;
    try (intros H; exfalso; exact (repeated_never_returns _ _ _ _ H));
    try (intros H;
         match type of H with
         | single_shot ?s ?m = _ =>
             destruct (single_shot_continues s m) as [? E];
             rewrite E in H; discriminate
         end);
    try (intros H; injection H as _ <-; eexists; split; [|reflexivity];
         first [ right; left; eexists; left; reflexivity
               | right; left; eexists; right; reflexivity
               | right; right; eexists; reflexivity ]);
    intros H; apply positional_returns in H;
    (destruct H as [H|(st1 & args & H)];
     [ refine (Arity _ _ H); do 2 eexists; cbn [positional_operations In];
       repeat (first [left; reflexivity | right])
     | exfalso;
       first [ exact (repeated_never_returns _ _ _ _ H)
             | match type of H with
               | single_shot ?s ?m = _ =>
                   destruct (single_shot_continues s m) as [? E];
                   rewrite E in H; discriminate
               end ] ]).
Qed.

(** None of the diagnostics is a line of the classification. *)
Lemma abort_line_is_no_status (line : out_item) :
  abort_line line -> forall v : Z, line <> Text (classify v).
Proof.
  assert (First : forall v : Z, String.get 0 (classify v) = Some "010"%char).
  { intros v. unfold classify.
    destruct (v =? 0); [reflexivity|]. destruct (v =? 65535); reflexivity. }
  intros [(c & k & msg & Hin & ->)|[(folder & [-> | ->])|(c & ->)]] v E;
    try discriminate;
    injection E as E; apply (f_equal (String.get 0)) in E;
    rewrite First in E; try discriminate.
  cbn [positional_operations In] in Hin.
  repeat (destruct Hin as [Hin|Hin];
          [injection Hin as _ _ <-; discriminate|]).
  contradiction.
Qed.

Variable getopt_long : getopt_vars P -> Z * getopt_vars P.

(** When the loop is left by a [return], the last thing written is a
    diagnostic. *)
Lemma option_loop_returns (fuel : nat) :
  forall (st st' : main_state W P) (code : Z),
    option_loop sev getopt_long fuel st = (Returned code, st') ->
    exists earlier line, abort_line line /\ out st' = earlier ++ [line].
Proof.
  induction fuel as [|fuel IH]; intros st st' code; [discriminate|].
  rewrite option_loop_step.
  destruct (getopt_long (gv st)) as [c g']. cbv zeta.
  destruct (c =? -1); [discriminate|].
  match goal with
  | |- context [handle_option sev c ?s] =>
      destruct (handle_option sev c s) as [st2|code2 st2|st2] eqn:E
  end.
  - apply IH.
  - intros H. injection H as _ <-.
    destruct (handle_option_returns _ _ _ _ E) as (line & Hl & Ho).
    eauto.
  - discriminate.
Qed.

End Aborts.

(** C6, as stated, fails in three ways.  The classification is not
    applied on every run: after [--get_ask_ark --bogus] the operation has
    run, with status 5, and the only line written is the diagnostic of the
    option that is not recognised.  The line is not always printed once:
    a repeatable operation that fails, here [--platform_status] with
    status 5, gets it from the runner and again from [main].  And [%02x]
    gives at least, not exactly, two digits: 300 is printed as 12c. *)
Lemma C6_counterexample :
  sevtool (Mock.sev (fun _ => 5)) ["sevtool"; "--get_ask_ark"; "--bogus"] []
  = (Returned 0,
     mkState
       (mkGetopt 3 EmptyString 0 ["sevtool"; "--get_ask_ark"; "--bogus"] 0
          (settled_at 2))
       1 "./" 5 ["get_ask_ark"]
       [Err ("Unrecognised option: -" ++ printf_c 0 ++ nl)])
  /\ out (snd (sevtool (Mock.sev (fun _ => 5)) ["sevtool"; "--platform_status"]
                 []))
     = [ Text (classify 5);
         Num "Min: " 1; Num "First Quartile (Q1): " 1; Num "Median: " 1;
         Num "Third Quartile (Q3): " 1; Num "Max: " 1;
         Cnt "Number of measurements: " 1%nat; Num "Average: " 1;
         Num "Standard Deviation: " 0; Num "Variance: " 0;
         Text (classify 5) ]%float
  /\ classify 300 = (nl ++ "Command Unsuccessful: 0x12c" ++ nl)%string.
Proof. repeat split; reflexivity. Qed.

(** C6, amended.  The classification is a function of the status: 0 gives
    "Command Successful", 0xFFFF gives "Command not supported/recognized.
    Possibly bad formatting", every other value [v] gives "Command
    Unsuccessful: 0x" followed by [v] as [%02x] prints it, in at least two
    digits (5 as 05, 300 as 12c).  When the option loop runs to its end,
    whatever ran in it, [main] prints that line for the status the loop
    left, as the last thing before [return 0]; and that status
    is still the initial 0xFFFF when every option the loop saw was a
    modifier.  When [main] returns from inside the [switch] (a wrong
    number of arguments, an output folder that fails its check, an option
    that is not recognised) it returns 0 as well, and the last thing
    written is the diagnostic, which is no line of the classification:
    the status of what ran before is not reported.  The runner of a
    repeatable operation prints the same line itself when the cycle ends
    on a status other than 0, before the statistics, so that this line is
    then printed twice. *)
Theorem C6_final_classification :
  classify 0 = (nl ++ "Command Successful" ++ nl)%string
  /\ classify 65535 =
     (nl ++ "Command not supported/recognized. Possibly bad formatting"
         ++ nl)%string
  /\ (forall v : Z,
         v <> 0 -> v <> 65535 ->
         classify v = (nl ++ "Command Unsuccessful: 0x" ++ printf_02x v ++ nl)%string)
  /\ (printf_02x 5 = "05" /\ printf_02x 255 = "ff" /\ printf_02x 300 = "12c")
  /\ (forall (W P : Type) (sev : collaborators W)
             (getopt_long : getopt_vars P -> Z * getopt_vars P)
             (fuel : nat) (args : list string) (p0 : P) (w : W)
             (st : main_state W P),
         option_loop sev getopt_long fuel (initial_state args p0 w) = (Done, st) ->
         main sev getopt_long fuel args p0 w =
         (Returned 0,
          mkState (gv st) (repetitions st) (output_folder st) (cmd_ret st)
            (world st) (out st ++ [Text (classify (cmd_ret st))]))
         /\ (forallb modifier_code
               (codes_seen sev getopt_long fuel (initial_state args p0 w)) = true ->
             cmd_ret st = 65535))
  /\ (forall (W P : Type) (sev : collaborators W)
             (getopt_long : getopt_vars P -> Z * getopt_vars P)
             (fuel : nat) (args : list string) (p0 : P) (w : W)
             (st : main_state W P) (code : Z),
         option_loop sev getopt_long fuel (initial_state args p0 w)
         = (Returned code, st) ->
         main sev getopt_long fuel args p0 w = (Returned 0, st)
         /\ exists (earlier : list out_item) (line : out_item),
              out st = earlier ++ [line]
              /\ abort_line line
              /\ forall v : Z, line <> Text (classify v))
  /\ (forall (W : Type) (func : @repeatable W) (N ret : Z) (w w' : W)
             (o : list out_item),
         0 <= N ->
         perform_repetitions_and_analysis func N w = (Some ret, w', o) ->
         exists s : statistics, o = failure_line ret ++ print_statistics s).
Proof.
  split; [reflexivity|]. split; [reflexivity|].
  split.
  { intros v H0 H1. unfold classify.
    destruct (Z.eqb_spec v 0); [contradiction|].
    destruct (Z.eqb_spec v 65535); [contradiction|]. reflexivity. }
  split; [repeat split; reflexivity|].
  split; [|split].
  - intros W P sev getopt_long fuel args p0 w st HL. split.
    + unfold main. rewrite HL. reflexivity.
    + intros HM.
      now rewrite (status_survives_modifiers sev getopt_long fuel _ _ HL HM).
  - intros W P sev getopt_long fuel args p0 w st code HL. split.
    + unfold main. rewrite HL.
      now rewrite (option_loop_return_zero sev getopt_long fuel _ _ _ HL).
    + destruct (option_loop_returns sev getopt_long fuel _ _ _ HL)
        as (earlier & line & Hl & Ho).
      exists earlier, line. split; [exact Ho|]. split; [exact Hl|].
      now apply abort_line_is_no_status.
  - intros W func N ret w w' o HN E.
    pose proof (perform_output func N w HN) as H. rewrite E in H.
    destruct H as (_ & s & _ & Ho). now exists s.
Qed.

Lemma C6_final_classification_witness :
  sevtool (Mock.sev Mock.all_succeed) ["sevtool"; "--verbose"; "-r"; "3"] []
  = (Returned 0,
     mkState
       (mkGetopt 4 EmptyString 0 ["sevtool"; "--verbose"; "-r"; "3"] 1
          (settled_at 4))
       3 "./" 65535 [] [Text (classify 65535)])
  /\ exists (earlier : list out_item) (line : out_item),
       out (snd (sevtool (Mock.sev (fun _ => 5))
                   ["sevtool"; "--get_ask_ark"; "--bogus"] []))
       = earlier ++ [line]
       /\ abort_line line
       /\ forall v : Z, line <> Text (classify v).
Proof.
  destruct C6_final_classification as (_ & _ & _ & _ & H & H' & _).
  split.
  - destruct (H _ _ (Mock.sev Mock.all_succeed) Getopt.getopt_long
                (Getopt.fuel_for ["sevtool"; "--verbose"; "-r"; "3"])
                ["sevtool"; "--verbose"; "-r"; "3"] Getopt.start []
                (mkState
                   (mkGetopt 4 EmptyString 0
                      ["sevtool"; "--verbose"; "-r"; "3"] 1 (settled_at 4))
                   3 "./" 65535 [] []))
      as [Hmain Hstatus].
    + reflexivity.
    + unfold sevtool. rewrite Hmain. reflexivity.
  - destruct (H' _ _ (Mock.sev (fun _ => 5)) Getopt.getopt_long
                (Getopt.fuel_for ["sevtool"; "--get_ask_ark"; "--bogus"])
                ["sevtool"; "--get_ask_ark"; "--bogus"] Getopt.start []
                (snd (sevtool (Mock.sev (fun _ => 5))
                        ["sevtool"; "--get_ask_ark"; "--bogus"] []))
                0)
      as [_ Hlast].
    + reflexivity.
    + exact Hlast.
Defined.

(** ** What the [switch] does to the variables of [getopt_long] *)

Section GetoptVars.

Context {W P : Type}.
Variable sev : collaborators W.

Lemma single_shot_gv (st st' : main_state W P)
    (method : string -> Z -> W -> Z * W) :
  single_shot st method = Continue st' -> gv st' = gv st.
Proof.
  unfold single_shot.
  destruct (method (output_folder st) (verbose_flag (gv st)) (world st)).
  intros E. now injection E as <-.
Qed.

Lemma repeated_gv (st st' : main_state W P) (func : @repeatable W) :
  repeated st func = Continue st' -> gv st' = gv st.
Proof.
  unfold repeated.
  destruct (perform_repetitions_and_analysis func (repetitions st) (world st))
    as [[[ret|] w'] o]; [|discriminate].
  intros E. now injection E as <-.
Qed.

Lemma positional_continue (st st' : main_state W P) (k : nat) (msg : string)
    (body : main_state W P -> list string -> step W P) :
  positional st k msg body = Continue st' ->
  exists args,
    body (with_optind (with_optind st (optind (gv st) - 1))
            (optind (gv st) - 1 + Z.of_nat k)) args = Continue st'.
Proof.
  unfold positional. destruct (negb _); [discriminate|].
  match goal with
  | |- context [match ?r with Some _ => _ | None => _ end] => destruct r
  end; [|discriminate].
  eauto.
Qed.

(** The [switch] never touches [argv] or what [getopt_long] keeps, and
    moves [optind] forward only, past the positional arguments. *)
Lemma handle_option_advances (c : Z) (st st' : main_state W P) :
  handle_option sev c st = Continue st' ->
  argv (gv st') = argv (gv st) /\ parser (gv st') = parser (gv st) /\
  optind (gv st) <= optind (gv st') /\
  (positional_code c = false -> gv st' = gv st).
Proof.
  assert (Same : forall s : main_state W P,
             gv s = gv st ->
             argv (gv s) = argv (gv st) /\ parser (gv s) = parser (gv st) /\
             optind (gv st) <= optind (gv s) /\
             (positional_code c = false -> gv s = gv st)).
  { intros s ->. repeat split; trivial. lia. }
  assert (Moved : forall (k : nat) (s : main_state W P),
             (1 <= k)%nat -> positional_code c = true ->
             gv s = set_optind (set_optind (gv st) (optind (gv st) - 1))
                      (optind (gv st) - 1 + Z.of_nat k) ->
             argv (gv s) = argv (gv st) /\ parser (gv s) = parser (gv st) /\
             optind (gv st) <= optind (gv s) /\
             (positional_code c = false -> gv s = gv st)).
  { intros k s Hk Hc ->. repeat split; simpl; try lia. congruence. }
  assert (Pos : forall a, code_is c a = true ->
                     In (chr a) (map (fun e => fst (fst e)) positional_operations) ->
                     positional_code c = true).
  { intros a Ha Hin. unfold positional_code. apply existsb_exists.
    apply in_map_iff in Hin. destruct Hin as (e & He & Hin).
    exists e. split; [assumption|]. rewrite He. exact Ha. }
  unfold handle_option.
  repeat match goal with
         | |- (if ?b then _ else _) = _ -> _ => destruct b eqn:?
         | |- (let '(_, _) := ?p in _) = _ -> _ => destruct p
         end;
    try discriminate;
    try (intros H; injection H as <-; apply Same; reflexivity);
    try (intros H; apply Same; first [exact (single_shot_gv _ _ _ H)
                                     |exact (repeated_gv _ _ _ H)]);
    intros H; apply positional_continue in H; destruct H as [args H];
    first [apply single_shot_gv in H | apply repeated_gv in H];
    (eapply Moved; [|eapply Pos; [eassumption|simpl; tauto]|exact H]); lia.
Qed.

End GetoptVars.

(** ** Command lines of options *)

Section Scanning.

Lemma arg_at_app (pre : list string) (x : string) (rest : list string) :
  arg_at (pre ++ x :: rest) (Z.of_nat (List.length pre)) = Some x.
Proof.
  unfold arg_at. rewrite length_app. simpl List.length.
  replace (0 <=? Z.of_nat (List.length pre)) with true
    by (symmetry; apply Z.leb_le; lia).
  replace (Z.of_nat (List.length pre)
           <? Z.of_nat (List.length pre + S (List.length rest))) with true
    by (symmetry; apply Z.ltb_lt; lia).
  simpl. rewrite Nat2Z.id, nth_error_app2 by lia.
  now rewrite Nat.sub_diag.
Qed.

Lemma arg_at_end (l : list string) :
  arg_at l (Z.of_nat (List.length l)) = None.
Proof.
  unfold arg_at. rewrite Z.ltb_irrefl, andb_false_r. reflexivity.
Qed.

Lemma skipn_pre (pre rest : list string) :
  skipn (Z.to_nat (Z.of_nat (List.length pre))) (pre ++ rest) = rest.
Proof.
  rewrite Nat2Z.id, skipn_app, Nat.sub_diag, skipn_all. reflexivity.
Qed.

Lemma long_options_table :
  Forall (fun o =>
            Getopt.split_eq (Getopt.name o) = (Getopt.name o, None) /\
            Getopt.find_long (Getopt.name o) = Some o /\
            Getopt.name o <> EmptyString /\
            Getopt.val o <> -1 /\
            (Getopt.has_arg o = Getopt.no_argument ->
             positional_code (Getopt.val o) = false))
    Getopt.long_options.
Proof.
  repeat constructor; try reflexivity; try discriminate.
Qed.

Lemma not_double_dash (n : string) :
  n <> EmptyString -> String.eqb (String "-" (String "-" n)) "--" = false.
Proof. destruct n; [congruence|reflexivity]. Qed.

(** A call in a settled state: nothing is moved, the non-options that
    come next are skipped. *)
Lemma advance_settled (g : Getopt.vars) :
  settled g -> optind g <> 0 ->
  Getopt.nextchar (parser (Getopt.enter g)) = EmptyString /\
  Getopt.advance (Getopt.enter g) =
  (let i' := optind g
             + Z.of_nat (Getopt.skipped (skipn (Z.to_nat (optind g)) (argv g))) in
   mkGetopt i' (optarg g) (optopt g) (argv g) (verbose_flag g)
     (Getopt.mkData true EmptyString (optind g) i'
        (Getopt.kept_optopt (parser g)))).
Proof.
  destruct g as [i a o args v [ini nc f l k]].
  unfold settled. cbn [parser optind argv optarg optopt verbose_flag
                       Getopt.nextchar Getopt.initialized Getopt.first_nonopt
                       Getopt.last_nonopt Getopt.kept_optopt].
  intros [-> Hs] Hi. unfold Getopt.enter.
  cbn [parser optind argv optarg optopt verbose_flag
       Getopt.nextchar Getopt.initialized Getopt.first_nonopt
       Getopt.last_nonopt Getopt.kept_optopt].
  destruct (Z.eqb_spec i 0) as [|_]; [contradiction|]. cbn [orb].
  destruct ini; cbn [negb]; (split; [reflexivity|]); unfold Getopt.advance;
    cbn [parser optind argv optarg optopt verbose_flag
         Getopt.nextchar Getopt.initialized Getopt.first_nonopt
         Getopt.last_nonopt Getopt.kept_optopt].
  - destruct Hs as [Hs|Hs]; [discriminate|]. subst l.
    rewrite Z.eqb_refl. cbn [negb andb].
    destruct (Z.eqb_spec (Z.min f i) i) as [->|_]; reflexivity.
  - rewrite Z.min_id, Z.eqb_refl. reflexivity.
Qed.

Lemma on_option_advance (g : Getopt.vars) :
  settled g -> optind g <> 0 ->
  Getopt.skipped (skipn (Z.to_nat (optind g)) (argv g)) = O ->
  Getopt.nextchar (parser (Getopt.enter g)) = EmptyString /\
  Getopt.advance (Getopt.enter g) = on_option g.
Proof.
  intros Hs Hi Hk. destruct (advance_settled g Hs Hi) as [Hn Ha].
  split; [exact Hn|]. rewrite Ha, Hk. cbv zeta.
  change (Z.of_nat 0) with 0. rewrite Z.add_0_r. reflexivity.
Qed.

(** In a settled state, at an item of the command line. *)
Lemma getopt_scans (g : Getopt.vars) (it : item) (pre rest : list string) :
  listed it ->
  argv g = pre ++ tokens it ++ rest ->
  optind g = Z.of_nat (List.length pre) ->
  pre <> [] ->
  settled g ->
  Getopt.getopt_long g = scan it g.
Proof.
  intros Hwf Hargv Hind Hpre Hs.
  assert (Hi : optind g <> 0) by (destruct pre; [congruence|simpl in Hind; lia]).
  assert (Hin : In (match it with Flag o | Setting o _ => o end)
                  Getopt.long_options)
    by (destruct it; exact (proj1 Hwf)).
  pose proof (proj1 (Forall_forall _ _) long_options_table _ Hin)
    as (Hsplit & Hfind & Hname & _).
  assert (Hk : Getopt.skipped (skipn (Z.to_nat (optind g)) (argv g)) = O).
  { rewrite Hargv, Hind, skipn_pre. now destruct it. }
  destruct (on_option_advance g Hs Hi Hk) as [Hn Ha].
  unfold Getopt.getopt_long. rewrite Hn. cbv zeta. rewrite Ha.
  change (argv (on_option g)) with (argv g).
  change (optind (on_option g)) with (optind g).
  destruct it as [o|o value]; simpl tokens in Hargv;
    simpl in Hsplit, Hfind, Hname;
    rewrite Hargv, Hind; simpl app; rewrite arg_at_app;
    rewrite (not_double_dash _ Hname);
    change (Ascii.eqb "-" "-") with true; cbv iota;
    unfold Getopt.long_scan; rewrite Hsplit, Hfind;
    destruct Hwf as (_ & Harg).
  - rewrite Harg. unfold scan.
    change (optind (on_option g)) with (optind g). reflexivity.
  - rewrite Harg.
    change (argv (on_option g)) with (argv g).
    change (optind (on_option g)) with (optind g).
    assert (Hv : arg_at (argv g) (optind g + 1) = Some value).
    { rewrite Hargv, Hind.
      replace (pre ++ [String "-" (String "-" (Getopt.name o)); value] ++ rest)
        with ((pre ++ [String "-" (String "-" (Getopt.name o))])
                ++ value :: rest)
        by (rewrite <- app_assoc; reflexivity).
      replace (Z.of_nat (List.length pre) + 1)
        with (Z.of_nat
                (List.length (pre ++ [String "-" (String "-" (Getopt.name o))])))
        by (rewrite length_app; simpl; lia).
      apply arg_at_app. }
    rewrite Hv. reflexivity.
Qed.

(** In a settled state, at the end of the command line. *)
Lemma getopt_ends (g : Getopt.vars) :
  settled g -> optind g <> 0 ->
  optind g = Z.of_nat (List.length (argv g)) ->
  Getopt.getopt_long g = (-1, at_end g).
Proof.
  intros Hs Hi Hind.
  assert (Hk : Getopt.skipped (skipn (Z.to_nat (optind g)) (argv g)) = O).
  { rewrite Hind, Nat2Z.id, skipn_all. reflexivity. }
  destruct (on_option_advance g Hs Hi Hk) as [Hn Ha].
  unfold Getopt.getopt_long. rewrite Hn. cbv zeta. rewrite Ha.
  change (argv (on_option g)) with (argv g).
  change (optind (on_option g)) with (optind g).
  rewrite Hind, arg_at_end. unfold at_end, Getopt.stop.
  cbn [on_option parser Getopt.first_nonopt Getopt.last_nonopt snd].
  now rewrite Z.eqb_refl.
Qed.

End Scanning.

Section LeftToRight.

Context {W : Type}.
Variable sev : collaborators W.

Lemma well_formed_listed (it : item) : well_formed it -> listed it.
Proof. destruct it; simpl; tauto. Qed.

Lemma scan_listed (it : item) (g : Getopt.vars) :
  listed it ->
  fst (scan it g) <> -1 /\
  argv (snd (scan it g)) = argv g /\
  settled (snd (scan it g)) /\
  optind (snd (scan it g)) = optind g + Z.of_nat (List.length (tokens it)) /\
  fst (scan it g) =
    (let o := match it with Flag o | Setting o _ => o end in
     if Getopt.flag o then 0 else Getopt.val o).
Proof.
  intros Hl.
  assert (Hin : In (match it with Flag o | Setting o _ => o end)
                  Getopt.long_options)
    by (destruct it; exact (proj1 Hl)).
  pose proof (proj1 (Forall_forall _ _) long_options_table _ Hin)
    as (_ & _ & _ & Hval & _).
  destruct it as [o|o value]; unfold scan, Getopt.deliver, settled;
    destruct (Getopt.flag o); simpl;
    repeat split; try discriminate; try assumption; try reflexivity;
    now right.
Qed.

Lemma scan_result (it : item) (g : Getopt.vars) :
  well_formed it ->
  fst (scan it g) <> -1 /\
  positional_code (fst (scan it g)) = false /\
  argv (snd (scan it g)) = argv g /\
  settled (snd (scan it g)) /\
  optind (snd (scan it g)) = optind g + Z.of_nat (List.length (tokens it)).
Proof.
  intros Hwf.
  destruct (scan_listed it g (well_formed_listed it Hwf))
    as (Hc & Ha & Hs & Ho & Hf).
  split; [exact Hc|].
  split; [|split; [exact Ha|split; [exact Hs|exact Ho]]].
  rewrite Hf.
  assert (Hin : In (match it with Flag o | Setting o _ => o end)
                  Getopt.long_options)
    by (destruct it; exact (proj1 Hwf)).
  pose proof (proj1 (Forall_forall _ _) long_options_table _ Hin)
    as (_ & _ & _ & _ & Hpos).
  destruct it as [o|o value]; cbv zeta; destruct (Getopt.flag o);
    try reflexivity.
  - apply Hpos. exact (proj2 Hwf).
  - exact (proj2 (proj2 Hwf)).
Qed.

(** The option loop on a command line of well-formed items is their
    handling from left to right, and then the call that finds the end. *)
Lemma option_loop_items (items : list item) :
  forall (fuel : nat) (st : main_state W Getopt.data) (pre : list string),
    Forall well_formed items ->
    (List.length items < fuel)%nat ->
    argv (gv st) = pre ++ flat_map tokens items ->
    optind (gv st) = Z.of_nat (List.length pre) ->
    pre <> [] ->
    settled (gv st) ->
    option_loop sev Getopt.getopt_long fuel st =
    match run_items sev items st with
    | (Done, st') => (Done, with_gv st' (at_end (gv st')))
    | r => r
    end.
Proof.
  induction items as [|it items IH];
    intros fuel st pre Hwf Hfuel Hargv Hind Hpre Hs;
    (destruct fuel as [|fuel]; [simpl in Hfuel; lia|]);
    rewrite option_loop_step.
  - simpl in Hargv. rewrite app_nil_r in Hargv.
    rewrite getopt_ends; [reflexivity|assumption| |congruence].
    destruct pre; [congruence|simpl in Hind; lia].
  - inversion Hwf as [|? ? Hit Hrest]; subst.
    rewrite (getopt_scans (gv st) it pre (flat_map tokens items)
               (well_formed_listed it Hit) Hargv Hind Hpre Hs).
    cbn [run_items].
    destruct (scan_result it (gv st) Hit) as (Hc & Hp & Ha & Hn & Ho).
    destruct (scan it (gv st)) as [c g'] eqn:E. cbn [fst snd] in *.
    cbv zeta.
    destruct (Z.eqb_spec c (-1)) as [->|_]; [congruence|].
    fold (with_gv st g').
    destruct (handle_option sev c (with_gv st g')) as [st2|code st2|st2] eqn:Eh;
      try reflexivity.
    destruct (handle_option_advances sev c _ _ Eh) as (_ & _ & _ & Hgv).
    specialize (Hgv Hp). cbn [gv with_gv] in Hgv.
    apply (IH fuel st2 (pre ++ tokens it)); try assumption.
    + simpl in Hfuel. lia.
    + rewrite Hgv, Ha, Hargv. simpl. now rewrite app_assoc.
    + rewrite Hgv, Ho, Hind, length_app. lia.
    + destruct pre; [congruence|discriminate].
    + now rewrite Hgv.
Qed.

Lemma weight_ge_length (l : list string) :
  (List.length l <= Getopt.weight l)%nat.
Proof.
  unfold Getopt.weight.
  induction l as [|a l IH]; cbn [fold_right List.length]; lia.
Qed.

Lemma flat_map_tokens_length (items : list item) :
  (List.length items <= List.length (flat_map tokens items))%nat.
Proof.
  induction items as [|it items IH]; [reflexivity|].
  destruct it; simpl; lia.
Qed.

Lemma fuel_for_items (items : list item) (tail : list string) :
  (List.length items + List.length tail
   < Getopt.fuel_for ("sevtool" :: flat_map tokens items ++ tail))%nat.
Proof.
  unfold Getopt.fuel_for.
  pose proof (weight_ge_length ("sevtool" :: flat_map tokens items ++ tail))
    as H1.
  pose proof (flat_map_tokens_length items) as H2.
  cbn [List.length] in H1. rewrite length_app in H1. lia.
Qed.

Lemma initial_settled (args : list string) (w : W) :
  settled (gv (initial_state args Getopt.start w)).
Proof. split; [reflexivity|now left]. Qed.

(** The whole program on such a command line. *)
Lemma sevtool_items (items : list item) (w : W) :
  Forall well_formed items ->
  sevtool sev ("sevtool" :: flat_map tokens items) w =
  match run_items sev items
          (initial_state ("sevtool" :: flat_map tokens items) Getopt.start w)
  with
  | (Done, st) => finish st
  | r => r
  end.
Proof.
  intros Hwf. unfold sevtool, main.
  rewrite (option_loop_items items _ _ ["sevtool"] Hwf).
  - destruct (run_items sev items _) as [[| | |] st]; reflexivity.
  - pose proof (fuel_for_items items []) as H.
    rewrite app_nil_r in H. simpl in H. lia.
  - reflexivity.
  - reflexivity.
  - discriminate.
  - apply initial_settled.
Qed.







End LeftToRight.

(** ** Order of the options *)

Section Order.

Context {W : Type}.
Variable sev : collaborators W.


Lemma handle_get_ask_ark {P : Type} (st : main_state W P) :
  handle_option sev (chr "n") st = single_shot st (get_ask_ark sev).
Proof. reflexivity. Qed.



End Order.

Section OrderFacts.

Context {W : Type}.
Variable sev : collaborators W.
Variable w : W.






End OrderFacts.



(** ** The option loop ends *)

Section Termination.

Import Getopt.

Lemma weight_skipn_mono (l : list string) :
  forall n m : nat, (n <= m)%nat -> (weight (skipn m l) <= weight (skipn n l))%nat.
Proof.
  induction l as [|a l IH]; intros n m H.
  - rewrite !skipn_nil. lia.
  - destruct n as [|n], m as [|m]; try lia.
    + simpl skipn at 2. unfold weight at 2. cbn [fold_right]. fold (weight l).
      specialize (IH O m ltac:(lia)). simpl skipn in *. lia.
    + simpl skipn. apply IH. lia.
Qed.

Lemma weight_skipn_at (l : list string) (i : Z) (tok : string) :
  arg_at l i = Some tok ->
  weight (skipn (Z.to_nat i) l)
  = (S (String.length tok) + weight (skipn (Z.to_nat (i + 1)) l))%nat.
Proof.
  unfold arg_at.
  destruct (Z.leb_spec 0 i) as [H0|]; [|discriminate].
  destruct (i <? Z.of_nat (List.length l)); [|discriminate]. simpl.
  replace (Z.to_nat (i + 1)) with (S (Z.to_nat i)) by lia.
  generalize (Z.to_nat i) as n. clear.
  induction l as [|a l IH]; intros [|n] H; simpl in H; try discriminate.
  - injection H as ->. reflexivity.
  - simpl skipn. now apply IH.
Qed.

Lemma weight_skipn_next (l : list string) (i : Z) (k : Z) :
  0 <= k ->
  (weight (skipn (Z.to_nat (i + k)) l) <= weight (skipn (Z.to_nat i) l))%nat.
Proof. intros H. apply weight_skipn_mono. lia. Qed.

Lemma deliver_remaining (g : vars) (o : long_option) (next : Z) (arg : string) :
  remaining (snd (deliver g o next arg))
  = weight (skipn (Z.to_nat next) (argv g)).
Proof. unfold deliver. destruct (flag o); reflexivity. Qed.

Lemma reject_remaining (g : vars) (next opt : Z) :
  remaining (snd (reject g next opt)) = weight (skipn (Z.to_nat next) (argv g)).
Proof. reflexivity. Qed.

Lemma long_scan_bound (g : vars) (body : string) :
  (remaining (snd (long_scan g body))
   <= weight (skipn (Z.to_nat (optind g + 1)) (argv g)))%nat.
Proof.
  pose proof (weight_skipn_next (argv g) (optind g + 1) 1 ltac:(lia)) as H2.
  replace (optind g + 1 + 1) with (optind g + 2) in H2 by lia.
  unfold long_scan. destruct (split_eq body) as [nm value].
  destruct (find_long nm) as [o|]; [|rewrite reject_remaining; lia].
  destruct (has_arg o), value as [v|];
    try destruct (arg_at (argv g) (optind g + 1));
    rewrite ?deliver_remaining, ?reject_remaining; lia.
Qed.

Lemma short_scan_bound (g : vars) (c : ascii) (rest : string) :
  (remaining (snd (short_scan g c rest))
   <= String.length rest
      + weight (skipn (Z.to_nat (optind g + 1)) (argv g)))%nat.
Proof.
  pose proof (weight_skipn_next (argv g) (optind g + 1) 1 ltac:(lia)) as H2.
  replace (optind g + 1 + 1) with (optind g + 2) in H2 by lia.
  unfold short_scan.
  destruct (short_lookup c optstring) as [[|]|].
  - destruct rest as [|c' rest']; cbn [String.eqb negb].
    + destruct (arg_at (argv g) (optind g + 1)); unfold remaining; simpl; lia.
    + unfold remaining. simpl. lia.
  - destruct rest as [|c' rest']; unfold remaining; simpl; lia.
  - destruct rest as [|c' rest']; unfold remaining; simpl; lia.
Qed.

(** [exchange] leaves the tokens from [top] on where they are. *)
Lemma exchange_tail (args : list string) (bottom middle top : Z) :
  skipn (Z.to_nat top) (exchange args bottom middle top)
  = skipn (Z.to_nat top) args.
Proof.
  unfold exchange.
  destruct (Z.leb_spec 0 bottom) as [H0|]; [|reflexivity].
  destruct (Z.ltb_spec bottom middle) as [H1|]; [|reflexivity].
  destruct (Z.ltb_spec middle top) as [H2|]; [|reflexivity].
  destruct (Z.leb_spec top (Z.of_nat (List.length args))) as [H3|];
    [|reflexivity].
  cbn [andb]. rewrite !app_assoc.
  rewrite skipn_app.
  assert (L : List.length
                ((firstn (Z.to_nat bottom) args ++ segment args middle top)
                   ++ segment args bottom middle) = Z.to_nat top).
  { unfold segment. rewrite !length_app, !length_firstn, !length_skipn. lia. }
  rewrite L, Nat.sub_diag. cbn [skipn].
  rewrite skipn_all2 by lia. reflexivity.
Qed.

Lemma advance_remaining (g : vars) :
  (weight (skipn (Z.to_nat (optind (advance g))) (argv (advance g)))
   <= weight (skipn (Z.to_nat (optind g)) (argv g)))%nat.
Proof.
  unfold advance. cbv zeta. cbn [optind argv].
  match goal with
  | |- context [if ?b then exchange ?a ?x ?y ?z else _] =>
      assert (E : skipn (Z.to_nat (optind g))
                    (if b then exchange a x y z else argv g)
                  = skipn (Z.to_nat (optind g)) (argv g))
        by (destruct b; [apply exchange_tail|reflexivity]);
      set (args := if b then exchange a x y z else argv g) in *
  end.
  rewrite <- E. apply weight_skipn_mono. lia.
Qed.

Lemma enter_remaining (g : vars) :
  nextchar (parser g) = EmptyString ->
  nextchar (parser (enter g)) = EmptyString /\
  (weight (skipn (Z.to_nat (optind (enter g))) (argv (enter g)))
   <= weight (skipn (Z.to_nat (optind g)) (argv g)))%nat.
Proof.
  intros Hn. unfold enter.
  destruct ((optind g =? 0) || negb (initialized (parser g)));
    cbn [parser nextchar optind argv]; [|now split].
  split; [reflexivity|].
  destruct (Z.eqb_spec (optind g) 0) as [->|_]; [|lia].
  apply weight_skipn_mono. lia.
Qed.

Lemma enter_nextchar (g : vars) (c : ascii) (rest : string) :
  nextchar (parser (enter g)) = String c rest -> enter g = g.
Proof.
  unfold enter.
  destruct ((optind g =? 0) || negb (initialized (parser g)));
    [discriminate|reflexivity].
Qed.

Lemma enter_sound (g : vars) :
  sound g -> 1 <= optind (enter g) /\
  (nextchar (parser g) <> EmptyString -> enter g = g).
Proof.
  intros [H0 Hn]. unfold enter. split.
  - destruct (Z.eqb_spec (optind g) 0) as [E|E];
      destruct (initialized (parser g)); cbn; lia.
  - intros Hc. destruct (Hn Hc) as [-> Hi].
    destruct (Z.eqb_spec (optind g) 0); [contradiction|reflexivity].
Qed.

Lemma advance_optind (g : vars) : optind g <= optind (advance g).
Proof. unfold advance. cbn [optind]. lia. Qed.

Lemma long_scan_vars (g : vars) (body : string) :
  optind g + 1 <= optind (snd (long_scan g body)) /\
  initialized (parser (snd (long_scan g body))) = true.
Proof.
  unfold long_scan. destruct (split_eq body) as [nm value].
  destruct (find_long nm) as [o|]; [|split; [cbn; lia|reflexivity]].
  unfold deliver, reject.
  destruct (has_arg o), value as [v|];
    try destruct (arg_at (argv g) (optind g + 1));
    destruct (flag o); cbn; split; try reflexivity; lia.
Qed.

Lemma short_scan_vars (g : vars) (c : ascii) (rest : string) :
  optind g <= optind (snd (short_scan g c rest)) /\
  initialized (parser (snd (short_scan g c rest))) = true.
Proof.
  unfold short_scan, reject.
  destruct (short_lookup c optstring) as [[|]|];
    destruct (String.eqb rest EmptyString);
    try destruct (arg_at (argv g) (optind g + 1));
    cbn; split; try reflexivity; lia.
Qed.

(** A call that returns an option leaves less to scan. *)
Lemma getopt_long_decreases (g : vars) :
  sound g ->
  fst (getopt_long g) <> -1 ->
  (remaining (snd (getopt_long g)) < remaining g)%nat /\
  sound (snd (getopt_long g)).
Proof.
  intros Hs. destruct (enter_sound g Hs) as [H1 Hsame].
  assert (Sound : forall g' : vars,
             1 <= optind g' -> initialized (parser g') = true -> sound g').
  { intros g' Ho Hi. split; [lia|]. intros _. split; [exact Hi|lia]. }
  unfold getopt_long.
  destruct (nextchar (parser (enter g))) as [|c rest] eqn:Hnext.
  - cbv zeta.
    assert (Hg : nextchar (parser g) = EmptyString).
    { destruct (nextchar (parser g)) as [|c r] eqn:Hg; [reflexivity|].
      assert (Hc : String c r <> EmptyString) by discriminate.
      rewrite (Hsame Hc) in Hnext. congruence. }
    assert (Hb : (weight (skipn (Z.to_nat (optind (advance (enter g))))
                            (argv (advance (enter g))))
                  <= remaining g)%nat).
    { etransitivity; [apply advance_remaining|].
      unfold remaining. rewrite Hg. now apply enter_remaining. }
    pose proof (advance_optind (enter g)) as Ho.
    set (g1 := advance (enter g)) in *.
    destruct (arg_at (argv g1) (optind g1)) as [tok|] eqn:Htok;
      [|simpl; congruence].
    rewrite (weight_skipn_at _ _ _ Htok) in Hb.
    destruct (String.eqb tok "--"); [simpl; congruence|].
    destruct tok as [|a [|b body]]; try (simpl; congruence).
    destruct (Ascii.eqb b "-").
    + intros _. pose proof (long_scan_bound g1 body).
      destruct (long_scan_vars g1 body) as [Hi Hin].
      split; [lia|]. apply Sound; [lia|exact Hin].
    + intros _. pose proof (short_scan_bound g1 b body) as H.
      destruct (short_scan_vars g1 b body) as [Hi Hin].
      simpl String.length in Hb.
      split; [lia|]. apply Sound; [lia|exact Hin].
  - intros _. pose proof (enter_nextchar g c rest Hnext) as He.
    rewrite He in *. clear He.
    pose proof (short_scan_bound g c rest) as H.
    destruct (short_scan_vars g c rest) as [Hi Hin].
    split; [|apply Sound; [lia|exact Hin]].
    assert (Hr : remaining g
                 = (S (String.length rest)
                    + weight (skipn (Z.to_nat (optind g + 1)) (argv g)))%nat)
      by (unfold remaining; rewrite Hnext; reflexivity).
    lia.
Qed.

End Termination.

Section Totality.

Context {W : Type}.
Variable sev : collaborators W.

Lemma handle_option_remaining (c : Z) (st st' : main_state W Getopt.data) :
  sound (gv st) ->
  handle_option sev c st = Continue st' ->
  (Getopt.remaining (gv st') <= Getopt.remaining (gv st))%nat /\
  sound (gv st').
Proof.
  intros [H0 Hs] H. apply handle_option_advances in H.
  destruct H as (Ha & Hn & Ho & _). split.
  - unfold Getopt.remaining. rewrite Ha, Hn.
    destruct (Getopt.nextchar (parser (gv st))).
    + apply weight_skipn_mono. lia.
    + pose proof (weight_skipn_mono (argv (gv st))
                    (Z.to_nat (optind (gv st) + 1))
                    (Z.to_nat (optind (gv st') + 1)) ltac:(lia)).
      lia.
  - split; [lia|]. rewrite Hn. intros Hc. destruct (Hs Hc). split; [assumption|lia].
Qed.

(** With more fuel than there is left to scan the loop ends by itself. *)
Lemma option_loop_ends (fuel : nat) :
  forall st : main_state W Getopt.data,
    sound (gv st) ->
    (Getopt.remaining (gv st) < fuel)%nat ->
    fst (option_loop sev Getopt.getopt_long fuel st) <> Out_of_fuel.
Proof.
  induction fuel as [|fuel IH]; intros st Hs Hf; [lia|].
  rewrite option_loop_step.
  pose proof (getopt_long_decreases (gv st) Hs) as Hd.
  destruct (Getopt.getopt_long (gv st)) as [c g']. cbn [fst snd] in Hd. cbv zeta.
  destruct (Z.eqb_spec c (-1)) as [->|Hc]; [discriminate|].
  destruct (Hd Hc) as [Hlt Hs'].
  match goal with
  | |- context [handle_option sev c ?s] =>
      destruct (handle_option sev c s) as [st2|code st2|st2] eqn:E
  end; try discriminate.
  apply handle_option_remaining in E; [|exact Hs'].
  cbn [gv] in E. destruct E as [Hle Hs2].
  apply IH; [exact Hs2|lia].
Qed.

Lemma sevtool_ends (args : list string) (w : W) :
  fst (sevtool sev args w) <> Out_of_fuel.
Proof.
  unfold sevtool, main.
  pose proof (option_loop_ends (Getopt.fuel_for args)
                (initial_state args Getopt.start w)) as H.
  destruct (option_loop sev Getopt.getopt_long (Getopt.fuel_for args)
              (initial_state args Getopt.start w)) as [[| | |] st];
    try discriminate.
  apply H; [split; [cbn; lia|intros Hc; now contradiction Hc]|].
  unfold Getopt.fuel_for, Getopt.remaining, initial_state.
  cbn [gv parser Getopt.nextchar Getopt.start optind argv].
  change (Z.to_nat 1) with 1%nat.
  pose proof (weight_skipn_mono args 0 1 ltac:(lia)) as Hm.
  change (skipn 0 args) with args in Hm. lia.
Qed.

(** The program returns 0 or runs into undefined behaviour. *)
Lemma sevtool_total (args : list string) (w : W) :
  fst (sevtool sev args w) = Returned 0 \/
  fst (sevtool sev args w) = Undefined_behaviour.
Proof.
  pose proof (sevtool_ends args w) as He.
  destruct (sevtool sev args w) as [[|code| |] st] eqn:E; cbn [fst] in *.
  - unfold sevtool, main in E.
    destruct (option_loop _ _ _ _) as [[| | |] ?]; discriminate.
  - left. f_equal. unfold sevtool in E.
    eapply main_return_zero; eassumption.
  - now right.
  - congruence.
Qed.

End Totality.

Section ExitPaths.

Context {W : Type}.
Variable sev : collaborators W.
Variable w : W.

(** A wrong number of arguments. *)
Lemma exit_on_wrong_arity (a : string) :
  fst (sevtool sev ["sevtool"; "--pek_cert_import"; a] w) = Returned 0.
Proof.
  unfold sevtool, main, Getopt.fuel_for. rewrite option_loop_step.
  assert (G : Getopt.getopt_long
                (gv (initial_state ["sevtool"; "--pek_cert_import"; a]
                       Getopt.start w))
              = (chr "g",
                 mkGetopt 3 a 0 ["sevtool"; "--pek_cert_import"; a] 0
                   (settled_at 1))) by reflexivity.
  rewrite G. cbv beta iota zeta.
  change (chr "g" =? -1) with false. cbv iota.
  rewrite (arity_mismatch_aborts sev (chr "g") 2
             ("Error: Expecting exactly 2 args for pek_cert_import" ++ nl));
    [reflexivity|simpl; tauto|simpl; lia].
Qed.

(** An option that is not in the table. *)
Lemma exit_on_unrecognised_option :
  sevtool sev ["sevtool"; "--bogus"] w =
  (Returned 0,
   mkState (mkGetopt 2 EmptyString 0 ["sevtool"; "--bogus"] 0 (settled_at 1))
     1 "./" 65535 w [Err ("Unrecognised option: -" ++ printf_c 0 ++ nl)]).
Proof. reflexivity. Qed.

(** A command that ran, whatever its status. *)
Lemma exit_after_command :
  sevtool sev ["sevtool"; "--get_ask_ark"] w =
  (let '(ret, w') := get_ask_ark sev "./" 0 w in
   (Returned 0,
    mkState
      (mkGetopt 2 EmptyString 0 ["sevtool"; "--get_ask_ark"] 0 (settled_at 2))
      1 "./" ret w' [Text (classify ret)])).
Proof.
  rewrite (sevtool_items sev [Flag get_ask_ark_option])
    by (repeat constructor; simpl; tauto).
  cbn [run_items scan flat_map tokens app].
  unfold Getopt.deliver. cbn [Getopt.flag get_ask_ark_option Getopt.val].
  rewrite handle_get_ask_ark. unfold single_shot.
  cbn [initial_state gv repetitions world output_folder verbose_flag cmd_ret out
       with_gv on_option].
  destruct (get_ask_ark sev "./" 0 w) as [ret w']. reflexivity.
Qed.

End ExitPaths.

(** C9. Whenever [main] returns, it returns 0: from the end of the loop
    ([return 0]) and from every [return false] inside the [switch],
    whatever [getopt_long] and the commands do.  On the modelled
    [getopt_long] the option loop always ends, so on every command line
    the program returns 0 unless it runs into undefined behaviour; it
    returns 0 after a wrong number of arguments, after an unrecognised
    option, and after a command of any status, which only the printed
    line shows. *)
Theorem C9_exit_status_is_zero :
  (forall (W P : Type) (sev : collaborators W)
          (getopt_long : getopt_vars P -> Z * getopt_vars P)
          (fuel : nat) (args : list string) (p0 : P) (w : W)
          (st : main_state W P) (code : Z),
      main sev getopt_long fuel args p0 w = (Returned code, st) -> code = 0)
  /\ (forall (W : Type) (sev : collaborators W) (args : list string) (w : W),
         fst (sevtool sev args w) = Returned 0 \/
         fst (sevtool sev args w) = Undefined_behaviour)
  /\ (forall (W : Type) (sev : collaborators W) (w : W) (a : string),
         fst (sevtool sev ["sevtool"; "--pek_cert_import"; a] w) = Returned 0)
  /\ (forall (W : Type) (sev : collaborators W) (w : W),
         fst (sevtool sev ["sevtool"; "--bogus"] w) = Returned 0)
  /\ (forall (W : Type) (sev : collaborators W) (w : W),
         sevtool sev ["sevtool"; "--get_ask_ark"] w =
         (let '(ret, w') := get_ask_ark sev "./" 0 w in
          (Returned 0,
           mkState
             (mkGetopt 2 EmptyString 0 ["sevtool"; "--get_ask_ark"] 0
                (settled_at 2))
             1 "./" ret w' [Text (classify ret)]))).
Proof.
  split; [intros; eapply main_return_zero; eassumption|].
  split; [intros; apply sevtool_total|].
  split; [intros; apply exit_on_wrong_arity|].
  split; [intros; now rewrite exit_on_unrecognised_option|].
  intros; apply exit_after_command.
Qed.

Lemma C9_exit_status_is_zero_witness :
  fst (sevtool (Mock.sev (fun _ => 300)) ["sevtool"; "--get_id"] [])
  = Returned 0.
Proof.
  destruct C9_exit_status_is_zero as (H & _).
  destruct (sevtool (Mock.sev (fun _ => 300)) ["sevtool"; "--get_id"] [])
    as [[|code| |] st] eqn:E; try (vm_compute in E; discriminate).
  unfold sevtool in E.
  now rewrite (H _ _ _ _ _ _ _ _ _ _ E).
Defined.

(** * Further properties *)

(** ** What a repeatable operation prints *)

Section RepeatedOutput.

Context {W P : Type}.

Lemma repeated_output (st st' : main_state W P) (func : @repeatable W) :
  1 <= repetitions st ->
  repeated st func = Continue st' ->
  exists s, out st' = out st ++ failure_line (cmd_ret st') ++ print_statistics s.
Proof.
  intros Hr. unfold repeated.
  pose proof (perform_output func (repetitions st) (world st) ltac:(lia)) as H.
  destruct (perform_repetitions_and_analysis func (repetitions st) (world st))
    as [[[ret|] w'] o]; [|discriminate].
  destruct H as (_ & s & _ & ->).
  intros [= <-]. exists s. reflexivity.
Qed.

End RepeatedOutput.

Section RepeatableOperations.

Context {W : Type}.
Variable sev : collaborators W.

Lemma repeatable_operations_handled (o : Getopt.long_option)
    (method : string -> Z -> @repeatable W) :
  In (o, method) (repeatable_operations sev) ->
  well_formed (Flag o) /\ Getopt.flag o = false /\
  forall (P : Type) (st : main_state W P),
    handle_option sev (Getopt.val o) st =
    repeated st (method (output_folder st) (verbose_flag (gv st))).
Proof.
  intros H. cbn [repeatable_operations In] in H.
  repeat (destruct H as [[= <- <-]|H];
          [split; [split; [cbn; tauto|reflexivity]|split; reflexivity]|]).
  contradiction.
Qed.

(** One repeatable operation on the command line. *)
Lemma sevtool_repeatable (o : Getopt.long_option)
    (method : string -> Z -> @repeatable W) (w : W) :
  In (o, method) (repeatable_operations sev) ->
  sevtool sev ["sevtool"; "--" ++ Getopt.name o]%string w =
  match perform_repetitions_and_analysis (method "./" 0) 1 w with
  | (Some ret, w', o') =>
      (Returned 0,
       mkState (mkGetopt 2 EmptyString 0
                  ["sevtool"; "--" ++ Getopt.name o]%string 0 (settled_at 2))
         1 "./" ret w' (o' ++ [Text (classify ret)]))
  | (None, w', o') =>
      (Undefined_behaviour,
       mkState (mkGetopt 2 EmptyString 0
                  ["sevtool"; "--" ++ Getopt.name o]%string 0 (settled_at 1))
         1 "./" 65535 w' o')
  end.
Proof.
  intros Hin.
  destruct (repeatable_operations_handled o method Hin) as (Hwf & Hflag & Hh).
  rewrite (sevtool_items sev [Flag o]) by (constructor; [exact Hwf|constructor]).
  cbn [run_items scan flat_map tokens app].
  unfold Getopt.deliver. rewrite Hflag. rewrite Hh. unfold repeated.
  cbn [initial_state gv repetitions world output_folder verbose_flag cmd_ret
       out optind argv optopt with_gv on_option].
  destruct (perform_repetitions_and_analysis (method "./" 0) 1 w)
    as [[[ret|] w'] o']; reflexivity.
Qed.

End RepeatableOperations.

(** X1. The runner reports a failing status itself, with the line [main]
    prints at the end: after a cycle of [N >= 0] runs the runner has
    printed nothing if the terminal status is 0 and that one line
    otherwise, followed by the statistics when they are defined.  So for
    each of the seven repeatable operations, when the program returns, its
    output is the failure line (if any), the statistics, and the status
    line again. *)
Theorem X1_failure_line_is_printed_twice :
  (forall (W : Type) (func : @repeatable W) (N : Z) (w : W),
      0 <= N ->
      match perform_repetitions_and_analysis func N w with
      | (Some ret, _, o) =>
          ret = fst (fst (fst (repetition_cycle func N w))) /\
          exists s,
            summarize (snd (fst (fst (repetition_cycle func N w)))) = Some s /\
            o = failure_line ret ++ print_statistics s
      | (None, _, o) =>
          summarize (snd (fst (fst (repetition_cycle func N w)))) = None /\
          o = failure_line (fst (fst (fst (repetition_cycle func N w))))
      end)
  /\ (forall (W : Type) (sev : collaborators W) (o : Getopt.long_option)
             (method : string -> Z -> @repeatable W) (w : W)
             (st : main_state W Getopt.data),
         In (o, method) (repeatable_operations sev) ->
         sevtool sev ["sevtool"; "--" ++ Getopt.name o]%string w = (Returned 0, st) ->
         exists s,
           out st = failure_line (cmd_ret st) ++ print_statistics s
                    ++ [Text (classify (cmd_ret st))]).
Proof.
  split; [intros; now apply perform_output|].
  intros W sev o method w st Hin H.
  rewrite (sevtool_repeatable sev o method w Hin) in H.
  pose proof (perform_output (method "./" 0) 1 w ltac:(lia)) as Hp.
  destruct (perform_repetitions_and_analysis (method "./" 0) 1 w)
    as [[[ret|] w'] o']; [|discriminate].
  destruct Hp as (_ & s & _ & ->).
  injection H as <-. exists s. cbn [out cmd_ret]. now rewrite <- app_assoc.
Qed.

Lemma X1_failure_line_is_printed_twice_witness :
  exists s : statistics,
    out (snd (sevtool (Mock.sev (fun _ => 5)) ["sevtool"; "--get_id"] []))
    = failure_line 5 ++ print_statistics s ++ [Text (classify 5)].
Proof.
  destruct X1_failure_line_is_printed_twice as [_ H].
  apply (H _ (Mock.sev (fun _ => 5))
           (Getopt.mkOption "get_id" Getopt.no_argument false (chr "j"))
           (get_id (Mock.sev (fun _ => 5))) []
           (snd (sevtool (Mock.sev (fun _ => 5)) ["sevtool"; "--get_id"] []))).
  - cbn. tauto.
  - reflexivity.
Defined.

(** ** Minimum and maximum *)

Section Extremes.

Lemma summarize_extremes (xs : list double) (s : statistics) :
  numbers xs ->
  3 * Z.of_nat (List.length xs) <= INT_MAX ->
  summarize xs = Some s ->
  element (arrange xs) 0 = Some (st_min s) /\
  element (arrange xs) (Z.of_nat (List.length xs) - 1) = Some (st_max s) /\
  st_count s = List.length xs.
Proof.
  intros Hn Hint Hs.
  assert (H1 : 1 <= Z.of_nat (List.length xs)).
  { destruct xs as [|x l]; [discriminate Hs|]. simpl List.length. lia. }
  rewrite summarize_refines in Hs by assumption.
  unfold summarize_spec, bind in Hs.
  destruct (quantile (arrange xs) _ (_ / 4)) as [q1|]; [|discriminate].
  destruct (quantile (arrange xs) _ (3 * _ / 4)) as [q3|]; [|discriminate].
  destruct (quantile (arrange xs) _ (_ / 2)) as [med|]; [|discriminate].
  destruct (element (arrange xs) 0) as [lo|] eqn:Elo; [|discriminate].
  destruct (element (arrange xs) (_ - 1)) as [hi|] eqn:Ehi; [|discriminate].
  injection Hs as <-. cbn [st_min st_max st_count].
  now repeat split.
Qed.

Lemma element_in (l : list double) (i : Z) (a : double) :
  element l i = Some a -> In a l.
Proof.
  intros H. apply element_nth in H. destruct H as [_ H].
  now apply nth_error_In in H.
Qed.

Lemma in_element (l : list double) (a : double) :
  In a l -> exists i, 0 <= i < Z.of_nat (List.length l) /\ element l i = Some a.
Proof.
  intros H. apply In_nth_error in H. destruct H as [k Hk].
  assert (k < List.length l)%nat by (apply nth_error_Some; congruence).
  exists (Z.of_nat k). split; [lia|].
  unfold element. replace (Z.of_nat k <? 0) with false
    by (symmetry; apply Z.ltb_ge; lia).
  now rewrite Nat2Z.id.
Qed.

End Extremes.

(** X2. For a sample without NaN on which the reduction is defined (its
    size within the range of [int]): the sort is defined, the vector the
    order statistics are read from is the sample rearranged in ascending
    order, Min and Max are elements of the sample, no element is below Min
    or above Max, and the count is the size of the sample. *)
Theorem X2_min_max_are_the_extremes :
  forall (xs : list double) (s : statistics),
    numbers xs ->
    3 * Z.of_nat (List.length xs) <= INT_MAX ->
    summarize xs = Some s ->
    (exists sorted : list double,
        sort xs = Some sorted
        /\ Permutation sorted xs
        /\ StronglySorted le sorted)
    /\ In (st_min s) xs /\ In (st_max s) xs
    /\ (forall x : double, In x xs -> le (st_min s) x /\ le x (st_max s))
    /\ st_count s = List.length xs.
Proof.
  intros xs s Hn Hint Hs.
  destruct (summarize_extremes xs s Hn Hint Hs) as (Hlo & Hhi & Hc).
  pose proof (arrange_perm xs) as Hp.
  pose proof (arrange_sorted xs Hn) as Hsorted.
  assert (Hns : numbers (arrange xs)).
  { eapply Permutation_Forall; [symmetry; exact Hp|exact Hn]. }
  split.
  { exists (arrange xs). split; [now apply sort_numbers|]. now split. }
  split; [eapply Permutation_in; [exact Hp|eapply element_in; exact Hlo]|].
  split; [eapply Permutation_in; [exact Hp|eapply element_in; exact Hhi]|].
  split; [|exact Hc].
  intros x Hx.
  assert (Hxs : In x (arrange xs))
    by (eapply Permutation_in; [symmetry; exact Hp|exact Hx]).
  destruct (in_element _ _ Hxs) as (i & Hi & Hel).
  rewrite arrange_length in Hi.
  split.
  - eapply (sorted_element_le (arrange xs) 0 i); eauto. lia.
  - eapply (sorted_element_le (arrange xs) i (Z.of_nat (List.length xs) - 1));
      eauto. lia.
Qed.

Lemma X2_min_max_are_the_extremes_witness :
  In (st_min s4_statistics) [40; 10; 30; 20]%float /\
  (forall x : double, In x [40; 10; 30; 20]%float ->
                      le (st_min s4_statistics) x /\ le x (st_max s4_statistics)).
Proof.
  destruct (X2_min_max_are_the_extremes [40; 10; 30; 20]%float s4_statistics)
    as (_ & Hmin & _ & Hall & _).
  - repeat constructor.
  - vm_compute. discriminate.
  - reflexivity.
  - split; assumption.
Defined.

(** ** A single measurement *)

Section DivisionByOne.

Import FloatSign Grid Value Rounding.

(** The quotient and remainder that the division by one starts from. *)
Lemma SFdiv_core_one (mx : positive) (ex : Z) :
  digits (Zpos mx) <= 53 ->
  let e' := Z.max (digits (Zpos mx) + ex - 54) (-1074) in
  let s := ex + 52 - e' in
  0 < s ->
  SFdiv_core_binary prec emax (Zpos mx) ex (Zpos 4503599627370496) (-52) =
  (Zpos mx * 2 ^ s / 2 ^ 52, e',
   new_location (2 ^ 52) ((Zpos mx * 2 ^ s) mod 2 ^ 52)).
Proof.
  intros Hd e' s Hs. unfold SFdiv_core_binary, Zdigits2.
  rewrite digits2_pos_digits.
  change (Zpos (digits2_pos 4503599627370496)) with 53.
  replace (Z.min (fexp prec emax (digits (Zpos mx) + ex - (53 + -52)))
             (ex - -52)) with e'
    by (unfold fexp, emin, prec, emax; subst e'; lia).
  replace (ex - -52 - e') with s by (subst s; lia).
  cbv zeta. destruct s as [|ps|ps] eqn:Es; try lia.
  rewrite Z.shiftl_mul_pow2 by lia.
  change (Zpos 4503599627370496) with (2 ^ 52).
  rewrite div_eucl_div_mod. reflexivity.
Qed.

(** A canonical mantissa shifted left by [k] bits rounds back to itself. *)
Lemma binary_round_aux_shifted (s : bool) (m : positive) (e k : Z) :
  -1074 <= e <= 971 ->
  e = Z.max (digits (Zpos m) + e - 53) (-1074) ->
  0 <= k ->
  forall q : positive,
    Zpos q = Zpos m * 2 ^ k ->
    binary_round_aux prec emax s (Zpos q) (e - k) loc_Exact = S754_finite s m e.
Proof.
  intros He Hc Hk q Hq.
  pose proof (pow2_pos k Hk) as Pk.
  assert (Hdq : digits (Zpos q) = digits (Zpos m) + k).
  { rewrite Hq. apply digits_mul_pow2; lia. }
  assert (He1 : Z.max (digits (Zpos q) + (e - k) - 53) (-1074) = e)
    by (rewrite Hdq; lia).
  rewrite binary_round_aux_finish.
  destruct (shr_fexp_exact q (e - k) ltac:(rewrite He1; lia)) as (E1 & E2 & E3).
  rewrite He1 in E1, E2, E3.
  replace (e - (e - k)) with k in E2, E3 by lia.
  assert (Hdiv : Zpos q / 2 ^ k = Zpos m) by (rewrite Hq; apply Z.div_mul; lia).
  assert (Hmod : Zpos q mod 2 ^ k = 0) by (rewrite Hq; apply Z.mod_mul; lia).
  rewrite E1, E2, (E3 Hmod), Hdiv. cbn [round_nearest_even].
  rewrite finish_canonical by exact Hc.
  replace (e <=? 971) with true by (symmetry; apply Z.leb_le; lia).
  reflexivity.
Qed.

(** Division by one is exact. *)
Lemma SFdiv_one (x : spec_float) :
  valid_binary x = true -> SFdiv prec emax x sf_one = x.
Proof.
  intros Vx. destruct x as [sx|sx| |sx mx ex]; unfold sf_one; cbn [SFdiv];
    rewrite ?xorb_false_r; try reflexivity.
  apply valid_finite in Vx. destruct Vx as [Hex Hc].
  pose proof (digits_pos (Zpos mx) ltac:(lia)) as Dp.
  set (d := digits (Zpos mx)) in *.
  assert (Hd : d <= 53) by lia.
  rewrite SFdiv_core_one by (fold d; lia).
  fold d. set (e' := Z.max (d + ex - 54) (-1074)).
  set (s := ex + 52 - e').
  assert (Hs : 52 <= s) by (subst s e'; lia).
  assert (Hq : Zpos mx * 2 ^ s = Zpos mx * 2 ^ (s - 52) * 2 ^ 52).
  { rewrite <- Z.mul_assoc, <- Z.pow_add_r by lia. do 2 f_equal. lia. }
  rewrite Hq, Z.div_mul, Z.mod_mul by (apply Z.pow_nonzero; lia).
  change (new_location (2 ^ 52) 0) with loc_Exact.
  pose proof (pow2_pos (s - 52) ltac:(lia)) as Ps.
  destruct (Zpos mx * 2 ^ (s - 52)) as [|q|q] eqn:Eq; try nia.
  replace e' with (ex - (s - 52)) by (subst s; lia).
  apply binary_round_aux_shifted; lia.
Qed.

Lemma div_one (x : double) : (x / 1)%float = x.
Proof.
  apply Prim2SF_inj. rewrite div_spec.
  change (Prim2SF 1) with sf_one.
  apply SFdiv_one, Prim2SF_valid.
Qed.

(** Adding to the literal [0.0] changes only the negative zero. *)
Lemma add_zero_l (x : double) : x <> neg_zero -> (0 + x)%float = x.
Proof.
  intros Hx. apply Prim2SF_inj. rewrite add_spec.
  change (Prim2SF 0) with (S754_zero false).
  destruct (Prim2SF x) as [sx|sx| |sx mx ex] eqn:E; try reflexivity.
  destruct sx; [|reflexivity].
  exfalso. apply Hx. apply Prim2SF_inj. rewrite E. reflexivity.
Qed.

(** A finite double minus itself is the positive zero. *)
Lemma sub_self (x : double) : is_finite x = true -> (x - x)%float = 0%float.
Proof.
  intros Hx. apply is_finite_spec in Hx.
  apply Prim2SF_inj. rewrite sub_spec.
  change (Prim2SF 0) with (S754_zero false).
  destruct (Prim2SF x) as [sx|sx| |sx mx ex]; try contradiction.
  - destruct sx; reflexivity.
  - unfold SF64sub, SFsub. cbv zeta. rewrite Z.sub_diag. reflexivity.
Qed.

End DivisionByOne.

Section SingleMeasurement.

Lemma summarize_one (x : double) :
  summarize [x] =
  Some (mkStatistics x x x x x 1%nat ((0 + x) / 1)
          (PrimFloat.sqrt ((0 + (x - (0 + x) / 1) * (x - (0 + x) / 1)) / 1))
          ((0 + (x - (0 + x) / 1) * (x - (0 + x) / 1)) / 1))%float.
Proof.
  unfold summarize, sort. rewrite strict_weak_one. reflexivity.
Qed.

Lemma summarize_one_finite (x : double) :
  is_finite x = true -> x <> neg_zero ->
  summarize [x] = Some (mkStatistics x x x x x 1%nat x 0 0)%float.
Proof.
  intros Hf Hz. rewrite summarize_one.
  rewrite (add_zero_l x Hz), (div_one x), (sub_self x Hf).
  reflexivity.
Qed.

End SingleMeasurement.

Section DefaultCount.

Context {W : Type}.

Lemma perform_once (func : @repeatable W) (w w' : W) (x : double)
    (s : statistics) :
  func [] w = (0, [x], w') ->
  summarize [x] = Some s ->
  perform_repetitions_and_analysis func 1 w = (Some 0, w', print_statistics s).
Proof.
  intros Hf Hs. unfold perform_repetitions_and_analysis, repetition_cycle.
  change (1 <? 0) with false. change (Z.to_nat 1) with 1%nat.
  cbn [repetition_loop]. rewrite Hf. cbn [Z.eqb]. rewrite Hs. reflexivity.
Qed.

End DefaultCount.

(** X3. One measurement, which is what the default count of 1 collects:
    every order statistic is the measurement itself and the count is 1;
    for a finite measurement other than the negative zero the mean is the
    measurement and the variance and the standard deviation are 0.  So a
    repeatable operation run with the default count, whose single run
    succeeds and reports such an [x], prints these statistics and then
    "Command Successful". *)
Theorem X3_single_measurement :
  (forall x : double,
      exists mean stdev variance : double,
        summarize [x] = Some (mkStatistics x x x x x 1%nat mean stdev variance))
  /\ (forall x : double,
         is_finite x = true -> x <> neg_zero ->
         summarize [x] = Some (mkStatistics x x x x x 1%nat x 0 0)%float)
  /\ (forall (W : Type) (sev : collaborators W) (o : Getopt.long_option)
             (method : string -> Z -> @repeatable W) (w w' : W) (x : double),
         In (o, method) (repeatable_operations sev) ->
         method "./" 0 [] w = (0, [x], w') ->
         is_finite x = true -> x <> neg_zero ->
         sevtool sev ["sevtool"; "--" ++ Getopt.name o]%string w =
         (Returned 0,
          mkState (mkGetopt 2 EmptyString 0
                     ["sevtool"; "--" ++ Getopt.name o]%string 0 (settled_at 2))
            1 "./" 0 w'
            [ Num "Min: " x; Num "First Quartile (Q1): " x; Num "Median: " x;
              Num "Third Quartile (Q3): " x; Num "Max: " x;
              Cnt "Number of measurements: " 1%nat; Num "Average: " x;
              Num "Standard Deviation: " 0%float; Num "Variance: " 0%float;
              Text (nl ++ "Command Successful" ++ nl)%string ])).
Proof.
  split. { intros x. rewrite summarize_one. eauto. }
  split. { exact summarize_one_finite. }
  intros W sev o method w w' x Hin Hm Hf Hz.
  rewrite (sevtool_repeatable sev o method w Hin).
  rewrite (perform_once (method "./" 0) w w' x _ Hm (summarize_one_finite x Hf Hz)).
  reflexivity.
Qed.

Lemma X3_single_measurement_witness :
  summarize [5]%float = Some (mkStatistics 5 5 5 5 5 1%nat 5 0 0)%float.
Proof.
  destruct X3_single_measurement as (_ & H & _).
  apply H; [reflexivity|]. intros E. discriminate (f_equal Prim2SF E).
Defined.

(** ** The output folder *)

Section OutputFolder.

(** [strncmp(output, "exists", 2) == 0]: the output starts with "ex". *)
Lemma strncmp_exists (output : string) :
  strncmp_eq output "exists" 2 = String.prefix "ex" output.
Proof.
  destruct output as [|a [|b rest]]; cbn [strncmp_eq String.prefix].
  - reflexivity.
  - rewrite andb_false_r. now destruct (ascii_dec "e" a).
  - replace (strncmp_eq rest "ists" 0) with true by (now destruct rest).
    replace (String.prefix "" rest) with true by (now destruct rest).
    rewrite andb_true_r.
    destruct (Ascii.eqb_spec a "e") as [->|Ha].
    + destruct (ascii_dec "e" "e") as [_|E]; [|congruence]. cbn [andb].
      destruct (Ascii.eqb_spec b "x") as [->|Hb].
      * destruct (ascii_dec "x" "x"); congruence.
      * destruct (ascii_dec "x" b); congruence.
    + destruct (ascii_dec "e" a); [congruence|reflexivity].
Qed.

Context {W : Type}.
Variable sev : collaborators W.

Lemma handle_ofolder {P : Type} (st : main_state W P) :
  handle_option sev (chr "O") st =
  (let folder := (optarg (gv st) ++ "/")%string in
   let '(ok, output, w') :=
     execute_system_command sev (folder_test folder) (world st) in
   let st' := mkState (gv st) (repetitions st) folder (cmd_ret st) w' (out st) in
   if negb ok then Return 0 (print st' (Text (folder_check_failed folder)))
   else if String.prefix "ex" output then Continue st'
   else Return 0 (print st' (Text (folder_missing folder)))).
Proof.
  unfold handle_option.
  change (code_is (chr "O") "h" || code_is (chr "O") "H") with false.
  change (code_is (chr "O") "i" || code_is (chr "O") "I") with false.
  change (code_is (chr "O") "o" || code_is (chr "O") "O") with true.
  cbv beta iota zeta. fold (folder_test (optarg (gv st) ++ "/")).
  destruct (execute_system_command sev _ (world st)) as [[ok output] w'].
  rewrite strncmp_exists.
  destruct ok; [|reflexivity].
  destruct (String.prefix "ex" output); reflexivity.
Qed.

End OutputFolder.

(** X4. [--ofolder d] appends "/" to [d], runs the shell test on that name
    and looks at the first two characters of its output only: when the
    command ran and its output starts with "ex", the operations that follow
    get [d/] as their folder; otherwise the program prints the diagnostic
    and returns 0 at once, without running what follows and without the
    final status line. *)
Theorem X4_output_folder_check :
  forall (W : Type) (sev : collaborators W) (d : string) (w w1 : W)
         (ok : bool) (output : string),
    execute_system_command sev (folder_test (d ++ "/")) w = (ok, output, w1) ->
    sevtool sev ["sevtool"; "--ofolder"; d; "--get_ask_ark"] w =
    if ok && String.prefix "ex" output then
      let '(ret, w2) := get_ask_ark sev (d ++ "/")%string 0 w1 in
      (Returned 0,
       mkState
         (mkGetopt 4 EmptyString 0
            ["sevtool"; "--ofolder"; d; "--get_ask_ark"] 0 (settled_at 4))
         1 (d ++ "/")%string ret w2 [Text (classify ret)])
    else
      (Returned 0,
       mkState
         (mkGetopt 3 d 0 ["sevtool"; "--ofolder"; d; "--get_ask_ark"] 0
            (settled_at 1))
         1 (d ++ "/")%string 65535 w1
         [Text (if ok then folder_missing (d ++ "/")
                else folder_check_failed (d ++ "/"))]).
Proof.
  intros W sev d w w1 ok output Hcmd.
  rewrite (sevtool_items sev [Setting ofolder_option d; Flag get_ask_ark_option])
    by (repeat constructor; cbn; tauto).
  cbn [run_items scan flat_map tokens app].
  unfold Getopt.deliver.
  cbn [Getopt.flag ofolder_option get_ask_ark_option Getopt.val Getopt.name].
  rewrite handle_ofolder.
  cbn [initial_state gv repetitions world output_folder verbose_flag cmd_ret
       out optind optarg argv optopt with_gv on_option].
  rewrite Hcmd.
  destruct ok; cbn [negb andb]; [|reflexivity].
  destruct (String.prefix "ex" output); [|reflexivity].
  cbn [gv optind optopt argv verbose_flag repetitions output_folder cmd_ret
       world out with_gv on_option].
  rewrite handle_get_ask_ark. unfold single_shot.
  cbn [gv repetitions world output_folder verbose_flag cmd_ret out with_gv].
  destruct (get_ask_ark sev (d ++ "/")%string 0 w1) as [ret w2]. reflexivity.
Qed.

Lemma X4_output_folder_check_witness :
  fst (sevtool (Mock.sev Mock.all_succeed)
         ["sevtool"; "--ofolder"; "out"; "--get_ask_ark"] [])
  = Returned 0.
Proof.
  rewrite (X4_output_folder_check _ (Mock.sev Mock.all_succeed) "out" [] []
             true "exist" eq_refl).
  reflexivity.
Defined.

(** ** Operations that run once *)

Section SingleShot.

Context {W : Type}.
Variable sev : collaborators W.

Lemma handle_test_all {P : Type} (st : main_state W P) :
  handle_option sev (chr "T") st =
  (let '(r, w') :=
     test_all sev (output_folder st) (verbose_flag (gv st)) (world st) in
   Continue (mkState (gv st) (repetitions st) (output_folder st)
               (int_of_bool (r =? 0)) w' (out st))).
Proof. reflexivity. Qed.

Lemma handle_help {P : Type} (st : main_state W P) :
  handle_option sev (chr "H") st =
  Continue (mkState (gv st) (repetitions st) (output_folder st) 0 (world st)
              (out st ++ [Text (help_array ++ nl)])).
Proof. reflexivity. Qed.

Lemma single_shot_operations_handled (o : Getopt.long_option)
    (method : string -> Z -> W -> Z * W) :
  In (o, method) (single_shot_operations sev) ->
  well_formed (Flag o) /\ Getopt.flag o = false /\
  forall (P : Type) (st : main_state W P),
    handle_option sev (Getopt.val o) st = single_shot st method.
Proof.
  intros H. cbn [single_shot_operations In] in H.
  repeat (destruct H as [[= <- <-]|H];
          [split; [split; [cbn; tauto|reflexivity]|split; reflexivity]|]).
  contradiction.
Qed.

End SingleShot.

(** X5. [--test_all] turns what [test_all] returns into the status: 0
    gives the status 1 and the line "Command Unsuccessful: 0x01", any
    other value gives the status 0 and "Command Successful"; the line
    "Command not supported" cannot follow it. *)
Theorem X5_test_all_status :
  forall (W : Type) (sev : collaborators W) (w : W),
    sevtool sev ["sevtool"; "--test_all"] w =
    (let '(r, w') := test_all sev "./" 0 w in
     (Returned 0,
      mkState (mkGetopt 2 EmptyString 0 ["sevtool"; "--test_all"] 0
                 (settled_at 2))
        1 "./" (if r =? 0 then 1 else 0) w'
        [Text (if r =? 0
               then (nl ++ "Command Unsuccessful: 0x01" ++ nl)%string
               else (nl ++ "Command Successful" ++ nl)%string)])).
Proof.
  intros W sev w.
  rewrite (sevtool_items sev [Flag test_all_option])
    by (repeat constructor; cbn; tauto).
  cbn [run_items scan flat_map tokens app].
  unfold Getopt.deliver. cbn [Getopt.flag test_all_option Getopt.val].
  rewrite handle_test_all.
  cbn [initial_state gv repetitions world output_folder verbose_flag cmd_ret out
       with_gv on_option].
  destruct (test_all sev "./" 0 w) as [r w'].
  destruct (r =? 0); reflexivity.
Qed.

(** X6. The repetition count has no effect on the eleven operations
    without arguments that are not repeatable: after [--repetitions value]
    such an operation still runs exactly once, in the world the program
    started in, and no statistics are printed; the output is the warning
    about the count, if any, and the status line. *)
Theorem X6_single_shot_ignores_repetitions :
  forall (W : Type) (sev : collaborators W) (o : Getopt.long_option)
         (method : string -> Z -> W -> Z * W) (value : string) (w : W),
    In (o, method) (single_shot_operations sev) ->
    sevtool sev ["sevtool"; "--repetitions"; value; "--" ++ Getopt.name o]%string w =
    (let '(ret, w') := method "./" 0 w in
     (Returned 0,
      mkState
        (mkGetopt 4 EmptyString 0
           ["sevtool"; "--repetitions"; value; "--" ++ Getopt.name o]%string 0
           (settled_at 4))
        (effective_count value) "./" ret w'
        (count_warning value ++ [Text (classify ret)]))).
Proof.
  intros W sev o method value w Hin.
  destruct (single_shot_operations_handled sev o method Hin) as (Hwf & Hflag & Hh).
  rewrite (sevtool_items sev [Setting repetitions_option value; Flag o])
    by (constructor; [cbn; tauto|constructor; [exact Hwf|constructor]]).
  cbn [run_items scan flat_map tokens app].
  unfold Getopt.deliver. rewrite Hflag.
  cbn [Getopt.flag repetitions_option Getopt.val].
  rewrite handle_repetitions.
  cbn [initial_state gv repetitions world output_folder verbose_flag cmd_ret
       out optind optarg argv optopt with_gv on_option].
  unfold effective_count, count_warning.
  destruct (atoi value <=? 0); rewrite Hh; unfold single_shot;
    cbn [gv repetitions world output_folder verbose_flag cmd_ret out with_gv];
    destruct (method "./" 0 w) as [ret w']; reflexivity.
Qed.

Lemma X6_single_shot_ignores_repetitions_witness :
  world (snd (sevtool (Mock.sev Mock.all_succeed)
                ["sevtool"; "--repetitions"; "5"; "--get_ask_ark"] []))
  = ["get_ask_ark"].
Proof.
  pose proof (X6_single_shot_ignores_repetitions _ (Mock.sev Mock.all_succeed)
                (Getopt.mkOption "get_ask_ark" Getopt.no_argument false (chr "n"))
                (get_ask_ark (Mock.sev Mock.all_succeed)) "5" []
                ltac:(cbn; tauto)) as H.
  cbn [Getopt.name String.append] in H. rewrite H. reflexivity.
Defined.

(** ** Positional arguments *)

Section PositionalRuns.

Context {W : Type}.
Variable sev : collaborators W.

(** With nothing left to scan the loop is over. *)
Lemma option_loop_done (fuel : nat) (st : main_state W Getopt.data) :
  (1 <= fuel)%nat ->
  settled (gv st) ->
  optind (gv st) <> 0 ->
  optind (gv st) = Z.of_nat (List.length (argv (gv st))) ->
  option_loop sev Getopt.getopt_long fuel st =
  (Done, with_gv st (at_end (gv st))).
Proof.
  intros Hf Hs Hi Ha. destruct fuel as [|fuel]; [lia|].
  rewrite option_loop_step, (getopt_ends (gv st) Hs Hi Ha). reflexivity.
Qed.

Lemma handle_sign_pek_csr {P : Type} (st : main_state W P) :
  handle_option sev (chr "s") st =
  positional st 2 ("Error: Expecting exactly 2 args for pek_cert_import" ++ nl)
    (fun st' args =>
       single_shot st'
         (fun f v => sign_pek_csr sev f v (nth 0 args EmptyString)
                       (nth 1 args EmptyString))).
Proof. reflexivity. Qed.

Lemma handle_set_externally_owned {P : Type} (st : main_state W P) :
  handle_option sev (chr "l") st =
  positional st 1
    ("Error: Expecting exactly 1 arg for set_externally_owned" ++ nl)
    (fun st' args =>
       single_shot st'
         (fun f v => set_externally_owned sev f v (nth 0 args EmptyString))).
Proof. reflexivity. Qed.

Lemma weight_positive (a : string) (l : list string) :
  (1 <= Getopt.weight (a :: l))%nat.
Proof. unfold Getopt.weight. cbn [fold_right]. lia. Qed.

(** [--sign_pek_csr a b]: the two tokens are the file names. *)
Lemma sign_pek_csr_separate (a b : string) (w : W) :
  sevtool sev ["sevtool"; "--sign_pek_csr"; a; b] w =
  (let '(ret, w') := sign_pek_csr sev "./" 0 a b w in
   (Returned 0,
    mkState
      (mkGetopt 4 EmptyString 0 ["sevtool"; "--sign_pek_csr"; a; b] 0
         (settled_at 4))
      1 "./" ret w' [Text (classify ret)])).
Proof.
  unfold sevtool, main, Getopt.fuel_for. rewrite option_loop_step.
  assert (G : Getopt.getopt_long
                (gv (initial_state ["sevtool"; "--sign_pek_csr"; a; b]
                       Getopt.start w))
              = (chr "s",
                 mkGetopt 3 a 0 ["sevtool"; "--sign_pek_csr"; a; b] 0
                   (settled_at 1))) by reflexivity.
  rewrite G. cbv beta iota zeta.
  change (chr "s" =? -1) with false. cbv iota.
  rewrite handle_sign_pek_csr, positional_match by (cbn; lia).
  cbn [initial_state gv repetitions world output_folder verbose_flag cmd_ret
       out optind argv with_optind set_optind optarg optopt parser].
  change (firstn 2 (skipn (Z.to_nat (3 - 1)) ["sevtool"; "--sign_pek_csr"; a; b]))
    with [a; b].
  unfold single_shot.
  cbn [initial_state gv repetitions world output_folder verbose_flag cmd_ret
       out optind argv with_optind set_optind optarg optopt parser nth].
  destruct (sign_pek_csr sev "./" 0 a b w) as [ret w'].
  rewrite option_loop_done;
    [reflexivity|apply weight_positive|split; [reflexivity|right; reflexivity]
    |cbn; lia|reflexivity].
Qed.

(** [--sign_pek_csr=a b]: [optind - 1] is the option itself. *)
Lemma sign_pek_csr_joined (a b : string) (w : W) :
  sevtool sev ["sevtool"; "--sign_pek_csr=" ++ a; b]%string w =
  (let '(ret, w') :=
     sign_pek_csr sev "./" 0 ("--sign_pek_csr=" ++ a)%string b w in
   (Returned 0,
    mkState
      (mkGetopt 3 EmptyString 0 ["sevtool"; "--sign_pek_csr=" ++ a; b]%string 0
         (settled_at 3))
      1 "./" ret w' [Text (classify ret)])).
Proof.
  unfold sevtool, main, Getopt.fuel_for. rewrite option_loop_step.
  assert (G : Getopt.getopt_long
                (gv (initial_state ["sevtool"; "--sign_pek_csr=" ++ a; b]%string
                       Getopt.start w))
              = (chr "s",
                 mkGetopt 2 a 0 ["sevtool"; "--sign_pek_csr=" ++ a; b]%string 0
                   (settled_at 1))) by reflexivity.
  rewrite G. cbv beta iota zeta.
  change (chr "s" =? -1) with false. cbv iota.
  rewrite handle_sign_pek_csr, positional_match by (cbn; lia).
  cbn [initial_state gv repetitions world output_folder verbose_flag cmd_ret
       out optind argv with_optind set_optind optarg optopt parser].
  change (firstn 2 (skipn (Z.to_nat (2 - 1))
                      ["sevtool"; "--sign_pek_csr=" ++ a; b]%string))
    with ["--sign_pek_csr=" ++ a; b]%string.
  unfold single_shot.
  cbn [initial_state gv repetitions world output_folder verbose_flag cmd_ret
       out optind argv with_optind set_optind optarg optopt parser nth].
  destruct (sign_pek_csr sev "./" 0 ("--sign_pek_csr=" ++ a)%string b w)
    as [ret w'].
  rewrite option_loop_done;
    [reflexivity|apply weight_positive|split; [reflexivity|right; reflexivity]
    |cbn; lia|reflexivity].
Qed.

Lemma set_externally_owned_separate (f : string) (w : W) :
  sevtool sev ["sevtool"; "--set_externally_owned"; f] w =
  (let '(ret, w') := set_externally_owned sev "./" 0 f w in
   (Returned 0,
    mkState
      (mkGetopt 3 EmptyString 0 ["sevtool"; "--set_externally_owned"; f] 0
         (settled_at 3))
      1 "./" ret w' [Text (classify ret)])).
Proof.
  unfold sevtool, main, Getopt.fuel_for. rewrite option_loop_step.
  assert (G : Getopt.getopt_long
                (gv (initial_state ["sevtool"; "--set_externally_owned"; f]
                       Getopt.start w))
              = (chr "l",
                 mkGetopt 3 f 0 ["sevtool"; "--set_externally_owned"; f] 0
                   (settled_at 1))) by reflexivity.
  rewrite G. cbv beta iota zeta.
  change (chr "l" =? -1) with false. cbv iota.
  rewrite handle_set_externally_owned, positional_match by (cbn; lia).
  cbn [initial_state gv repetitions world output_folder verbose_flag cmd_ret
       out optind argv with_optind set_optind optarg optopt parser].
  change (firstn 1 (skipn (Z.to_nat (3 - 1))
                      ["sevtool"; "--set_externally_owned"; f]))
    with [f].
  unfold single_shot.
  cbn [initial_state gv repetitions world output_folder verbose_flag cmd_ret
       out optind argv with_optind set_optind optarg optopt parser nth].
  destruct (set_externally_owned sev "./" 0 f w) as [ret w'].
  rewrite option_loop_done;
    [reflexivity|apply weight_positive|split; [reflexivity|right; reflexivity]
    |cbn; lia|reflexivity].
Qed.

Lemma set_externally_owned_joined (f : string) (w : W) :
  sevtool sev ["sevtool"; "--set_externally_owned=" ++ f]%string w =
  (let '(ret, w') :=
     set_externally_owned sev "./" 0 ("--set_externally_owned=" ++ f)%string w in
   (Returned 0,
    mkState
      (mkGetopt 2 EmptyString 0 ["sevtool"; "--set_externally_owned=" ++ f]%string
         0 (settled_at 2))
      1 "./" ret w' [Text (classify ret)])).
Proof.
  unfold sevtool, main, Getopt.fuel_for. rewrite option_loop_step.
  assert (G : Getopt.getopt_long
                (gv (initial_state
                       ["sevtool"; "--set_externally_owned=" ++ f]%string
                       Getopt.start w))
              = (chr "l",
                 mkGetopt 2 f 0 ["sevtool"; "--set_externally_owned=" ++ f]%string
                   0 (settled_at 1))) by reflexivity.
  rewrite G. cbv beta iota zeta.
  change (chr "l" =? -1) with false. cbv iota.
  rewrite handle_set_externally_owned, positional_match by (cbn; lia).
  cbn [initial_state gv repetitions world output_folder verbose_flag cmd_ret
       out optind argv with_optind set_optind optarg optopt parser].
  change (firstn 1 (skipn (Z.to_nat (2 - 1))
                      ["sevtool"; "--set_externally_owned=" ++ f]%string))
    with ["--set_externally_owned=" ++ f]%string.
  unfold single_shot.
  cbn [initial_state gv repetitions world output_folder verbose_flag cmd_ret
       out optind argv with_optind set_optind optarg optopt parser nth].
  destruct (set_externally_owned sev "./" 0
              ("--set_externally_owned=" ++ f)%string w) as [ret w'].
  rewrite option_loop_done;
    [reflexivity|apply weight_positive|split; [reflexivity|right; reflexivity]
    |cbn; lia|reflexivity].
Qed.

End PositionalRuns.

(** X7. The operations that read positional arguments take them from
    [argv] at [optind - 1] on, whatever the tokens look like.  Written as
    [--sign_pek_csr a b] and [--set_externally_owned f], the operation runs
    once with the tokens that follow the option, in order, and nothing
    after them is scanned.  Written with [=], as [--sign_pek_csr=a b] and
    [--set_externally_owned=f], the count of arguments is accepted as well,
    and the first file name the operation gets is the whole option token. *)
Theorem X7_positional_arguments_are_read_from_argv :
  forall (W : Type) (sev : collaborators W) (a b : string) (w : W),
    sevtool sev ["sevtool"; "--sign_pek_csr"; a; b] w =
    (let '(ret, w') := sign_pek_csr sev "./" 0 a b w in
     (Returned 0,
      mkState
        (mkGetopt 4 EmptyString 0 ["sevtool"; "--sign_pek_csr"; a; b] 0
           (settled_at 4))
        1 "./" ret w' [Text (classify ret)]))
    /\
    sevtool sev ["sevtool"; "--set_externally_owned"; a] w =
    (let '(ret, w') := set_externally_owned sev "./" 0 a w in
     (Returned 0,
      mkState
        (mkGetopt 3 EmptyString 0 ["sevtool"; "--set_externally_owned"; a] 0
           (settled_at 3))
        1 "./" ret w' [Text (classify ret)]))
    /\
    sevtool sev ["sevtool"; "--sign_pek_csr=" ++ a; b]%string w =
    (let '(ret, w') :=
       sign_pek_csr sev "./" 0 ("--sign_pek_csr=" ++ a)%string b w in
     (Returned 0,
      mkState
        (mkGetopt 3 EmptyString 0 ["sevtool"; "--sign_pek_csr=" ++ a; b]%string
           0 (settled_at 3))
        1 "./" ret w' [Text (classify ret)]))
    /\
    sevtool sev ["sevtool"; "--set_externally_owned=" ++ a]%string w =
    (let '(ret, w') :=
       set_externally_owned sev "./" 0 ("--set_externally_owned=" ++ a)%string w in
     (Returned 0,
      mkState
        (mkGetopt 2 EmptyString 0
           ["sevtool"; "--set_externally_owned=" ++ a]%string 0 (settled_at 2))
        1 "./" ret w' [Text (classify ret)])).
Proof.
  intros W sev a b w.
  split; [apply sign_pek_csr_separate|].
  split; [apply set_externally_owned_separate|].
  split; [apply sign_pek_csr_joined|apply set_externally_owned_joined].
Qed.

(** ** The status line read back *)

Section StatusLine.

Lemma hex_digit_decode (d : Z) :
  0 <= d < 16 ->
  exists c, hex_digit d = String c EmptyString /\ hex_digit_value c = Some d.
Proof.
  intros H.
  assert (E : d = 0 \/ d = 1 \/ d = 2 \/ d = 3 \/ d = 4 \/ d = 5 \/ d = 6 \/
              d = 7 \/ d = 8 \/ d = 9 \/ d = 10 \/ d = 11 \/ d = 12 \/
              d = 13 \/ d = 14 \/ d = 15) by lia.
  repeat (destruct E as [->|E]; [eexists; split; reflexivity|]).
  subst d. eexists; split; reflexivity.
Qed.

Lemma append_assoc (a b c : string) : ((a ++ b) ++ c = a ++ (b ++ c))%string.
Proof. induction a as [|x a IH]; cbn; [reflexivity|now rewrite IH]. Qed.

Lemma hex_of_decode (fuel : nat) :
  forall u : Z,
    0 <= u < 16 ^ Z.of_nat fuel ->
    exists k : Z,
      0 <= k /\
      forall (acc : Z) (rest : string),
        hex_value_from (hex_of fuel u ++ rest) acc =
        hex_value_from rest (acc * 16 ^ k + u).
Proof.
  induction fuel as [|fuel IH]; intros u Hu.
  - change (16 ^ Z.of_nat 0) with 1 in Hu. exists 0. split; [lia|].
    intros acc rest. cbn [hex_of String.append].
    f_equal. change (16 ^ 0) with 1. lia.
  - cbn [hex_of]. destruct (Z.ltb_spec u 16) as [Hlt|Hge].
    + destruct (hex_digit_decode u ltac:(lia)) as (c & -> & Hc).
      exists 1. split; [lia|]. intros acc rest.
      cbn [String.append hex_value_from]. rewrite Hc.
      f_equal. change (16 ^ 1) with 16. lia.
    + rewrite Nat2Z.inj_succ, Z.pow_succ_r in Hu by lia.
      destruct (IH (u / 16)) as (k & Hk & Hdec).
      { split; [apply Z.div_pos; lia|].
        apply Z.div_lt_upper_bound; lia. }
      destruct (hex_digit_decode (u mod 16)) as (c & Ec & Hc).
      { apply Z.mod_pos_bound. lia. }
      exists (Z.succ k). split; [lia|]. intros acc rest.
      rewrite append_assoc, Hdec, Ec.
      cbn [String.append hex_value_from]. rewrite Hc.
      f_equal. rewrite Z.pow_succ_r by lia.
      pose proof (Z.div_mod u 16 ltac:(lia)). lia.
Qed.

(** The text [%02x] printed, read back, is the status as [unsigned int]. *)
Lemma printf_02x_decode (v : Z) (rest : string) :
  hex_value_from (printf_02x v ++ rest) 0 = hex_value_from rest (v mod 2 ^ 32).
Proof.
  unfold printf_02x. cbv zeta.
  destruct (hex_of_decode 8 (v mod 2 ^ 32)) as (k & Hk & Hdec).
  { change (16 ^ Z.of_nat 8) with (2 ^ 32). apply Z.mod_pos_bound. lia. }
  destruct (_ <? 2)%nat.
  - cbn [String.append]. change (hex_value_from (String "0" ?s) 0)
      with (hex_value_from s 0).
    cbn [hex_value_from]. change (hex_digit_value "0") with (Some 0).
    cbv iota. change (16 * 0 + 0) with 0. now rewrite Hdec.
  - now rewrite Hdec.
Qed.

Lemma append_inv_head (s x y : string) :
  (s ++ x = s ++ y)%string -> x = y.
Proof.
  induction s as [|c s IH]; cbn; [trivial|]. intros [= H]. now apply IH.
Qed.

Lemma msg_unsuccessful_decode (a b : Z) :
  msg_unsuccessful a = msg_unsuccessful b -> a mod 2 ^ 32 = b mod 2 ^ 32.
Proof.
  unfold msg_unsuccessful. intros H.
  apply append_inv_head, append_inv_head in H.
  apply (f_equal (fun s => hex_value_from s 0)) in H.
  now rewrite !printf_02x_decode in H.
Qed.

Lemma classify_cases (a : Z) :
  (a = 0 /\ classify a = msg_successful) \/
  (a = 65535 /\ classify a = msg_not_supported) \/
  (a <> 0 /\ a <> 65535 /\ classify a = msg_unsuccessful a).
Proof.
  unfold classify.
  destruct (Z.eqb_spec a 0) as [->|H0]; [tauto|].
  destruct (Z.eqb_spec a 65535) as [->|H1]; [right; left; tauto|].
  tauto.
Qed.

Lemma tenth_character (a : Z) :
  String.get 9 msg_successful = Some "S"%char /\
  String.get 9 msg_not_supported = Some "n"%char /\
  String.get 9 (msg_unsuccessful a) = Some "U"%char.
Proof. repeat split; reflexivity. Qed.

End StatusLine.

(** X8. The status line determines the status: two statuses within the
    range of [int] that give the same line are equal.  The digits after
    "0x", read back as hexadecimal, are the status as [unsigned int]. *)
Theorem X8_status_line_determines_status :
  forall a b : Z,
    - INT_MAX - 1 <= a <= INT_MAX ->
    - INT_MAX - 1 <= b <= INT_MAX ->
    classify a = classify b ->
    a = b /\ hex_value (printf_02x a) = a mod 2 ^ 32.
Proof.
  intros a b Ha Hb H. split.
  - destruct (tenth_character a) as (Ts & Tn & Ta).
    destruct (tenth_character b) as (_ & _ & Tb).
    destruct (classify_cases a) as [[-> Ea]|[[-> Ea]|(A0 & A1 & Ea)]];
      destruct (classify_cases b) as [[-> Eb]|[[-> Eb]|(B0 & B1 & Eb)]];
      try reflexivity; rewrite Ea, Eb in H;
      try (apply (f_equal (String.get 9)) in H;
           rewrite ?Ts, ?Tn, ?Ta, ?Tb in H; discriminate).
    apply msg_unsuccessful_decode in H.
    unfold INT_MAX in Ha, Hb.
    assert (Hm : forall v, - 2147483647 - 1 <= v <= 2147483647 ->
                           v = (v mod 2 ^ 32 + 2 ^ 31) mod 2 ^ 32 - 2 ^ 31).
    { intros v Hv. change (2 ^ 32) with 4294967296.
      change (2 ^ 31) with 2147483648.
      Z.div_mod_to_equations. lia. }
    rewrite (Hm a Ha), (Hm b Hb), H. reflexivity.
  - unfold hex_value.
    replace (printf_02x a) with (printf_02x a ++ EmptyString)%string
      by (clear; induction (printf_02x a) as [|c s IH]; cbn; congruence).
    now rewrite printf_02x_decode.
Qed.

Lemma X8_status_line_determines_status_witness :
  classify 5 <> classify 261.
Proof.
  intros H.
  destruct (X8_status_line_determines_status 5 261) as [E _];
    [unfold INT_MAX; lia|unfold INT_MAX; lia|exact H|discriminate E].
Defined.

(** ** What the options keep *)

Section Invariants.

Context {W P : Type}.
Variable sev : collaborators W.

Lemma single_shot_state (st : main_state W P)
    (method : string -> Z -> W -> Z * W) :
  exists ret w',
    single_shot st method =
    Continue (mkState (gv st) (repetitions st) (output_folder st) ret w' (out st)).
Proof.
  unfold single_shot.
  destruct (method (output_folder st) (verbose_flag (gv st)) (world st))
    as [ret w'].
  now exists ret, w'.
Qed.

Lemma repeated_repetitions (st : main_state W P) (func : @repeatable W) :
  repetitions (state_of (repeated st func)) = repetitions st.
Proof.
  unfold repeated.
  destruct (perform_repetitions_and_analysis func (repetitions st) (world st))
    as [[[ret|] w'] o]; reflexivity.
Qed.

Lemma positional_repetitions (st : main_state W P) (k : nat) (msg : string)
    (body : main_state W P -> list string -> step W P) :
  (forall st' args, repetitions (state_of (body st' args)) = repetitions st') ->
  repetitions (state_of (positional st k msg body)) = repetitions st.
Proof.
  intros Hb. unfold positional. cbv zeta.
  destruct (negb _); [reflexivity|].
  match goal with
  | |- context [match ?r with Some _ => _ | None => _ end] => destruct r
  end; [rewrite Hb|]; reflexivity.
Qed.

Lemma single_shot_repetitions (st : main_state W P)
    (method : string -> Z -> W -> Z * W) :
  repetitions (state_of (single_shot st method)) = repetitions st.
Proof. destruct (single_shot_state st method) as (r & w' & ->). reflexivity. Qed.

(** Every case of the [switch] but 'r' leaves the count alone, and 'r'
    leaves a count between 1 and [INT_MAX]. *)
Lemma handle_option_repetitions (c : Z) (st : main_state W P) :
  1 <= repetitions st <= INT_MAX ->
  1 <= repetitions (state_of (handle_option sev c st)) <= INT_MAX.
Proof.
  intros Hr.
  destruct (code_is c "r") eqn:Ecr.
  - apply Z.eqb_eq in Ecr. subst c. rewrite handle_repetitions.
    pose proof (to_int_range (strtol10 (optarg (gv st)))) as Ha.
    fold (atoi (optarg (gv st))) in Ha.
    destruct (Z.leb_spec (atoi (optarg (gv st))) 0); cbn [state_of repetitions];
      unfold INT_MAX in *; lia.
  - enough (E : repetitions (state_of (handle_option sev c st)) = repetitions st)
      by (rewrite E; exact Hr).
    unfold handle_option. cbv zeta. rewrite Ecr.
    repeat match goal with
           | |- context [if ?b then _ else _] => destruct b
           | |- context [let '(_, _) := ?p in _] => destruct p
           end;
      first [ reflexivity
            | apply single_shot_repetitions
            | apply repeated_repetitions
            | apply positional_repetitions; intros;
              first [apply single_shot_repetitions | apply repeated_repetitions] ].
Qed.

Variable getopt_long : getopt_vars P -> Z * getopt_vars P.

Lemma option_loop_repetitions (fuel : nat) :
  forall st : main_state W P,
    1 <= repetitions st <= INT_MAX ->
    1 <= repetitions (snd (option_loop sev getopt_long fuel st)) <= INT_MAX.
Proof.
  induction fuel as [|fuel IH]; intros st Hr; [exact Hr|].
  rewrite option_loop_step.
  destruct (getopt_long (gv st)) as [c g']. cbv zeta.
  destruct (c =? -1); [exact Hr|].
  match goal with
  | |- context [handle_option sev c ?s] =>
      pose proof (handle_option_repetitions c s Hr) as H;
      destruct (handle_option sev c s) as [st2|code st2|st2]
  end; cbn [state_of] in H; first [apply IH; assumption|assumption].
Qed.

(** The silent options never reach a collaborator and never end the
    program. *)
Lemma handle_silent (c : Z) (st : main_state W P) :
  silent_code c = true ->
  exists st', handle_option sev c st = Continue st' /\ world st' = world st.
Proof.
  unfold silent_code. intros H.
  repeat (apply orb_true_iff in H; destruct H as [H|H]);
    apply Z.eqb_eq in H; subst c.
  - eexists; split; reflexivity.
  - eexists; split; reflexivity.
  - rewrite handle_repetitions.
    destruct (atoi (optarg (gv st)) <=? 0); eexists; split; reflexivity.
  - eexists; split; reflexivity.
  - eexists; split; reflexivity.
Qed.

Lemma option_loop_silent (fuel : nat) :
  forall st : main_state W P,
    forallb silent_code (codes_seen sev getopt_long fuel st) = true ->
    world (snd (option_loop sev getopt_long fuel st)) = world st /\
    (fst (option_loop sev getopt_long fuel st) = Done \/
     fst (option_loop sev getopt_long fuel st) = Out_of_fuel).
Proof.
  induction fuel as [|fuel IH]; intros st Hs; [split; [reflexivity|now right]|].
  rewrite option_loop_step. cbn [codes_seen] in Hs.
  destruct (getopt_long (gv st)) as [c g']. cbv zeta in Hs |- *.
  destruct (c =? -1); [split; [reflexivity|now left]|].
  cbn [forallb] in Hs. apply andb_true_iff in Hs. destruct Hs as [Hc Hs].
  match goal with
  | |- context [handle_option sev c ?s] =>
      destruct (handle_silent c s Hc) as (st2 & E & Hw)
  end.
  rewrite E in Hs |- *. destruct (IH st2 Hs) as [Hw2 He].
  split; [rewrite Hw2, Hw; reflexivity|exact He].
Qed.

End Invariants.

Section RunsPerformed.

Context {W : Type}.
Variable func : @repeatable W.
Variable w0 : W.

(** The loop performs at least one and at most [remaining] further runs. *)
Lemma repetition_loop_runs (remaining : nat) :
  forall (i : nat) (out : list out_item),
    exists k : nat,
      (i <= k <= i + remaining)%nat /\
      ((1 <= remaining)%nat -> (i < k)%nat) /\
      fst (repetition_loop func remaining
             (fst (fst (after_runs func i w0))) (snd (fst (after_runs func i w0)))
             (snd (after_runs func i w0)) out)
      = after_runs func k w0.
Proof.
  induction remaining as [|remaining IH]; intros i out.
  - exists i. split; [lia|]. split; [lia|].
    cbn [repetition_loop fst]. now destruct (after_runs func i w0) as [[r m] w].
  - cbn [repetition_loop].
    assert (E : func (snd (fst (after_runs func i w0))) (snd (after_runs func i w0))
                = after_runs func (S i) w0).
    { cbn [after_runs]. now destruct (after_runs func i w0) as [[r m] w]. }
    rewrite E.
    destruct (after_runs func (S i) w0) as [[ret m'] w'] eqn:A.
    destruct (ret =? 0).
    + destruct (IH (S i) out) as (k & Hk & _ & Hl).
      rewrite A in Hl. cbn [fst snd] in Hl.
      exists k. split; [lia|]. split; [lia|exact Hl].
    + exists (S i). split; [lia|]. split; [lia|]. now rewrite A.
Qed.

Lemma repetition_cycle_runs (N : Z) :
  1 <= N ->
  exists k : nat,
    (1 <= k)%nat /\ Z.of_nat k <= N /\
    fst (repetition_cycle func N w0) = after_runs func k w0.
Proof.
  intros HN. unfold repetition_cycle.
  destruct (repetition_loop_runs (Z.to_nat N) 0 []) as (k & Hk & Hpos & Hl).
  exists k. split; [apply Hpos; lia|]. split; [lia|exact Hl].
Qed.

End RunsPerformed.

(** X9. The options [--verbose], [--brief], [--repetitions], [-r] and
    [--help], [-h] never reach a collaborator: when [getopt_long] returns
    only their values, whatever it does otherwise, the world at the end of
    [main] is the world at its start. *)
Theorem X9_silent_options_leave_the_world_alone :
  forall (W P : Type) (sev : collaborators W)
         (getopt_long : getopt_vars P -> Z * getopt_vars P)
         (fuel : nat) (args : list string) (p0 : P) (w : W),
    forallb silent_code
      (codes_seen sev getopt_long fuel (initial_state args p0 w)) = true ->
    world (snd (main sev getopt_long fuel args p0 w)) = w.
Proof.
  intros W P sev getopt_long fuel args p0 w H.
  destruct (option_loop_silent sev getopt_long fuel _ H) as [Hw He].
  unfold main.
  destruct (option_loop sev getopt_long fuel (initial_state args p0 w))
    as [e st]. cbn [fst snd] in *.
  destruct e; exact Hw.
Qed.

Lemma X9_silent_options_leave_the_world_alone_witness :
  world (snd (sevtool (Mock.sev (fun _ => 7))
                ["sevtool"; "--verbose"; "--repetitions"; "3"; "-h"; "--brief"]
                []))
  = [].
Proof.
  unfold sevtool.
  apply (X9_silent_options_leave_the_world_alone _ _ (Mock.sev (fun _ => 7))
           Getopt.getopt_long).
  reflexivity.
Defined.

(** X10. The repetition count an operation reads is always between 1 and
    [INT_MAX]: the program starts with 1, case 'r' stores a count in that
    range and no other case changes it.  With such a count [N] the runner
    performs at least one run and at most [N]. *)
Theorem X10_repetition_count_stays_positive :
  (forall (W P : Type) (sev : collaborators W) (c : Z) (st : main_state W P),
      1 <= repetitions st <= INT_MAX ->
      1 <= repetitions (state_of (handle_option sev c st)) <= INT_MAX)
  /\ (forall (W P : Type) (sev : collaborators W)
             (getopt_long : getopt_vars P -> Z * getopt_vars P)
             (fuel : nat) (args : list string) (p0 : P) (w : W),
         1 <= repetitions (snd (main sev getopt_long fuel args p0 w)) <= INT_MAX)
  /\ (forall (W : Type) (func : @repeatable W) (N : Z) (w : W),
         1 <= N ->
         exists k : nat,
           (1 <= k)%nat /\ Z.of_nat k <= N /\
           fst (repetition_cycle func N w) = after_runs func k w).
Proof.
  split; [intros; now apply handle_option_repetitions|].
  split; [|intros; now apply repetition_cycle_runs].
  intros W P sev getopt_long fuel args p0 w.
  pose proof (option_loop_repetitions sev getopt_long fuel
                (initial_state args p0 w)) as H.
  unfold main.
  destruct (option_loop sev getopt_long fuel (initial_state args p0 w))
    as [e st]. cbn [snd] in H.
  specialize (H ltac:(cbn; unfold INT_MAX; lia)).
  destruct e; exact H.
Qed.

(** X11. [--help] prints the help text and sets the status to 0, whatever
    the status was: alone it ends in "Command Successful", and after any
    of the single-shot operations it ends in "Command Successful" as well,
    whatever status that operation returned. *)
Theorem X11_help_reports_success :
  (forall (W : Type) (sev : collaborators W) (w : W),
      sevtool sev ["sevtool"; "--help"] w =
      (Returned 0,
       mkState (mkGetopt 2 EmptyString 0 ["sevtool"; "--help"] 0 (settled_at 2))
         1 "./" 0 w
         [Text (help_array ++ nl);
          Text (nl ++ "Command Successful" ++ nl)%string]))
  /\ (forall (W : Type) (sev : collaborators W) (o : Getopt.long_option)
             (method : string -> Z -> W -> Z * W) (w : W),
         In (o, method) (single_shot_operations sev) ->
         sevtool sev ["sevtool"; "--" ++ Getopt.name o; "--help"]%string w =
         (let '(ret, w') := method "./" 0 w in
          (Returned 0,
           mkState
             (mkGetopt 3 EmptyString 0
                ["sevtool"; "--" ++ Getopt.name o; "--help"]%string 0
                (settled_at 3))
             1 "./" 0 w'
             [Text (help_array ++ nl);
              Text (nl ++ "Command Successful" ++ nl)%string]))).
Proof.
  split.
  - intros W sev w.
    rewrite (sevtool_items sev [Flag help_option])
      by (repeat constructor; cbn; tauto).
    reflexivity.
  - intros W sev o method w Hin.
    destruct (single_shot_operations_handled sev o method Hin)
      as (Hwf & Hflag & Hh).
    rewrite (sevtool_items sev [Flag o; Flag help_option])
      by (constructor; [exact Hwf|repeat constructor; cbn; tauto]).
    cbn [run_items scan flat_map tokens app].
    unfold Getopt.deliver. rewrite Hflag.
    cbn [Getopt.flag help_option Getopt.val].
    rewrite Hh. unfold single_shot.
    cbn [initial_state gv repetitions world output_folder verbose_flag cmd_ret
         out optind optarg argv optopt with_gv on_option].
    destruct (method "./" 0 w) as [ret w']. reflexivity.
Qed.

(** ** Numeric arguments *)

Section NumericArguments.

Context {W : Type}.
Variable sev : collaborators W.

Lemma handle_generate_launch_blob {P : Type} (st : main_state W P) :
  handle_option sev (chr "v") st =
  positional st 1
    ("Error: Expecting exactly 1 arg for generate_launch_blob" ++ nl)
    (fun st' args =>
       single_shot st'
         (fun f v =>
            generate_launch_blob sev f v
              (strtol16 sev (nth 0 args EmptyString) mod 2 ^ 8))).
Proof. reflexivity. Qed.

Lemma handle_calc_measurement {P : Type} (st : main_state W P) :
  handle_option sev (chr "t") st =
  positional st 8
    ("Error: Expecting exactly 8 args for calc_measurement" ++ nl)
    (fun st' args =>
       single_shot st'
         (fun f v =>
            calc_measurement sev f v
              (mkMeasurement
                 (strtol16 sev (nth 0 args EmptyString) mod 2 ^ 8)
                 (strtol16 sev (nth 1 args EmptyString) mod 2 ^ 8)
                 (strtol16 sev (nth 2 args EmptyString) mod 2 ^ 8)
                 (strtol16 sev (nth 3 args EmptyString) mod 2 ^ 8)
                 (strtol16 sev (nth 4 args EmptyString) mod 2 ^ 32)
                 (str_to_array sev (nth 5 args EmptyString) (sizeof_digest sev))
                 (str_to_array sev (nth 6 args EmptyString) (sizeof_mnonce sev))
                 (str_to_array sev (nth 7 args EmptyString) (sizeof_tik sev))))).
Proof. reflexivity. Qed.

Lemma generate_launch_blob_runs (p : string) (w : W) :
  sevtool sev ["sevtool"; "--generate_launch_blob"; p] w =
  (let '(ret, w') :=
     generate_launch_blob sev "./" 0 (strtol16 sev p mod 2 ^ 8) w in
   (Returned 0,
    mkState
      (mkGetopt 3 EmptyString 0 ["sevtool"; "--generate_launch_blob"; p] 0
         (settled_at 3))
      1 "./" ret w' [Text (classify ret)])).
Proof.
  unfold sevtool, main, Getopt.fuel_for. rewrite option_loop_step.
  assert (G : Getopt.getopt_long
                (gv (initial_state ["sevtool"; "--generate_launch_blob"; p]
                       Getopt.start w))
              = (chr "v",
                 mkGetopt 3 p 0 ["sevtool"; "--generate_launch_blob"; p] 0
                   (settled_at 1))) by reflexivity.
  rewrite G. cbv beta iota zeta.
  change (chr "v" =? -1) with false. cbv iota.
  rewrite handle_generate_launch_blob, positional_match by (cbn; lia).
  cbn [initial_state gv repetitions world output_folder verbose_flag cmd_ret
       out optind argv with_optind set_optind optarg optopt parser].
  change (firstn 1 (skipn (Z.to_nat (3 - 1))
                      ["sevtool"; "--generate_launch_blob"; p]))
    with [p].
  unfold single_shot.
  cbn [initial_state gv repetitions world output_folder verbose_flag cmd_ret
       out optind argv with_optind set_optind optarg optopt parser nth].
  destruct (generate_launch_blob sev "./" 0 (strtol16 sev p mod 2 ^ 8) w)
    as [ret w'].
  rewrite option_loop_done;
    [reflexivity|apply weight_positive|split; [reflexivity|right; reflexivity]
    |cbn; lia|reflexivity].
Qed.

Lemma calc_measurement_runs (a1 a2 a3 a4 a5 a6 a7 a8 : string) (w : W) :
  sevtool sev
    ["sevtool"; "--calc_measurement"; a1; a2; a3; a4; a5; a6; a7; a8] w =
  (let '(ret, w') :=
     calc_measurement sev "./" 0
       (mkMeasurement
          (strtol16 sev a1 mod 2 ^ 8) (strtol16 sev a2 mod 2 ^ 8)
          (strtol16 sev a3 mod 2 ^ 8) (strtol16 sev a4 mod 2 ^ 8)
          (strtol16 sev a5 mod 2 ^ 32)
          (str_to_array sev a6 (sizeof_digest sev))
          (str_to_array sev a7 (sizeof_mnonce sev))
          (str_to_array sev a8 (sizeof_tik sev))) w in
   (Returned 0,
    mkState
      (mkGetopt 10 EmptyString 0
         ["sevtool"; "--calc_measurement"; a1; a2; a3; a4; a5; a6; a7; a8] 0
         (settled_at 10))
      1 "./" ret w' [Text (classify ret)])).
Proof.
  unfold sevtool, main, Getopt.fuel_for. rewrite option_loop_step.
  assert (G : Getopt.getopt_long
                (gv (initial_state
                       ["sevtool"; "--calc_measurement";
                        a1; a2; a3; a4; a5; a6; a7; a8] Getopt.start w))
              = (chr "t",
                 mkGetopt 3 a1 0
                   ["sevtool"; "--calc_measurement";
                    a1; a2; a3; a4; a5; a6; a7; a8] 0 (settled_at 1)))
    by reflexivity.
  rewrite G. cbv beta iota zeta.
  change (chr "t" =? -1) with false. cbv iota.
  rewrite handle_calc_measurement, positional_match by (cbn; lia).
  cbn [initial_state gv repetitions world output_folder verbose_flag cmd_ret
       out optind argv with_optind set_optind optarg optopt parser].
  change (firstn 8 (skipn (Z.to_nat (3 - 1))
                      ["sevtool"; "--calc_measurement";
                       a1; a2; a3; a4; a5; a6; a7; a8]))
    with [a1; a2; a3; a4; a5; a6; a7; a8].
  unfold single_shot.
  cbn [initial_state gv repetitions world output_folder verbose_flag cmd_ret
       out optind argv with_optind set_optind optarg optopt parser nth].
  match goal with
  | |- context [calc_measurement sev "./" 0 ?m w] =>
      destruct (calc_measurement sev "./" 0 m w) as [ret w']
  end.
  rewrite option_loop_done;
    [reflexivity|apply weight_positive|split; [reflexivity|right; reflexivity]
    |cbn; lia|reflexivity].
Qed.

End NumericArguments.

(** X12. The numbers on the command line are cut to the width of the
    cast: [--generate_launch_blob p] passes on the value of [p] modulo 256
    (the policy is a [uint32_t], the cast is to [uint8_t]), so two
    policies that agree modulo 256 give the same run; and
    [--calc_measurement] with its eight arguments passes on the first four
    modulo 256, the fifth modulo 2^32 and the last three as the arrays
    [str_to_array] makes of them, in that order. *)
Theorem X12_numeric_arguments_are_truncated :
  (forall (W : Type) (sev : collaborators W) (p : string) (w : W),
      sevtool sev ["sevtool"; "--generate_launch_blob"; p] w =
      (let '(ret, w') :=
         generate_launch_blob sev "./" 0 (strtol16 sev p mod 2 ^ 8) w in
       (Returned 0,
        mkState
          (mkGetopt 3 EmptyString 0 ["sevtool"; "--generate_launch_blob"; p] 0
             (settled_at 3))
          1 "./" ret w' [Text (classify ret)])))
  /\ (forall (W : Type) (sev : collaborators W) (p q : string) (w : W),
         strtol16 sev p mod 2 ^ 8 = strtol16 sev q mod 2 ^ 8 ->
         let run x := snd (sevtool sev ["sevtool"; "--generate_launch_blob"; x] w) in
         world (run p) = world (run q) /\ cmd_ret (run p) = cmd_ret (run q) /\
         out (run p) = out (run q))
  /\ (forall (W : Type) (sev : collaborators W)
             (a1 a2 a3 a4 a5 a6 a7 a8 : string) (w : W),
         sevtool sev
           ["sevtool"; "--calc_measurement"; a1; a2; a3; a4; a5; a6; a7; a8] w =
         (let '(ret, w') :=
            calc_measurement sev "./" 0
              (mkMeasurement
                 (strtol16 sev a1 mod 2 ^ 8) (strtol16 sev a2 mod 2 ^ 8)
                 (strtol16 sev a3 mod 2 ^ 8) (strtol16 sev a4 mod 2 ^ 8)
                 (strtol16 sev a5 mod 2 ^ 32)
                 (str_to_array sev a6 (sizeof_digest sev))
                 (str_to_array sev a7 (sizeof_mnonce sev))
                 (str_to_array sev a8 (sizeof_tik sev))) w in
          (Returned 0,
           mkState
             (mkGetopt 10 EmptyString 0
                ["sevtool"; "--calc_measurement";
                 a1; a2; a3; a4; a5; a6; a7; a8] 0 (settled_at 10))
             1 "./" ret w' [Text (classify ret)]))).
Proof.
  split; [intros; apply generate_launch_blob_runs|].
  split; [|intros; apply calc_measurement_runs].
  intros W sev p q w H run. subst run. cbv beta.
  rewrite !generate_launch_blob_runs, H.
  destruct (generate_launch_blob sev "./" 0 (strtol16 sev q mod 2 ^ 8) w)
    as [ret w'].
  repeat split.
Qed.

(** ** Text after the count *)

(** X13. The count is read with [atoi], which stops at the first
    character that is not a digit: a positive count followed by any text
    that does not start with a digit is taken as that count, and no
    warning is printed. *)
Theorem X13_count_with_trailing_text :
  forall (v : Z) (rest : string),
    1 <= v <= INT_MAX ->
    starts_with_digit rest = false ->
    atoi (printf_d v ++ rest) = v
    /\ forall (W P : Type) (sev : collaborators W) (st : main_state W P),
         optarg (gv st) = (printf_d v ++ rest)%string ->
         handle_option sev (chr "r") st =
         Continue (mkState (gv st) v (output_folder st) (cmd_ret st)
                     (world st) (out st)).
Proof.
  intros v rest Hv Hr.
  pose proof (atoi_trailing_text v rest Hv Hr) as Ha.
  split; [exact Ha|].
  intros W P sev st Ho. rewrite handle_repetitions, Ho, Ha.
  replace (v <=? 0) with false by (symmetry; apply Z.leb_gt; lia).
  reflexivity.
Qed.

Lemma X13_count_with_trailing_text_witness : atoi "3x" = 3.
Proof.
  destruct (X13_count_with_trailing_text 3 "x") as [H _];
    [unfold INT_MAX; lia|reflexivity|exact H].
Defined.

(** ** Two measurements *)

Section TwoMeasurements.

Context {W : Type}.
Variable sev : collaborators W.

Lemma perform_two (func : @repeatable W) (w w1 w2 : W) (x1 x2 : double)
    (r2 : Z) :
  func [] w = (0, [x1], w1) ->
  func [x1] w1 = (r2, [x1; x2], w2) ->
  fst (fst (perform_repetitions_and_analysis func 2 w)) = None.
Proof.
  intros H1 H2. unfold perform_repetitions_and_analysis, repetition_cycle.
  change (2 <? 0) with false. change (Z.to_nat 2) with 2%nat.
  cbn [repetition_loop]. rewrite H1. cbn [Z.eqb]. rewrite H2.
  destruct (r2 =? 0); rewrite (summarize_pair x1 x2); reflexivity.
Qed.

End TwoMeasurements.

(** X14. With the count 2 a repeatable operation cannot complete: when
    the first run succeeds and each of the two runs reports one
    measurement, whatever the status of the second run, the statistics
    read the index -1 of a vector of two elements, and the behaviour of
    the program is undefined. *)
Theorem X14_count_of_two_is_undefined :
  forall (W : Type) (sev : collaborators W) (o : Getopt.long_option)
         (method : string -> Z -> @repeatable W) (w w1 w2 : W)
         (x1 x2 : double) (r2 : Z),
    In (o, method) (repeatable_operations sev) ->
    method "./" 0 [] w = (0, [x1], w1) ->
    method "./" 0 [x1] w1 = (r2, [x1; x2], w2) ->
    fst (sevtool sev ["sevtool"; "--repetitions"; "2"; "--" ++ Getopt.name o]%string w)
    = Undefined_behaviour.
Proof.
  intros W sev o method w w1 w2 x1 x2 r2 Hin H1 H2.
  destruct (repeatable_operations_handled sev o method Hin) as (Hwf & Hflag & Hh).
  rewrite (sevtool_items sev [Setting repetitions_option "2"; Flag o])
    by (constructor; [cbn; tauto|constructor; [exact Hwf|constructor]]).
  cbn [run_items scan flat_map tokens app].
  unfold Getopt.deliver. rewrite Hflag.
  cbn [Getopt.flag repetitions_option Getopt.val].
  rewrite handle_repetitions.
  cbn [initial_state gv repetitions world output_folder verbose_flag cmd_ret
       out optind optarg argv optopt with_gv on_option].
  change (atoi "2") with 2. change (2 <=? 0) with false. cbv iota.
  rewrite Hh. unfold repeated.
  cbn [initial_state gv repetitions world output_folder verbose_flag cmd_ret
       out optind optarg argv optopt with_gv on_option].
  pose proof (perform_two (method "./" 0) w w1 w2 x1 x2 r2 H1 H2) as Hp.
  destruct (perform_repetitions_and_analysis (method "./" 0) 2 w)
    as [[[ret|] w'] o']; [discriminate Hp|reflexivity].
Qed.

Lemma X14_count_of_two_is_undefined_witness :
  fst (sevtool (Mock.sev Mock.all_succeed)
         ["sevtool"; "--repetitions"; "2"; "--get_id"] [])
  = Undefined_behaviour.
Proof.
  exact (X14_count_of_two_is_undefined _ (Mock.sev Mock.all_succeed)
           (Getopt.mkOption "get_id" Getopt.no_argument false (chr "j"))
           (get_id (Mock.sev Mock.all_succeed)) [] ["get_id"]
           ["get_id"; "get_id"] 1%float 2%float 0
           ltac:(cbn; tauto) eq_refl eq_refl).
Defined.

(** ** Mean and standard deviation *)

Section Moments.

Import FloatOrder FloatSign.

(** The square root of a number that is not negative is one. *)
Lemma SFsqrt_nonneg (x : spec_float) :
  nonneg x -> nonneg (SFsqrt prec emax x).
Proof.
  destruct x as [s|s| |s m e]; cbn [nonneg SFsqrt]; try tauto.
  - intros ->. reflexivity.
  - intros ->.
    pose proof (Z.sqrtrem_sqrt
                  (match e - 2 * Z.min (fexp prec emax
                                          (Z.div2 (Zdigits2 (Zpos m) + e + 1)))
                                   (Z.div2 e) with
                   | 0 => Zpos m
                   | Zpos _ =>
                       Z.shiftl (Zpos m)
                         (e - 2 * Z.min (fexp prec emax
                                           (Z.div2 (Zdigits2 (Zpos m) + e + 1)))
                                    (Z.div2 e))
                   | Zneg _ => 0
                   end)) as Hq.
    unfold SFsqrt_core_binary. cbv zeta.
    destruct (Z.sqrtrem _) as [q r]. cbn [fst] in Hq.
    apply signed_nonneg, binary_round_aux_signed.
    rewrite Hq. apply Z.sqrt_nonneg.
Qed.

Lemma summarize_moments (xs : list double) (s : statistics) :
  summarize xs = Some s ->
  st_mean s = (accumulate xs 0 / of_size (List.length xs))%float /\
  st_variance s =
    (sum_sq_dev xs (accumulate xs 0 / of_size (List.length xs))
     / of_size (List.length xs))%float /\
  st_stdev s = PrimFloat.sqrt (st_variance s) /\
  (1 <= List.length xs)%nat.
Proof.
  unfold summarize, bind. cbv zeta.
  destruct (sort xs) as [sorted|] eqn:Es; [|discriminate].
  destruct (quartiles _ _) as [q|]; [|discriminate].
  destruct (median_of _) as [med|]; [|discriminate].
  destruct (min_element _) as [lo|] eqn:Elo; [|discriminate].
  destruct (max_element _) as [hi|]; [|discriminate].
  intros [= <-]. cbn [st_mean st_variance st_stdev].
  repeat split.
  apply sort_arranged in Es. subst sorted.
  destruct xs as [|x l]; [discriminate Elo|]. cbn [List.length]. lia.
Qed.

End Moments.

(** X15. For a sample of finite doubles, of a size within the range of
    [int], on which the reduction is defined: the mean is a number (it is
    infinite when the sum overflows, never a NaN), the standard deviation
    is the square root of the variance, and it is a number that is not
    negative. *)
Theorem X15_mean_and_deviation_are_numbers :
  forall (xs : list double) (s : statistics),
    finite_sample xs ->
    3 * Z.of_nat (List.length xs) <= INT_MAX ->
    summarize xs = Some s ->
    is_nan (st_mean s) = false
    /\ st_stdev s = PrimFloat.sqrt (st_variance s)
    /\ le 0%float (st_stdev s).
Proof.
  intros xs s Hfin Hint Hs.
  destruct (summarize_moments xs s Hs) as (Em & Ev & Ed & H1).
  assert (H2 : Z.of_nat (List.length xs) < 2 ^ 53)
    by (unfold INT_MAX in Hint; change (2 ^ 53) with 9007199254740992; lia).
  destruct (of_size_finite _ H1 H2) as (md & ed & Hd).
  assert (Hmean : FloatOrder.number
                    (Prim2SF (accumulate xs 0 / of_size (List.length xs))%float)).
  { rewrite div_spec, Hd. apply SFdiv_number.
    apply accumulate_number; [assumption|discriminate]. }
  split; [rewrite Em; now apply is_nan_false|].
  split; [exact Ed|].
  rewrite Ed, Ev. apply nonneg_le_zero. rewrite sqrt_spec.
  apply SFsqrt_nonneg. rewrite div_spec, Hd.
  now apply SFdiv_nonneg, sum_sq_dev_nonneg.
Qed.

Lemma X15_mean_and_deviation_are_numbers_witness :
  is_nan (st_mean s4_statistics) = false /\ le 0%float (st_stdev s4_statistics).
Proof.
  destruct (X15_mean_and_deviation_are_numbers [40; 10; 30; 20]%float
              s4_statistics) as (Hm & _ & Hd).
  - repeat constructor.
  - vm_compute. discriminate.
  - reflexivity.
  - split; assumption.
Defined.

(** ** An option that is not in the table *)

Section UnrecognisedOption.

Context {W : Type}.
Variable sev : collaborators W.

Lemma handle_unknown {P : Type} (st : main_state W P) :
  handle_option sev Getopt.unknown st =
  Return 0 (print st (Err ("Unrecognised option: -"
                           ++ printf_c (optopt (gv st)) ++ nl))).
Proof. reflexivity. Qed.

(** A long option whose name the table does not resolve: it is not in
    the table, and it abbreviates no entry or entries that differ. *)
Lemma getopt_unknown_long (g : Getopt.vars) (nm : string)
    (pre rest : list string) :
  nm <> EmptyString ->
  Getopt.find_long (fst (Getopt.split_eq nm)) = None ->
  argv g = pre ++ ("--" ++ nm)%string :: rest ->
  optind g = Z.of_nat (List.length pre) ->
  pre <> [] ->
  settled g ->
  Getopt.getopt_long g =
  (Getopt.unknown,
   mkGetopt (optind g + 1) EmptyString 0 (argv g) (verbose_flag g)
     (settled_at (optind g))).
Proof.
  intros Hnm Hfind Hargv Hind Hpre Hs.
  assert (Hi : optind g <> 0) by (destruct pre; [congruence|simpl in Hind; lia]).
  assert (Hk : Getopt.skipped (skipn (Z.to_nat (optind g)) (argv g)) = O).
  { rewrite Hargv, Hind, skipn_pre. reflexivity. }
  destruct (on_option_advance g Hs Hi Hk) as [Hn Ha].
  unfold Getopt.getopt_long. rewrite Hn. cbv zeta. rewrite Ha.
  change (argv (on_option g)) with (argv g).
  change (optind (on_option g)) with (optind g).
  rewrite Hargv, Hind, arg_at_app.
  cbn [String.append]. rewrite (not_double_dash _ Hnm).
  change (Ascii.eqb "-" "-") with true. cbv iota.
  unfold Getopt.long_scan.
  destruct (Getopt.split_eq nm) as [n0 v]. cbn [fst] in Hfind.
  rewrite Hfind. unfold Getopt.reject, on_option.
  cbn [parser optind argv verbose_flag]. rewrite ?Hargv, ?Hind. reflexivity.
Qed.

End UnrecognisedOption.

(** X16. An option that is not in the table ends the program at once:
    when it follows a single-shot operation, the operation has run, all
    that [main] writes is its diagnostic on [stderr], no status line is
    printed for the operation, and nothing of what follows on the command
    line is looked at. *)
Theorem X16_unknown_option_hides_the_status :
  forall (W : Type) (sev : collaborators W) (o : Getopt.long_option)
         (method : string -> Z -> W -> Z * W) (nm : string)
         (rest : list string) (w : W),
    In (o, method) (single_shot_operations sev) ->
    nm <> EmptyString ->
    Getopt.find_long (fst (Getopt.split_eq nm)) = None ->
    sevtool sev ("sevtool" :: ("--" ++ Getopt.name o)%string
                   :: ("--" ++ nm)%string :: rest) w =
    (let '(ret, w') := method "./" 0 w in
     (Returned 0,
      mkState
        (mkGetopt 3 EmptyString 0
           ("sevtool" :: ("--" ++ Getopt.name o)%string
              :: ("--" ++ nm)%string :: rest) 0 (settled_at 2))
        1 "./" ret w'
        [Err ("Unrecognised option: -" ++ printf_c 0 ++ nl)])).
Proof.
  intros W sev o method nm rest w Hin Hnm Hfind.
  destruct (single_shot_operations_handled sev o method Hin) as (Hwf & Hflag & Hh).
  set (args := "sevtool" :: ("--" ++ Getopt.name o)%string
                 :: ("--" ++ nm)%string :: rest).
  unfold sevtool, main, Getopt.fuel_for. rewrite option_loop_step.
  rewrite (getopt_scans (gv (initial_state args Getopt.start w)) (Flag o)
             ["sevtool"] (("--" ++ nm)%string :: rest)
             (well_formed_listed (Flag o) Hwf));
    [|reflexivity|reflexivity|discriminate|apply initial_settled].
  destruct (scan_result (Flag o) (gv (initial_state args Getopt.start w)) Hwf)
    as (Hc & _).
  unfold scan, Getopt.deliver in Hc |- *. rewrite Hflag in Hc |- *.
  cbn [fst] in Hc. cbv beta iota zeta.
  replace (Getopt.val o =? -1) with false by (symmetry; now apply Z.eqb_neq).
  rewrite Hh. unfold single_shot.
  cbn [initial_state gv repetitions world output_folder verbose_flag cmd_ret
       out optind optarg argv optopt parser on_option].
  destruct (method "./" 0 w) as [ret w'].
  pose proof (weight_positive "sevtool"
                (("--" ++ Getopt.name o)%string :: ("--" ++ nm)%string :: rest))
    as Hw.
  fold args in Hw |- *.
  destruct (Getopt.weight args) as [|fuel]; [lia|].
  rewrite option_loop_step.
  rewrite (getopt_unknown_long _ nm ["sevtool"; ("--" ++ Getopt.name o)%string]
             rest Hnm Hfind);
    [|reflexivity|reflexivity|discriminate|split; [reflexivity|right; reflexivity]].
  cbv beta iota zeta. change (Getopt.unknown =? -1) with false. cbv iota.
  rewrite handle_unknown. reflexivity.
Qed.

Lemma X16_unknown_option_hides_the_status_witness :
  snd (sevtool (Mock.sev (fun _ => 9))
         ["sevtool"; "--get_ask_ark"; "--bogus"; "--package_secret"] [])
  = mkState
      (mkGetopt 3 EmptyString 0
         ["sevtool"; "--get_ask_ark"; "--bogus"; "--package_secret"] 0
         (settled_at 2))
      1 "./" 9 ["get_ask_ark"]
      [Err ("Unrecognised option: -" ++ printf_c 0 ++ nl)].
Proof.
  pose proof (X16_unknown_option_hides_the_status _ (Mock.sev (fun _ => 9))
                (Getopt.mkOption "get_ask_ark" Getopt.no_argument false (chr "n"))
                (get_ask_ark (Mock.sev (fun _ => 9))) "bogus"
                ["--package_secret"] []
                ltac:(cbn; tauto) ltac:(discriminate) eq_refl) as H.
  cbn [Getopt.name String.append] in H. rewrite H. reflexivity.
Defined.
